(** * ringstone_translate.py: a shallow embedding and its verification

    The script translates a catalog of UI strings with an LLM completion
    API, publishes one JSON file per language on a GitHub branch, opens a
    pull request and mails a report.  The embedding follows the source
    function by function:

    - Python [str] values are lists of Unicode code points;
    - Python [dict]s are association lists in insertion order;
    - the module globals [translation_log] and [total_tokens_used], the
      local report file, the state of the remote services and the record
      of everything the process did (calls, file accesses, console
      lines) form the [World];
    - statements are computations [M A := World -> result A * World],
      where [Raise e] is a Python exception in flight;
    - the remote services (completion API, GitHub, SMTP) are a handler
      [serve] over an arbitrary state: each call may answer or raise. *)

From Stdlib Require Import List NArith ZArith QArith String Ascii Bool Lia.
From Stdlib Require Import Floats.SpecFloat.
Import ListNotations.

Set Implicit Arguments.
Local Open Scope N_scope.

(** ** Python strings *)

Module Str.

(** A [str] is its sequence of code points. *)
Definition pystr := list N.

Fixpoint eqb (a b : pystr) : bool :=
  match a, b with
  | [], [] => true
  | x :: a', y :: b' => N.eqb x y && eqb a' b'
  | _, _ => false
  end.

(** [bytes.decode()]: strict UTF-8.  Overlong forms, surrogates and
    values above U+10FFFF are rejected ([None] is UnicodeDecodeError). *)
Definition is_cont (b : N) : bool := (0x80 <=? b) && (b <=? 0xBF).

Fixpoint utf8_decode (bs : list N) : option pystr :=
  match bs with
  | [] => Some []
  | b0 :: r0 =>
    if b0 <? 0x80 then option_map (cons b0) (utf8_decode r0)
    else if (0xC0 <=? b0) && (b0 <? 0xE0) then
      match r0 with
      | b1 :: r1 =>
        let cp := (b0 - 0xC0) * 64 + (b1 - 0x80) in
        if is_cont b1 && (0x80 <=? cp)
        then option_map (cons cp) (utf8_decode r1) else None
      | _ => None
      end
    else if (0xE0 <=? b0) && (b0 <? 0xF0) then
      match r0 with
      | b1 :: b2 :: r2 =>
        let cp := (b0 - 0xE0) * 4096 + (b1 - 0x80) * 64 + (b2 - 0x80) in
        if is_cont b1 && is_cont b2 && (0x800 <=? cp)
           && negb ((0xD800 <=? cp) && (cp <=? 0xDFFF))
        then option_map (cons cp) (utf8_decode r2) else None
      | _ => None
      end
    else if (0xF0 <=? b0) && (b0 <? 0xF8) then
      match r0 with
      | b1 :: b2 :: b3 :: r3 =>
        let cp := (b0 - 0xF0) * 262144 + (b1 - 0x80) * 4096
                  + (b2 - 0x80) * 64 + (b3 - 0x80) in
        if is_cont b1 && is_cont b2 && is_cont b3
           && (0x10000 <=? cp) && (cp <=? 0x10FFFF)
        then option_map (cons cp) (utf8_decode r3) else None
      | _ => None
      end
    else None
  end.

Definition bytes_of_string (s : string) : list N :=
  map N_of_ascii (list_ascii_of_string s).

(** A string literal of the source, written here in UTF-8. *)
Definition py (s : string) : pystr :=
  match utf8_decode (bytes_of_string s) with
  | Some t => t
  | None => []
  end.

(** The characters [str.split()] and [str.strip()] treat as whitespace
    ([Py_UNICODE_ISSPACE]). *)
Definition isspace (c : N) : bool :=
  ((0x09 <=? c) && (c <=? 0x0D)) || ((0x1C <=? c) && (c <=? 0x20))
  || (c =? 0x85) || (c =? 0xA0) || (c =? 0x1680)
  || ((0x2000 <=? c) && (c <=? 0x200A))
  || (c =? 0x2028) || (c =? 0x2029) || (c =? 0x202F)
  || (c =? 0x205F) || (c =? 0x3000).

(** [s.split()]: the maximal runs of non-whitespace characters.  [cur]
    holds the word being read, in reverse. *)
Fixpoint split_from (cur : pystr) (s : pystr) : list pystr :=
  match s with
  | [] => match cur with [] => [] | _ => [rev cur] end
  | c :: r =>
    if isspace c
    then match cur with [] => split_from [] r | _ => rev cur :: split_from [] r end
    else split_from (c :: cur) r
  end.

Definition split (s : pystr) : list pystr := split_from [] s.

(** [s.split(sep)] for a one-character separator: every occurrence
    cuts, empty pieces are kept. *)
Fixpoint split_on_from (sep : N) (cur : pystr) (s : pystr) : list pystr :=
  match s with
  | [] => [rev cur]
  | c :: r =>
    if c =? sep then rev cur :: split_on_from sep [] r
    else split_on_from sep (c :: cur) r
  end.

Definition split_on (sep : N) (s : pystr) : list pystr :=
  split_on_from sep [] s.

Fixpoint lstrip (s : pystr) : pystr :=
  match s with
  | c :: r => if isspace c then lstrip r else s
  | [] => []
  end.

(** [s.strip()] *)
Definition strip (s : pystr) : pystr := rev (lstrip (rev (lstrip s))).

(** [len(x)] as a Python int. *)
Definition len {A} (l : list A) : N := N.of_nat (List.length l).

(** [s.upper()].  CPython maps each character on its own, without
    context, to its full upper-case mapping in the Unicode Character
    Database (version 14.0 for Python 3.11); a character without
    mapping is kept.  The mappings to one character are listed as runs
    [(first, last, step, target)]: every [step]-th character from
    [first] to [last] goes to [target] plus its distance from [first]. *)
Definition upper_runs : list (N * N * N * N) :=
  [
   (0x61, 0x7A, 1, 0x41); (0xB5, 0xB5, 1, 0x39C); (0xE0, 0xF6, 1, 0xC0);
   (0xF8, 0xFE, 1, 0xD8); (0xFF, 0xFF, 1, 0x178); (0x101, 0x12F, 2, 0x100);
   (0x131, 0x131, 1, 0x49); (0x133, 0x137, 2, 0x132);
   (0x13A, 0x148, 2, 0x139); (0x14B, 0x177, 2, 0x14A);
   (0x17A, 0x17E, 2, 0x179); (0x17F, 0x17F, 1, 0x53);
   (0x180, 0x180, 1, 0x243); (0x183, 0x185, 2, 0x182);
   (0x188, 0x188, 1, 0x187); (0x18C, 0x18C, 1, 0x18B);
   (0x192, 0x192, 1, 0x191); (0x195, 0x195, 1, 0x1F6);
   (0x199, 0x199, 1, 0x198); (0x19A, 0x19A, 1, 0x23D);
   (0x19E, 0x19E, 1, 0x220); (0x1A1, 0x1A5, 2, 0x1A0);
   (0x1A8, 0x1A8, 1, 0x1A7); (0x1AD, 0x1AD, 1, 0x1AC);
   (0x1B0, 0x1B0, 1, 0x1AF); (0x1B4, 0x1B6, 2, 0x1B3);
   (0x1B9, 0x1B9, 1, 0x1B8); (0x1BD, 0x1BD, 1, 0x1BC);
   (0x1BF, 0x1BF, 1, 0x1F7); (0x1C5, 0x1C5, 1, 0x1C4);
   (0x1C6, 0x1C6, 1, 0x1C4); (0x1C8, 0x1C8, 1, 0x1C7);
   (0x1C9, 0x1C9, 1, 0x1C7); (0x1CB, 0x1CB, 1, 0x1CA);
   (0x1CC, 0x1CC, 1, 0x1CA); (0x1CE, 0x1DC, 2, 0x1CD);
   (0x1DD, 0x1DD, 1, 0x18E); (0x1DF, 0x1EF, 2, 0x1DE);
   (0x1F2, 0x1F2, 1, 0x1F1); (0x1F3, 0x1F3, 1, 0x1F1);
   (0x1F5, 0x1F5, 1, 0x1F4); (0x1F9, 0x21F, 2, 0x1F8);
   (0x223, 0x233, 2, 0x222); (0x23C, 0x23C, 1, 0x23B);
   (0x23F, 0x240, 1, 0x2C7E); (0x242, 0x242, 1, 0x241);
   (0x247, 0x24F, 2, 0x246); (0x250, 0x250, 1, 0x2C6F);
   (0x251, 0x251, 1, 0x2C6D); (0x252, 0x252, 1, 0x2C70);
   (0x253, 0x253, 1, 0x181); (0x254, 0x254, 1, 0x186);
   (0x256, 0x257, 1, 0x189); (0x259, 0x259, 1, 0x18F);
   (0x25B, 0x25B, 1, 0x190); (0x25C, 0x25C, 1, 0xA7AB);
   (0x260, 0x260, 1, 0x193); (0x261, 0x261, 1, 0xA7AC);
   (0x263, 0x263, 1, 0x194); (0x265, 0x265, 1, 0xA78D);
   (0x266, 0x266, 1, 0xA7AA); (0x268, 0x268, 1, 0x197);
   (0x269, 0x269, 1, 0x196); (0x26A, 0x26A, 1, 0xA7AE);
   (0x26B, 0x26B, 1, 0x2C62); (0x26C, 0x26C, 1, 0xA7AD);
   (0x26F, 0x26F, 1, 0x19C); (0x271, 0x271, 1, 0x2C6E);
   (0x272, 0x272, 1, 0x19D); (0x275, 0x275, 1, 0x19F);
   (0x27D, 0x27D, 1, 0x2C64); (0x280, 0x280, 1, 0x1A6);
   (0x282, 0x282, 1, 0xA7C5); (0x283, 0x283, 1, 0x1A9);
   (0x287, 0x287, 1, 0xA7B1); (0x288, 0x288, 1, 0x1AE);
   (0x289, 0x289, 1, 0x244); (0x28A, 0x28B, 1, 0x1B1);
   (0x28C, 0x28C, 1, 0x245); (0x292, 0x292, 1, 0x1B7);
   (0x29D, 0x29D, 1, 0xA7B2); (0x29E, 0x29E, 1, 0xA7B0);
   (0x345, 0x345, 1, 0x399); (0x371, 0x373, 2, 0x370);
   (0x377, 0x377, 1, 0x376); (0x37B, 0x37D, 1, 0x3FD);
   (0x3AC, 0x3AC, 1, 0x386); (0x3AD, 0x3AF, 1, 0x388);
   (0x3B1, 0x3C1, 1, 0x391); (0x3C2, 0x3C2, 1, 0x3A3);
   (0x3C3, 0x3CB, 1, 0x3A3); (0x3CC, 0x3CC, 1, 0x38C);
   (0x3CD, 0x3CE, 1, 0x38E); (0x3D0, 0x3D0, 1, 0x392);
   (0x3D1, 0x3D1, 1, 0x398); (0x3D5, 0x3D5, 1, 0x3A6);
   (0x3D6, 0x3D6, 1, 0x3A0); (0x3D7, 0x3D7, 1, 0x3CF);
   (0x3D9, 0x3EF, 2, 0x3D8); (0x3F0, 0x3F0, 1, 0x39A);
   (0x3F1, 0x3F1, 1, 0x3A1); (0x3F2, 0x3F2, 1, 0x3F9);
   (0x3F3, 0x3F3, 1, 0x37F); (0x3F5, 0x3F5, 1, 0x395);
   (0x3F8, 0x3F8, 1, 0x3F7); (0x3FB, 0x3FB, 1, 0x3FA);
   (0x430, 0x44F, 1, 0x410); (0x450, 0x45F, 1, 0x400);
   (0x461, 0x481, 2, 0x460); (0x48B, 0x4BF, 2, 0x48A);
   (0x4C2, 0x4CE, 2, 0x4C1); (0x4CF, 0x4CF, 1, 0x4C0);
   (0x4D1, 0x52F, 2, 0x4D0); (0x561, 0x586, 1, 0x531);
   (0x10D0, 0x10FA, 1, 0x1C90); (0x10FD, 0x10FF, 1, 0x1CBD);
   (0x13F8, 0x13FD, 1, 0x13F0); (0x1C80, 0x1C80, 1, 0x412);
   (0x1C81, 0x1C81, 1, 0x414); (0x1C82, 0x1C82, 1, 0x41E);
   (0x1C83, 0x1C84, 1, 0x421); (0x1C85, 0x1C85, 1, 0x422);
   (0x1C86, 0x1C86, 1, 0x42A); (0x1C87, 0x1C87, 1, 0x462);
   (0x1C88, 0x1C88, 1, 0xA64A); (0x1D79, 0x1D79, 1, 0xA77D);
   (0x1D7D, 0x1D7D, 1, 0x2C63); (0x1D8E, 0x1D8E, 1, 0xA7C6);
   (0x1E01, 0x1E95, 2, 0x1E00); (0x1E9B, 0x1E9B, 1, 0x1E60);
   (0x1EA1, 0x1EFF, 2, 0x1EA0); (0x1F00, 0x1F07, 1, 0x1F08);
   (0x1F10, 0x1F15, 1, 0x1F18); (0x1F20, 0x1F27, 1, 0x1F28);
   (0x1F30, 0x1F37, 1, 0x1F38); (0x1F40, 0x1F45, 1, 0x1F48);
   (0x1F51, 0x1F57, 2, 0x1F59); (0x1F60, 0x1F67, 1, 0x1F68);
   (0x1F70, 0x1F71, 1, 0x1FBA); (0x1F72, 0x1F75, 1, 0x1FC8);
   (0x1F76, 0x1F77, 1, 0x1FDA); (0x1F78, 0x1F79, 1, 0x1FF8);
   (0x1F7A, 0x1F7B, 1, 0x1FEA); (0x1F7C, 0x1F7D, 1, 0x1FFA);
   (0x1FB0, 0x1FB1, 1, 0x1FB8); (0x1FBE, 0x1FBE, 1, 0x399);
   (0x1FD0, 0x1FD1, 1, 0x1FD8); (0x1FE0, 0x1FE1, 1, 0x1FE8);
   (0x1FE5, 0x1FE5, 1, 0x1FEC); (0x214E, 0x214E, 1, 0x2132);
   (0x2170, 0x217F, 1, 0x2160); (0x2184, 0x2184, 1, 0x2183);
   (0x24D0, 0x24E9, 1, 0x24B6); (0x2C30, 0x2C5F, 1, 0x2C00);
   (0x2C61, 0x2C61, 1, 0x2C60); (0x2C65, 0x2C65, 1, 0x23A);
   (0x2C66, 0x2C66, 1, 0x23E); (0x2C68, 0x2C6C, 2, 0x2C67);
   (0x2C73, 0x2C73, 1, 0x2C72); (0x2C76, 0x2C76, 1, 0x2C75);
   (0x2C81, 0x2CE3, 2, 0x2C80); (0x2CEC, 0x2CEE, 2, 0x2CEB);
   (0x2CF3, 0x2CF3, 1, 0x2CF2); (0x2D00, 0x2D25, 1, 0x10A0);
   (0x2D27, 0x2D27, 1, 0x10C7); (0x2D2D, 0x2D2D, 1, 0x10CD);
   (0xA641, 0xA66D, 2, 0xA640); (0xA681, 0xA69B, 2, 0xA680);
   (0xA723, 0xA72F, 2, 0xA722); (0xA733, 0xA76F, 2, 0xA732);
   (0xA77A, 0xA77C, 2, 0xA779); (0xA77F, 0xA787, 2, 0xA77E);
   (0xA78C, 0xA78C, 1, 0xA78B); (0xA791, 0xA793, 2, 0xA790);
   (0xA794, 0xA794, 1, 0xA7C4); (0xA797, 0xA7A9, 2, 0xA796);
   (0xA7B5, 0xA7C3, 2, 0xA7B4); (0xA7C8, 0xA7CA, 2, 0xA7C7);
   (0xA7D1, 0xA7D1, 1, 0xA7D0); (0xA7D7, 0xA7D9, 2, 0xA7D6);
   (0xA7F6, 0xA7F6, 1, 0xA7F5); (0xAB53, 0xAB53, 1, 0xA7B3);
   (0xAB70, 0xABBF, 1, 0x13A0); (0xFF41, 0xFF5A, 1, 0xFF21);
   (0x10428, 0x1044F, 1, 0x10400); (0x104D8, 0x104FB, 1, 0x104B0);
   (0x10597, 0x105BB, 2, 0x10570); (0x10598, 0x105A1, 1, 0x10571);
   (0x105A4, 0x105B1, 1, 0x1057D); (0x105B4, 0x105B9, 1, 0x1058D);
   (0x105BC, 0x105BC, 1, 0x10595); (0x10CC0, 0x10CF2, 1, 0x10C80);
   (0x118C0, 0x118DF, 1, 0x118A0); (0x16E60, 0x16E7F, 1, 0x16E40);
   (0x1E922, 0x1E943, 1, 0x1E900)
  ].

(** The characters whose upper-case mapping is longer than one
    character, such as U+00DF (sharp s), which becomes [SS]. *)
Definition upper_special : list (N * list N) :=
  [
   (0xDF, [0x53; 0x53]); (0x149, [0x2BC; 0x4E]); (0x1F0, [0x4A; 0x30C]);
   (0x390, [0x399; 0x308; 0x301]); (0x3B0, [0x3A5; 0x308; 0x301]);
   (0x587, [0x535; 0x552]); (0x1E96, [0x48; 0x331]); (0x1E97, [0x54; 0x308]);
   (0x1E98, [0x57; 0x30A]); (0x1E99, [0x59; 0x30A]); (0x1E9A, [0x41; 0x2BE]);
   (0x1F50, [0x3A5; 0x313]); (0x1F52, [0x3A5; 0x313; 0x300]);
   (0x1F54, [0x3A5; 0x313; 0x301]); (0x1F56, [0x3A5; 0x313; 0x342]);
   (0x1F80, [0x1F08; 0x399]); (0x1F81, [0x1F09; 0x399]);
   (0x1F82, [0x1F0A; 0x399]); (0x1F83, [0x1F0B; 0x399]);
   (0x1F84, [0x1F0C; 0x399]); (0x1F85, [0x1F0D; 0x399]);
   (0x1F86, [0x1F0E; 0x399]); (0x1F87, [0x1F0F; 0x399]);
   (0x1F88, [0x1F08; 0x399]); (0x1F89, [0x1F09; 0x399]);
   (0x1F8A, [0x1F0A; 0x399]); (0x1F8B, [0x1F0B; 0x399]);
   (0x1F8C, [0x1F0C; 0x399]); (0x1F8D, [0x1F0D; 0x399]);
   (0x1F8E, [0x1F0E; 0x399]); (0x1F8F, [0x1F0F; 0x399]);
   (0x1F90, [0x1F28; 0x399]); (0x1F91, [0x1F29; 0x399]);
   (0x1F92, [0x1F2A; 0x399]); (0x1F93, [0x1F2B; 0x399]);
   (0x1F94, [0x1F2C; 0x399]); (0x1F95, [0x1F2D; 0x399]);
   (0x1F96, [0x1F2E; 0x399]); (0x1F97, [0x1F2F; 0x399]);
   (0x1F98, [0x1F28; 0x399]); (0x1F99, [0x1F29; 0x399]);
   (0x1F9A, [0x1F2A; 0x399]); (0x1F9B, [0x1F2B; 0x399]);
   (0x1F9C, [0x1F2C; 0x399]); (0x1F9D, [0x1F2D; 0x399]);
   (0x1F9E, [0x1F2E; 0x399]); (0x1F9F, [0x1F2F; 0x399]);
   (0x1FA0, [0x1F68; 0x399]); (0x1FA1, [0x1F69; 0x399]);
   (0x1FA2, [0x1F6A; 0x399]); (0x1FA3, [0x1F6B; 0x399]);
   (0x1FA4, [0x1F6C; 0x399]); (0x1FA5, [0x1F6D; 0x399]);
   (0x1FA6, [0x1F6E; 0x399]); (0x1FA7, [0x1F6F; 0x399]);
   (0x1FA8, [0x1F68; 0x399]); (0x1FA9, [0x1F69; 0x399]);
   (0x1FAA, [0x1F6A; 0x399]); (0x1FAB, [0x1F6B; 0x399]);
   (0x1FAC, [0x1F6C; 0x399]); (0x1FAD, [0x1F6D; 0x399]);
   (0x1FAE, [0x1F6E; 0x399]); (0x1FAF, [0x1F6F; 0x399]);
   (0x1FB2, [0x1FBA; 0x399]); (0x1FB3, [0x391; 0x399]);
   (0x1FB4, [0x386; 0x399]); (0x1FB6, [0x391; 0x342]);
   (0x1FB7, [0x391; 0x342; 0x399]); (0x1FBC, [0x391; 0x399]);
   (0x1FC2, [0x1FCA; 0x399]); (0x1FC3, [0x397; 0x399]);
   (0x1FC4, [0x389; 0x399]); (0x1FC6, [0x397; 0x342]);
   (0x1FC7, [0x397; 0x342; 0x399]); (0x1FCC, [0x397; 0x399]);
   (0x1FD2, [0x399; 0x308; 0x300]); (0x1FD3, [0x399; 0x308; 0x301]);
   (0x1FD6, [0x399; 0x342]); (0x1FD7, [0x399; 0x308; 0x342]);
   (0x1FE2, [0x3A5; 0x308; 0x300]); (0x1FE3, [0x3A5; 0x308; 0x301]);
   (0x1FE4, [0x3A1; 0x313]); (0x1FE6, [0x3A5; 0x342]);
   (0x1FE7, [0x3A5; 0x308; 0x342]); (0x1FF2, [0x1FFA; 0x399]);
   (0x1FF3, [0x3A9; 0x399]); (0x1FF4, [0x38F; 0x399]);
   (0x1FF6, [0x3A9; 0x342]); (0x1FF7, [0x3A9; 0x342; 0x399]);
   (0x1FFC, [0x3A9; 0x399]); (0xFB00, [0x46; 0x46]); (0xFB01, [0x46; 0x49]);
   (0xFB02, [0x46; 0x4C]); (0xFB03, [0x46; 0x46; 0x49]);
   (0xFB04, [0x46; 0x46; 0x4C]); (0xFB05, [0x53; 0x54]);
   (0xFB06, [0x53; 0x54]); (0xFB13, [0x544; 0x546]);
   (0xFB14, [0x544; 0x535]); (0xFB15, [0x544; 0x53B]);
   (0xFB16, [0x54E; 0x546]); (0xFB17, [0x544; 0x53D])
  ].

Fixpoint upper_run (runs : list (N * N * N * N)) (c : N) : option N :=
  match runs with
  | [] => None
  | (first, last, step, target) :: rest =>
    if (first <=? c) && (c <=? last) && ((c - first) mod step =? 0)
    then Some (target + (c - first))
    else upper_run rest c
  end.

Fixpoint upper_long (table : list (N * list N)) (c : N) : option (list N) :=
  match table with
  | [] => None
  | (c', u) :: rest => if c' =? c then Some u else upper_long rest c
  end.

Definition upper_char (c : N) : pystr :=
  match upper_long upper_special c with
  | Some u => u
  | None =>
    match upper_run upper_runs c with
    | Some u => [u]
    | None => [c]
    end
  end.

Definition upper (s : pystr) : pystr := flat_map upper_char s.

(** [sep.join(l)] *)
Fixpoint join (sep : pystr) (l : list pystr) : pystr :=
  match l with
  | [] => []
  | [x] => x
  | x :: r => x ++ sep ++ join sep r
  end.

Definition quote : pystr := [0x22].
Definition nl : pystr := [0x0A].

(** Decimal digits of a non-negative int, least significant first. *)
Fixpoint digits_rev (fuel : nat) (n : N) : list N :=
  match fuel with
  | O => []
  | S f => if n <? 10 then [0x30 + n]
           else (0x30 + n mod 10) :: digits_rev f (n / 10)
  end.

(** [str(n)] for [n >= 0]. *)
Definition of_N (n : N) : pystr := rev (digits_rev (S (N.to_nat (N.log2 n))) n).

(** Insert [,] after every third digit of a reversed digit string. *)
Fixpoint group3 (ds : list N) : list N :=
  match ds with
  | a :: b :: c :: ((_ :: _) as r) => a :: b :: c :: 0x2C :: group3 r
  | _ => ds
  end.

(** [f"{n:,}"] for [n >= 0]. *)
Definition of_N_grouped (n : N) : pystr :=
  rev (group3 (digits_rev (S (N.to_nat (N.log2 n))) n)).

End Str.
Import Str.

(** ** Python floats *)

Module Float64.

(** A [float] is an IEEE 754 binary64 value. *)
Definition float := spec_float.
Definition prec : Z := 53.
Definition emax : Z := 1024.

(** Conversion of an int operand of [int * float].  [None] is the
    OverflowError Python raises for an int beyond the float range. *)
Definition of_int (n : N) : option float :=
  match binary_normalize prec emax (Z.of_N n) 0 false with
  | S754_infinity _ => None
  | f => Some f
  end.

Definition mul (x y : float) : float := SFmul prec emax x y.

(** The literal [0.00001]: the double nearest to 10^-5. *)
Definition rate_literal : float :=
  SFdiv prec emax (binary_normalize prec emax 1 0 false)
                  (binary_normalize prec emax 100000 0 false).

(** [int(round-half-even(m * 2^e * 10^4))] for a positive mantissa. *)
Definition scaled4 (m : positive) (e : Z) : N :=
  let num := (Z.pos m * 10000)%Z in
  match e with
  | Z0 => Z.to_N num
  | Zpos p => Z.to_N (num * Z.pow 2 (Zpos p))
  | Zneg p =>
    let den := Z.pow 2 (Zpos p) in
    let q := (num / den)%Z in
    let r := (num mod den)%Z in
    Z.to_N (match (2 * r ?= den)%Z with
            | Lt => q
            | Gt => q + 1
            | Eq => if Z.even q then q else q + 1
            end)%Z
  end.

(** Four decimals of fraction, zero-padded. *)
Definition frac4 (k : N) : pystr :=
  [0x30 + k / 1000; 0x30 + (k / 100) mod 10;
   0x30 + (k / 10) mod 10; 0x30 + k mod 10].

(** [f"{x:.4f}"]: the exact value of the double, correctly rounded to
    four decimals. *)
Definition format_4f (x : float) : pystr :=
  match x with
  | S754_zero s => (if s then py "-" else []) ++ py "0.0000"
  | S754_infinity s => (if s then py "-" else []) ++ py "inf"
  | S754_nan => py "nan"
  | S754_finite s m e =>
    let k := scaled4 m e in
    (if s then py "-" else [])
      ++ Str.of_N (k / 10000) ++ py "." ++ frac4 (k mod 10000)
  end.

End Float64.

(** ** Data model *)

(** A Python [dict] with [str] keys: the items in insertion order. *)
Definition dict (V : Type) := list (pystr * V).

Definition keys {V} (d : dict V) : list pystr := map fst d.

(** [d[k] = v]: an existing key keeps its place, a new one goes last. *)
Fixpoint dict_set {V} (d : dict V) (k : pystr) (v : V) : dict V :=
  match d with
  | [] => [(k, v)]
  | (k', v') :: r =>
    if Str.eqb k' k then (k', v) :: r else (k', v') :: dict_set r k v
  end.

(** [d.get(k)] *)
Fixpoint dict_get {V} (d : dict V) (k : pystr) : option V :=
  match d with
  | [] => None
  | (k', v') :: r => if Str.eqb k' k then Some v' else dict_get r k
  end.

(** A Translation Entry: the tuple
    [(key, value, translated, lang_tokens)]. *)
Definition entry : Type := pystr * pystr * pystr * N.

Definition entry_key (e : entry) : pystr := let '(k, _, _, _) := e in k.
Definition entry_tokens (e : entry) : N := let '(_, _, _, n) := e in n.

(** [d.setdefault(k, []).append(x)] *)
Fixpoint setdefault_append {A} (d : dict (list A)) (k : pystr) (x : A)
  : dict (list A) :=
  match d with
  | [] => [(k, [x])]
  | (k', xs) :: r =>
    if Str.eqb k' k then (k', xs ++ [x]) :: r
    else (k', xs) :: setdefault_append r k x
  end.

(** The entry sequence of a language ([[]] when the language is absent). *)
Definition entries_of (log : dict (list entry)) (lang : pystr) : list entry :=
  match dict_get log lang with Some es => es | None => [] end.

(** A CSV file as the sequence of rows given to [writer.writerow]. *)
Definition csv := list (list pystr).

(** Exceptions: the class name and what [str(e)] returns. *)
Record exn := Exception { exn_class : string; exn_str : pystr }.

Inductive result (A : Type) :=
| Ok (a : A)
| Raise (e : exn).
Arguments Ok {A} a.
Arguments Raise {A} e.

(** *** The remote services *)

(** What the script reads of a chat completion:
    [choices[0].message.content] and [usage.total_tokens]. *)
Record ChatCompletion := {
  message_content : pystr;
  usage_total_tokens : N
}.

Record Branch := { commit_sha : pystr }.
Record ContentFile := { decoded_content : list N; sha : pystr }.
Record InputGitAuthor := { author_name : pystr; author_email : pystr }.

(** The message handed to [sendmail]: headers, HTML body, attachment. *)
Record Attachment := { filename : pystr; payload : csv }.
Record Message := {
  msg_subject : pystr;
  msg_from : pystr;
  msg_to : pystr;
  msg_html : pystr;
  msg_attachments : list Attachment
}.

(** One constructor per remote operation, indexed by its answer. *)
Inductive request : Type -> Type :=
| ChatCompletionsCreate (model content : pystr) (temperature : Q)
    : request ChatCompletion
| GetRepo (token full_name : pystr) : request unit
| GetBranch (branch : pystr) : request Branch
| CreateGitRef (ref sha : pystr) : request unit
| GetContents (path ref : pystr) : request ContentFile
| CreateFile (path message content branch : pystr) (author : InputGitAuthor)
    : request unit
| UpdateFile (path message content sha branch : pystr)
    (author : InputGitAuthor) : request unit
| GetPullsTotalCount (state head base : pystr) : request N
| CreatePull (title body head base : pystr) : request unit
| SmtpConnect (host : pystr) (port : Z) : request unit
| SmtpStarttls : request unit
| SmtpLogin (user password : pystr) : request unit
| SmtpSendmail (from_addr : pystr) (to_addrs : list pystr) (msg : Message)
    : request unit
| SmtpQuit : request unit.

(** Everything the process does that is visible from outside, in order. *)
Inductive event :=
| Called {A : Type} (r : request A) (o : result A)
| Printed (line : pystr)
| FileOpened (path mode : pystr)
| FileClosed (path : pystr) (content : option csv).

(** ** Configuration (the environment variables) *)

Record Config := {
  GITHUB_TOKEN : pystr;
  GITHUB_REPO : pystr;
  OPENAI_MODEL : option pystr;
  EMAIL_FROM : pystr;
  EMAIL_TO : pystr;
  EMAIL_PASSWORD : pystr;
  SMTP_SERVER : option pystr;
  SMTP_PORT : Z;
  TRANSLATE_LANGS : option pystr
}.

(** [os.getenv(name, default)] *)
Definition getenv (v : option pystr) (default : pystr) : pystr :=
  match v with Some s => s | None => default end.

Definition SOURCE_LANG : pystr := py "English".
Definition LOCALE_PATH : pystr := py "locales/en.json".
Definition BRANCH_NAME : pystr := py "translations-auto".
Definition CSV_LOG_FILE : pystr := py "translation_report.csv".

(** ** [json.dumps(d, ensure_ascii=False, indent=2)] for a str-to-str dict *)

Module Json.

Definition hex_digit (n : N) : N := if n <? 10 then 0x30 + n else 0x57 + n.

(** One character inside a JSON string: quote, backslash and the
    control characters are escaped, everything else is kept. *)
Definition escape_char (c : N) : pystr :=
  if c =? 0x22 then py "\" ++ quote
  else if c =? 0x5C then py "\\"
  else if c =? 0x08 then py "\b"
  else if c =? 0x0C then py "\f"
  else if c =? 0x0A then py "\n"
  else if c =? 0x0D then py "\r"
  else if c =? 0x09 then py "\t"
  else if c <? 0x20 then py "\u00" ++ [hex_digit (c / 16); hex_digit (c mod 16)]
  else [c].

Definition encode_str (s : pystr) : pystr :=
  quote ++ flat_map escape_char s ++ quote.

Definition item (kv : pystr * pystr) : pystr :=
  py "  " ++ encode_str (fst kv) ++ py ": " ++ encode_str (snd kv).

Definition dumps (d : dict pystr) : pystr :=
  match d with
  | [] => py "{}"
  | _ => py "{" ++ nl ++ join (py "," ++ nl) (map item d) ++ nl ++ py "}"
  end.

End Json.

(** ** The program *)

Module Script.

Section Program.

(** The remote services: a state and a handler.  Every call may raise. *)
Variable X : Type.
Variable serve : forall A : Type, request A -> X -> result A * X.

(** [json.loads] on the text of the catalog file: a str-to-str dict, or
    the exception raised. *)
Variable json_loads : pystr -> result (dict pystr).

Variable cfg : Config.

Record World := mkWorld {
  translation_log : dict (list entry);
  total_tokens_used : N;
  disk : dict csv;
  remote : X;
  trace : list event
}.

Definition set_translation_log (v : dict (list entry)) (w : World) : World :=
  mkWorld v (total_tokens_used w) (disk w) (remote w) (trace w).
Definition set_total_tokens_used (v : N) (w : World) : World :=
  mkWorld (translation_log w) v (disk w) (remote w) (trace w).
Definition set_disk (v : dict csv) (w : World) : World :=
  mkWorld (translation_log w) (total_tokens_used w) v (remote w) (trace w).
Definition set_remote (v : X) (w : World) : World :=
  mkWorld (translation_log w) (total_tokens_used w) (disk w) v (trace w).
Definition log_event (ev : event) (w : World) : World :=
  mkWorld (translation_log w) (total_tokens_used w) (disk w) (remote w)
          (trace w ++ [ev]).

(** The world at process start: [translation_log = {}],
    [total_tokens_used = 0], nothing done yet. *)
Definition initial_world (files : dict csv) (x : X) : World :=
  mkWorld [] 0 files x [].

(** *** Statements *)

Definition M (A : Type) : Type := World -> result A * World.

Definition ret {A} (a : A) : M A := fun w => (Ok a, w).

Definition bind {A B} (m : M A) (k : A -> M B) : M B :=
  fun w => match m w with
           | (Ok a, w') => k a w'
           | (Raise e, w') => (Raise e, w')
           end.

Definition raise {A} (e : exn) : M A := fun w => (Raise e, w).

(** [try: m  except: h] (the handler sees the exception). *)
Definition try_except {A} (m : M A) (h : exn -> M A) : M A :=
  fun w => match m w with
           | (Ok a, w') => (Ok a, w')
           | (Raise e, w') => h e w'
           end.

(** [with enter as x: body], where leaving the block runs [leave]; an
    exception of [leave] replaces the outcome of the body. *)
Definition with_ {A B} (enter : M A) (leave : M unit) (body : A -> M B) : M B :=
  fun w => match enter w with
           | (Raise e, w') => (Raise e, w')
           | (Ok a, w') =>
             match body a w' with
             | (o, w'') =>
               match leave w'' with
               | (Ok _, w''') => (o, w''')
               | (Raise e, w''') => (Raise e, w''')
               end
             end
           end.

Definition of_result {A} (r : result A) : M A := fun w => (r, w).

Definition read {A} (f : World -> A) : M A := fun w => (Ok (f w), w).
Definition update (f : World -> World) : M unit := fun w => (Ok tt, f w).

(** A call to a remote service. *)
Definition call {A} (r : request A) : M A :=
  fun w => let (o, x') := serve r (remote w) in
           (o, log_event (Called r o) (set_remote x' w)).

(** [print(a, b, ...)]: the arguments separated by one space. *)
Definition print (args : list pystr) : M unit :=
  update (log_event (Printed (join (py " ") args))).

Notation "x <- m ;; k" := (bind m (fun x => k))
  (at level 61, m at next level, right associativity).
Notation "m ;; k" := (bind m (fun _ => k))
  (at level 61, right associativity).

(** *** The functions of the script *)

Definition model : pystr := getenv (OPENAI_MODEL cfg) (py "gpt-4").
Definition TARGET_LANGS : list pystr :=
  split_on 0x2C (getenv (TRANSLATE_LANGS cfg) (py "es,fr,ja")).

Definition build_prompt (text target_lang : pystr) : pystr :=
  nl ++ py "Translate the following UI string from English to "
     ++ target_lang ++ py "." ++ nl
     ++ py "Keep it concise, clear, and maintain a friendly and modern tone."
     ++ nl ++ nl
     ++ quote ++ text ++ quote ++ nl ++ nl
     ++ py "Only return the translated text, no commentary." ++ nl.

Definition translate_text (text target_lang : pystr) : M pystr :=
  response <- call (ChatCompletionsCreate model
                      (build_prompt text target_lang) (3 # 10)) ;;
  update (fun w => set_total_tokens_used
                     (total_tokens_used w + usage_total_tokens response) w) ;;
  ret (strip (message_content response)).

(** The body of [for key, value in source_dict.items()], with the
    locals [translations] and [lang_tokens] passed along. *)
Fixpoint translate_items (items : list (pystr * pystr)) (target_lang : pystr)
    (translations : dict pystr) (lang_tokens : N) : M (dict pystr) :=
  match items with
  | [] => ret translations
  | (key, value) :: rest =>
    translated <- translate_text value target_lang ;;
    let translations := dict_set translations key translated in
    let lang_tokens := lang_tokens + (len (split value) + len (split translated)) in
    update (fun w => set_translation_log
              (setdefault_append (translation_log w) target_lang
                 (key, value, translated, lang_tokens)) w) ;;
    translate_items rest target_lang translations lang_tokens
  end.

Definition translate_locale (source_dict : dict pystr) (target_lang : pystr)
  : M (dict pystr) :=
  translate_items source_dict target_lang [] 0.

(** [with open(path, mode='w') as file]: the file is created or
    truncated; closing it records what is then on disk. *)
Definition open_w (path : pystr) : M unit :=
  update (fun w => log_event (FileOpened path (py "w"))
                     (set_disk (dict_set (disk w) path []) w)).

Definition close (path : pystr) : M unit :=
  update (fun w => log_event (FileClosed path (dict_get (disk w) path)) w).

Definition writerow (path : pystr) (row : list pystr) : M unit :=
  update (fun w => set_disk (setdefault_append (disk w) path row) w).

Fixpoint write_entries (lang : pystr) (entries : list entry) : M unit :=
  match entries with
  | [] => ret tt
  | (key, original, translated, _) :: rest =>
    writerow CSV_LOG_FILE [lang; key; original; translated] ;;
    write_entries lang rest
  end.

Fixpoint write_languages (items : dict (list entry)) : M unit :=
  match items with
  | [] => ret tt
  | (lang, entries) :: rest =>
    write_entries lang entries ;; write_languages rest
  end.

Definition write_csv_log : M unit :=
  with_ (open_w CSV_LOG_FILE) (close CSV_LOG_FILE) (fun _ =>
    writerow CSV_LOG_FILE
      [py "Language"; py "Key"; py "Original Text"; py "Translated Text"] ;;
    log <- read translation_log ;;
    write_languages log).

(** [n * 0.00001]: the int is converted to a float first. *)
Definition times_rate (n : N) : M Float64.float :=
  match Float64.of_int n with
  | Some f => ret (Float64.mul f Float64.rate_literal)
  | None => raise (Exception "OverflowError"
                     (py "int too large to convert to float"))
  end.

Definition report_title : pystr := py "🌐 RingStone TMS MVP Translation Report".

Definition html_head (total_tokens : N) (total_cost_usd : Float64.float) : pystr :=
  nl ++ py "    <html><body style='font-family:Arial, sans-serif;'>" ++ nl
     ++ py "    <h2 style='color:#2c3e50;'>" ++ report_title ++ py "</h2>" ++ nl
     ++ py "    <p style='font-size:14px;'>Model used: <b>" ++ model
     ++ py "</b><br>" ++ nl
     ++ py "    Total tokens used: <b>" ++ of_N_grouped total_tokens
     ++ py "</b><br>" ++ nl
     ++ py "    Estimated cost: <b>$" ++ Float64.format_4f total_cost_usd
     ++ py " USD</b></p>" ++ nl
     ++ py "    <hr>" ++ nl
     ++ py "    ".

(** [entries[-1][3] if entries else 0] *)
Definition lang_total_tokens (entries : list entry) : N :=
  match rev entries with
  | e :: _ => entry_tokens e
  | [] => 0
  end.

Definition html_lang_header (lang : pystr) (tokens : N) (lang_cost : Float64.float)
  : pystr :=
  py "<h3 style='color:#1a73e8;'>" ++ upper lang ++ py " (≈ "
     ++ of_N_grouped tokens ++ py " tokens | $"
     ++ Float64.format_4f lang_cost ++ py ")</h3>".

Definition html_row (e : entry) : pystr :=
  let '(key, original, translated, _) := e in
  py "<tr><td>" ++ key ++ py "</td><td>" ++ original ++ py "</td><td>"
     ++ translated ++ py "</td></tr>".

Fixpoint html_rows (entries : list entry) (html : pystr) : pystr :=
  match entries with
  | [] => html
  | e :: rest => html_rows rest (html ++ html_row e)
  end.

(** The body of [for lang, entries in translation_log.items()] in
    [send_translation_email], with the local [html] passed along. *)
Fixpoint html_languages (items : dict (list entry)) (html : pystr) : M pystr :=
  match items with
  | [] => ret html
  | (lang, entries) :: rest =>
    let tokens := lang_total_tokens entries in
    lang_cost <- times_rate tokens ;;
    let html := html ++ html_lang_header lang tokens lang_cost in
    let html := html ++ py "<table border='1' cellspacing='0' cellpadding='6' style='border-collapse:collapse; font-size:13px;'>" in
    let html := html ++ py "<tr style='background:#f2f2f2;'><th>Key</th><th>Original</th><th>Translated</th></tr>" in
    let html := html_rows entries html in
    let html := html ++ py "</table><br>" in
    html_languages rest html
  end.

(** [with open(path, "rb") as f: ... f.read()] *)
Definition read_file (path : pystr) : M csv :=
  update (log_event (FileOpened path (py "rb"))) ;;
  files <- read disk ;;
  match dict_get files path with
  | Some content => close path ;; ret content
  | None => raise (Exception "FileNotFoundError" path)
  end.

Definition smtp_server : pystr := getenv (SMTP_SERVER cfg) (py "smtp.gmail.com").

(** The [try: with smtplib.SMTP(...) as server: ... except Exception]
    block that ends [send_translation_email].  Leaving the [with] block
    sends QUIT. *)
Definition deliver (msg : Message) : M unit :=
  try_except
    (with_ (call (SmtpConnect smtp_server (SMTP_PORT cfg))) (call SmtpQuit)
       (fun _ =>
          call SmtpStarttls ;;
          call (SmtpLogin (EMAIL_FROM cfg) (EMAIL_PASSWORD cfg)) ;;
          call (SmtpSendmail (EMAIL_FROM cfg)
                  (split_on 0x2C (EMAIL_TO cfg)) msg) ;;
          print [py "✅ Email sent to:"; EMAIL_TO cfg]))
    (fun e => print [py "❌ Email failed:"; exn_str e]).

Definition send_translation_email : M unit :=
  total <- read total_tokens_used ;;
  total_cost_usd <- times_rate total ;;
  let html := html_head total total_cost_usd in
  log <- read translation_log ;;
  html <- html_languages log html ;;
  let html := html ++ py "</body></html>" in
  write_csv_log ;;
  content <- read_file CSV_LOG_FILE ;;
  let msg := {| msg_subject := report_title;
                msg_from := EMAIL_FROM cfg;
                msg_to := EMAIL_TO cfg;
                msg_html := html;
                msg_attachments :=
                  [ {| filename := CSV_LOG_FILE; payload := content |} ] |} in
  deliver msg.

Definition clinton : InputGitAuthor :=
  {| author_name := py "Clinton"; author_email := py "clinton@ringstone.ai" |}.

(** [contents.decoded_content.decode()] *)
Definition decode (bs : list N) : M pystr :=
  match utf8_decode bs with
  | Some s => ret s
  | None => raise (Exception "UnicodeDecodeError"
                     (py "'utf-8' codec can't decode bytes"))
  end.

(** The [try: repo.create_file(...) except: repo.update_file(...)]
    block of the loop over the languages. *)
Definition create_or_update (lang new_file_path json_blob : pystr) : M unit :=
  try_except
    (call (CreateFile new_file_path (py "Add " ++ lang ++ py " translation")
             json_blob BRANCH_NAME clinton))
    (fun _ =>
       current <- call (GetContents new_file_path BRANCH_NAME) ;;
       call (UpdateFile new_file_path
               (py "Update " ++ lang ++ py " translation")
               json_blob (sha current) BRANCH_NAME clinton)).

(** The body of [for lang in TARGET_LANGS]. *)
Definition publish_language (source_data : dict pystr) (lang : pystr) : M unit :=
  print [py "Translating to " ++ lang ++ py "..."] ;;
  translated <- translate_locale source_data lang ;;
  let new_file_path := py "locales/" ++ lang ++ py ".json" in
  let json_blob := Json.dumps translated in
  create_or_update lang new_file_path json_blob.

Fixpoint publish_languages (source_data : dict pystr) (langs : list pystr)
  : M unit :=
  match langs with
  | [] => ret tt
  | lang :: rest =>
    publish_language source_data lang ;; publish_languages source_data rest
  end.

Definition pr_title : pystr := py "Automated translations via RingStone MVP Demo".
Definition pr_body : pystr :=
  py "This PR was auto-generated using LLM-based translation.".
Definition pr_head_filter : pystr := py "ClintUK:" ++ BRANCH_NAME.

Definition ensure_pull_request : M unit :=
  existing_prs <- call (GetPullsTotalCount (py "open") pr_head_filter (py "main")) ;;
  if existing_prs =? 0
  then call (CreatePull pr_title pr_body BRANCH_NAME (py "main"))
  else print [py "⚠️ PR already exists. Skipping PR creation."].

(** The [try: repo.create_git_ref(...) except: print(...)] block. *)
Definition ensure_branch (main : Branch) : M unit :=
  try_except
    (call (CreateGitRef (py "refs/heads/" ++ BRANCH_NAME) (commit_sha main)))
    (fun _ => print [py "Branch " ++ BRANCH_NAME ++ py " already exists"]).

Definition push_translations : M unit :=
  call (GetRepo (GITHUB_TOKEN cfg) (GITHUB_REPO cfg)) ;;
  main <- call (GetBranch (py "main")) ;;
  ensure_branch main ;;
  contents <- call (GetContents LOCALE_PATH (py "main")) ;;
  text <- decode (decoded_content contents) ;;
  source_data <- of_result (json_loads text) ;;
  publish_languages source_data TARGET_LANGS ;;
  ensure_pull_request ;;
  send_translation_email.

End Program.

Arguments mkWorld {X}.
Arguments ret {X A}.
Arguments raise {X A}.
Arguments of_result {X A}.
Arguments initial_world {X}.

End Script.
Import Script.

(** ** A simulated set of services

    One concrete behaviour of the remote side, used to run the script:
    a GitHub repository with branches, files and pull requests, a
    completion API that replays scripted answers, an SMTP server that
    stores what it is sent, and faults that can be injected per
    operation. *)

Module Sim.

Inductive op :=
| OpChat | OpGetRepo | OpGetBranch | OpCreateGitRef | OpGetContents
| OpCreateFile | OpUpdateFile | OpGetPulls | OpCreatePull
| OpSmtpConnect | OpSmtpStarttls | OpSmtpLogin | OpSmtpSendmail | OpSmtpQuit.

Definition op_eqb (a b : op) : bool :=
  match a, b with
  | OpChat, OpChat | OpGetRepo, OpGetRepo | OpGetBranch, OpGetBranch
  | OpCreateGitRef, OpCreateGitRef | OpGetContents, OpGetContents
  | OpCreateFile, OpCreateFile | OpUpdateFile, OpUpdateFile
  | OpGetPulls, OpGetPulls | OpCreatePull, OpCreatePull
  | OpSmtpConnect, OpSmtpConnect | OpSmtpStarttls, OpSmtpStarttls
  | OpSmtpLogin, OpSmtpLogin | OpSmtpSendmail, OpSmtpSendmail
  | OpSmtpQuit, OpSmtpQuit => true
  | _, _ => false
  end.

Definition op_of {A} (r : request A) : op :=
  match r with
  | ChatCompletionsCreate _ _ _ => OpChat
  | GetRepo _ _ => OpGetRepo
  | GetBranch _ => OpGetBranch
  | CreateGitRef _ _ => OpCreateGitRef
  | GetContents _ _ => OpGetContents
  | CreateFile _ _ _ _ _ => OpCreateFile
  | UpdateFile _ _ _ _ _ _ => OpUpdateFile
  | GetPullsTotalCount _ _ _ => OpGetPulls
  | CreatePull _ _ _ _ => OpCreatePull
  | SmtpConnect _ _ => OpSmtpConnect
  | SmtpStarttls => OpSmtpStarttls
  | SmtpLogin _ _ => OpSmtpLogin
  | SmtpSendmail _ _ _ => OpSmtpSendmail
  | SmtpQuit => OpSmtpQuit
  end.

Record RepoFile := {
  file_branch : pystr;
  file_path : pystr;
  file_text : pystr;
  file_sha : pystr
}.

Record Pull := {
  pull_title : pystr;
  pull_body : pystr;
  pull_head : pystr;   (* the label [owner:branch] *)
  pull_base : pystr;
  pull_open : bool
}.

Record State := {
  answers : list (result ChatCompletion);
  owner : pystr;
  branches : dict pystr;
  files : list RepoFile;
  pulls : list Pull;
  next_sha : N;
  outbox : list Message;
  faults : list (op * exn)
}.

Definition fault_of (o : op) (s : State) : option exn :=
  match find (fun f => op_eqb (fst f) o) (faults s) with
  | Some f => Some (snd f)
  | None => None
  end.

Definition github_error (status : pystr) : exn :=
  Exception "GithubException" status.

Fixpoint utf8_encode (s : pystr) : list N :=
  match s with
  | [] => []
  | c :: r =>
    (if c <? 0x80 then [c]
     else if c <? 0x800 then [0xC0 + c / 64; 0x80 + c mod 64]
     else if c <? 0x10000
       then [0xE0 + c / 4096; 0x80 + (c / 64) mod 64; 0x80 + c mod 64]
     else [0xF0 + c / 262144; 0x80 + (c / 4096) mod 64;
           0x80 + (c / 64) mod 64; 0x80 + c mod 64])
    ++ utf8_encode r
  end.

Definition is_file (branch path : pystr) (f : RepoFile) : bool :=
  Str.eqb (file_branch f) branch && Str.eqb (file_path f) path.

Definition find_file (branch path : pystr) (s : State) : option RepoFile :=
  find (is_file branch path) (files s).

Definition fresh_sha (s : State) : pystr := py "sha" ++ Str.of_N (next_sha s).

Definition with_files (fs : list RepoFile) (s : State) : State :=
  {| answers := answers s; owner := owner s; branches := branches s;
     files := fs; pulls := pulls s; next_sha := next_sha s + 1;
     outbox := outbox s; faults := faults s |}.

(** A new branch starts with the files of the branch it is cut from. *)
Definition with_branch (name sha_ : pystr) (s : State) : State :=
  let from := map fst (filter (fun b => Str.eqb (snd b) sha_) (branches s)) in
  let copied :=
    flat_map (fun f =>
      if existsb (Str.eqb (file_branch f)) from
      then [ {| file_branch := name; file_path := file_path f;
                file_text := file_text f; file_sha := file_sha f |} ]
      else []) (files s) in
  {| answers := answers s; owner := owner s;
     branches := dict_set (branches s) name sha_;
     files := files s ++ copied; pulls := pulls s; next_sha := next_sha s;
     outbox := outbox s; faults := faults s |}.

Definition with_pull (p : Pull) (s : State) : State :=
  {| answers := answers s; owner := owner s; branches := branches s;
     files := files s; pulls := pulls s ++ [p]; next_sha := next_sha s;
     outbox := outbox s; faults := faults s |}.

Definition with_answers (a : list (result ChatCompletion)) (s : State) : State :=
  {| answers := a; owner := owner s; branches := branches s;
     files := files s; pulls := pulls s; next_sha := next_sha s;
     outbox := outbox s; faults := faults s |}.

Definition with_mail (m : Message) (s : State) : State :=
  {| answers := answers s; owner := owner s; branches := branches s;
     files := files s; pulls := pulls s; next_sha := next_sha s;
     outbox := outbox s ++ [m]; faults := faults s |}.

Definition matches_pull (state head base : pystr) (p : Pull) : bool :=
  (if Str.eqb state (py "open") then pull_open p else negb (pull_open p))
  && Str.eqb (pull_head p) head && Str.eqb (pull_base p) base.

Definition branch_of_ref (ref : pystr) : pystr :=
  skipn (List.length (py "refs/heads/")) ref.

(** What each operation does when no fault is injected for it. *)
Definition behave {A} (r : request A) : State -> result A * State :=
  match r in request T return State -> result T * State with
  | ChatCompletionsCreate _ _ _ => fun s =>
    match answers s with
    | a :: rest => (a, with_answers rest s)
    | [] => (Raise (Exception "APIConnectionError" (py "no answer")), s)
    end
  | GetRepo _ _ => fun s => (Ok tt, s)
  | GetBranch b => fun s =>
    match dict_get (branches s) b with
    | Some c => (Ok {| commit_sha := c |}, s)
    | None => (Raise (github_error (py "404")), s)
    end
  | CreateGitRef ref sha_ => fun s =>
    match dict_get (branches s) (branch_of_ref ref) with
    | Some _ => (Raise (github_error (py "422 Reference already exists")), s)
    | None => (Ok tt, with_branch (branch_of_ref ref) sha_ s)
    end
  | GetContents path ref => fun s =>
    match find_file ref path s with
    | Some f => (Ok {| decoded_content := utf8_encode (file_text f);
                       sha := file_sha f |}, s)
    | None => (Raise (github_error (py "404")), s)
    end
  | CreateFile path _ content branch _ => fun s =>
    match dict_get (branches s) branch, find_file branch path s with
    | None, _ => (Raise (github_error (py "404 Branch not found")), s)
    | Some _, Some _ => (Raise (github_error (py "422 sha was not supplied")), s)
    | Some _, None =>
      (Ok tt, with_files (files s ++ [ {| file_branch := branch;
                                          file_path := path;
                                          file_text := content;
                                          file_sha := fresh_sha s |} ]) s)
    end
  | UpdateFile path _ content sha_ branch _ => fun s =>
    match find_file branch path s with
    | Some f =>
      if Str.eqb (file_sha f) sha_
      then (Ok tt, with_files
                     (map (fun g => if is_file branch path g
                                    then {| file_branch := branch;
                                            file_path := path;
                                            file_text := content;
                                            file_sha := fresh_sha s |}
                                    else g) (files s)) s)
      else (Raise (github_error (py "409 sha does not match")), s)
    | None => (Raise (github_error (py "404")), s)
    end
  | GetPullsTotalCount state head base => fun s =>
    (Ok (len (filter (matches_pull state head base) (pulls s))), s)
  | CreatePull title body head base => fun s =>
    let label := owner s ++ py ":" ++ head in
    if existsb (matches_pull (py "open") label base) (pulls s)
    then (Raise (github_error (py "422 A pull request already exists")), s)
    else (Ok tt, with_pull {| pull_title := title; pull_body := body;
                              pull_head := label; pull_base := base;
                              pull_open := true |} s)
  | SmtpConnect _ _ => fun s => (Ok tt, s)
  | SmtpStarttls => fun s => (Ok tt, s)
  | SmtpLogin _ _ => fun s => (Ok tt, s)
  | SmtpSendmail _ _ msg => fun s => (Ok tt, with_mail msg s)
  | SmtpQuit => fun s => (Ok tt, s)
  end.

Definition serve (A : Type) (r : request A) (s : State) : result A * State :=
  match fault_of (op_of r) s with
  | Some e => (Raise e, s)
  | None => behave r s
  end.

End Sim.

(** A reader for the JSON texts the simulated repository holds: one flat
    object whose keys and values are strings.  It stands for
    [json.loads] when the script is run on the simulated services. *)

Module JsonRead.

Inductive mode :=
| Start
| KeyOrClose
| Key
| InStr (is_key : bool) (acc : pystr)
| Esc (is_key : bool) (acc : pystr)
| Uni (is_key : bool) (acc : pystr) (todo : nat) (v : N)
| Colon
| Value
| CommaOrClose
| Done.

Definition ws (c : N) : bool :=
  (c =? 0x20) || (c =? 0x09) || (c =? 0x0A) || (c =? 0x0D).

Definition hex_value (c : N) : option N :=
  if (0x30 <=? c) && (c <=? 0x39) then Some (c - 0x30)
  else if (0x61 <=? c) && (c <=? 0x66) then Some (c - 0x57)
  else if (0x41 <=? c) && (c <=? 0x46) then Some (c - 0x37)
  else None.

Definition unescape (c : N) : option N :=
  if c =? 0x22 then Some 0x22
  else if c =? 0x5C then Some 0x5C
  else if c =? 0x2F then Some 0x2F
  else if c =? 0x62 then Some 0x08
  else if c =? 0x66 then Some 0x0C
  else if c =? 0x6E then Some 0x0A
  else if c =? 0x72 then Some 0x0D
  else if c =? 0x74 then Some 0x09
  else None.

Fixpoint run (m : mode) (key : pystr) (d : dict pystr) (s : pystr)
  : option (dict pystr) :=
  match s with
  | [] => match m with Done => Some d | _ => None end
  | c :: r =>
    match m with
    | Start =>
      if ws c then run Start key d r
      else if c =? 0x7B then run KeyOrClose key d r else None
    | KeyOrClose =>
      if ws c then run KeyOrClose key d r
      else if c =? 0x22 then run (InStr true []) key d r
      else if c =? 0x7D then run Done key d r else None
    | Key =>
      if ws c then run Key key d r
      else if c =? 0x22 then run (InStr true []) key d r else None
    | InStr k acc =>
      if c =? 0x22 then
        if k then run Colon (rev acc) d r
        else run CommaOrClose key (dict_set d key (rev acc)) r
      else if c =? 0x5C then run (Esc k acc) key d r
      else if c <? 0x20 then None
      else run (InStr k (c :: acc)) key d r
    | Esc k acc =>
      if c =? 0x75 then run (Uni k acc 4 0) key d r
      else match unescape c with
           | Some u => run (InStr k (u :: acc)) key d r
           | None => None
           end
    | Uni k acc todo v =>
      match hex_value c, todo with
      | Some h, S O => run (InStr k ((v * 16 + h) :: acc)) key d r
      | Some h, S n => run (Uni k acc n (v * 16 + h)) key d r
      | _, _ => None
      end
    | Colon =>
      if ws c then run Colon key d r
      else if c =? 0x3A then run Value key d r else None
    | Value =>
      if ws c then run Value key d r
      else if c =? 0x22 then run (InStr false []) key d r else None
    | CommaOrClose =>
      if ws c then run CommaOrClose key d r
      else if c =? 0x2C then run Key key d r
      else if c =? 0x7D then run Done key d r else None
    | Done => if ws c then run Done key d r else None
    end
  end.

Definition loads (text : pystr) : result (dict pystr) :=
  match run Start [] [] text with
  | Some d => Ok d
  | None => Raise (Exception "JSONDecodeError" (py "Expecting value"))
  end.

End JsonRead.

(** ** Scenarios on the simulated services *)

Module Scenario.

Definition cfg : Config :=
  {| GITHUB_TOKEN := py "ghp_token";
     GITHUB_REPO := py "ClintUK/ringstone-locale-test";
     OPENAI_MODEL := None;
     EMAIL_FROM := py "bot@ringstone.ai";
     EMAIL_TO := py "ops@ringstone.ai,qa@ringstone.ai";
     EMAIL_PASSWORD := py "secret";
     SMTP_SERVER := None;
     SMTP_PORT := 587;
     TRANSLATE_LANGS := Some (py "es,fr") |}.

(** The same configuration with a language listed twice. *)
Definition cfg_twice : Config :=
  {| GITHUB_TOKEN := py "ghp_token";
     GITHUB_REPO := py "ClintUK/ringstone-locale-test";
     OPENAI_MODEL := None;
     EMAIL_FROM := py "bot@ringstone.ai";
     EMAIL_TO := py "ops@ringstone.ai,qa@ringstone.ai";
     EMAIL_PASSWORD := py "secret";
     SMTP_SERVER := None;
     SMTP_PORT := 587;
     TRANSLATE_LANGS := Some (py "es,es") |}.

Definition catalog : dict pystr :=
  [(py "greeting", py "Hello"); (py "farewell", py "See you soon")].

Definition answer (text : pystr) (tokens : N) : result ChatCompletion :=
  Ok {| message_content := text; usage_total_tokens := tokens |}.

Definition answers_es : list (result ChatCompletion) :=
  [answer (py " Hola ") 41; answer (py "Hasta pronto") 47].
Definition answers_fr : list (result ChatCompletion) :=
  [answer (py "Bonjour") 40; answer (py "À bientôt") 52].

(** A repository with only [main] and the English catalog. *)
Definition fresh_repo : Sim.State :=
  {| Sim.answers := answers_es ++ answers_fr;
     Sim.owner := py "ClintUK";
     Sim.branches := [(py "main", py "c0ffee")];
     Sim.files := [ {| Sim.file_branch := py "main";
                       Sim.file_path := LOCALE_PATH;
                       Sim.file_text := Json.dumps catalog;
                       Sim.file_sha := py "sha0" |} ];
     Sim.pulls := [];
     Sim.next_sha := 1;
     Sim.outbox := [];
     Sim.faults := [] |}.

Definition with_faults (f : list (Sim.op * exn)) (s : Sim.State) : Sim.State :=
  {| Sim.answers := Sim.answers s; Sim.owner := Sim.owner s;
     Sim.branches := Sim.branches s; Sim.files := Sim.files s;
     Sim.pulls := Sim.pulls s; Sim.next_sha := Sim.next_sha s;
     Sim.outbox := Sim.outbox s; Sim.faults := f |}.

Definition run (c : Config) (s : Sim.State) :=
  push_translations Sim.serve JsonRead.loads c (initial_world [] s).

(** The repository as a first run leaves it, with new scripted answers:
    the working branch, both output files and the pull request exist. *)
Definition published_repo : Sim.State :=
  Eval vm_compute in
  Sim.with_answers (answers_es ++ answers_fr) (remote (snd (run cfg fresh_repo))).

Definition forbidden : exn :=
  Exception "GithubException" (py "403 Resource not accessible by integration").
Definition unavailable : exn :=
  Exception "GithubException" (py "503 Service Unavailable").
Definition auth_error : exn :=
  Exception "SMTPAuthenticationError"
    (py "(535, b'5.7.8 Username and Password not accepted')").

(** The published repository, with a token that may neither create nor
    update files. *)
Definition read_only_repo : Sim.State :=
  with_faults [(Sim.OpCreateFile, forbidden); (Sim.OpUpdateFile, forbidden)]
    published_repo.

(** Creating a reference fails although the branch does not exist. *)
Definition no_refs_repo : Sim.State :=
  with_faults [(Sim.OpCreateGitRef, unavailable)] fresh_repo.

(** The mail server rejects the password. *)
Definition bad_password_repo : Sim.State :=
  with_faults [(Sim.OpSmtpLogin, auth_error)] fresh_repo.

(** The same configuration for the repository of another owner. *)
Definition cfg_acme : Config :=
  {| GITHUB_TOKEN := py "ghp_token";
     GITHUB_REPO := py "AcmeCorp/ringstone-locale-test";
     OPENAI_MODEL := None;
     EMAIL_FROM := py "bot@ringstone.ai";
     EMAIL_TO := py "ops@ringstone.ai,qa@ringstone.ai";
     EMAIL_PASSWORD := py "secret";
     SMTP_SERVER := None;
     SMTP_PORT := 587;
     TRANSLATE_LANGS := Some (py "es,fr") |}.

(** That owner's repository, with only [main] and the English catalog. *)
Definition acme_repo : Sim.State :=
  {| Sim.answers := answers_es ++ answers_fr;
     Sim.owner := py "AcmeCorp";
     Sim.branches := [(py "main", py "c0ffee")];
     Sim.files := [ {| Sim.file_branch := py "main";
                       Sim.file_path := LOCALE_PATH;
                       Sim.file_text := Json.dumps catalog;
                       Sim.file_sha := py "sha0" |} ];
     Sim.pulls := [];
     Sim.next_sha := 1;
     Sim.outbox := [];
     Sim.faults := [] |}.

(** It as a first run leaves it, with new scripted answers: the working
    branch, both output files and the pull request exist. *)
Definition published_acme_repo : Sim.State :=
  Eval vm_compute in
  Sim.with_answers (answers_es ++ answers_fr) (remote (snd (run cfg_acme acme_repo))).

Definition pull_exists : exn :=
  Exception "GithubException" (py "422 A pull request already exists").

(** A catalog whose only text is empty, and a completion API that
    answers with blank text. *)
Definition blank_catalog : dict pystr := [(py "divider", [])].

Definition blank_repo : Sim.State :=
  Sim.with_answers [answer (py "  ") 9; answer [] 9] fresh_repo.

(** A world in which Spanish has been translated. *)
Definition translated_world (s : Sim.State) : World Sim.State :=
  snd (translate_locale Sim.serve cfg catalog (py "es") (initial_world [] s)).

(** A readable outline of a trace: one line per event. *)
Definition show (s : pystr) : string :=
  string_of_list_ascii (map ascii_of_N (Sim.utf8_encode s)).

Definition outcome {A} (o : result A) : string :=
  match o with
  | Ok _ => "ok"
  | Raise e => "raised " ++ exn_class e ++ " " ++ show (exn_str e)
  end.

Definition outline_call {A} (r : request A) : string :=
  match r with
  | ChatCompletionsCreate _ _ _ => "chat.completions.create"
  | GetRepo _ name => "get_repo " ++ show name
  | GetBranch b => "get_branch " ++ show b
  | CreateGitRef ref _ => "create_git_ref " ++ show ref
  | GetContents path ref => "get_contents " ++ show path ++ " @" ++ show ref
  | CreateFile path _ _ branch _ => "create_file " ++ show path ++ " @" ++ show branch
  | UpdateFile path _ _ _ branch _ =>
    "update_file " ++ show path ++ " @" ++ show branch
  | GetPullsTotalCount _ head base => "get_pulls " ++ show head ++ " -> " ++ show base
  | CreatePull _ _ head base => "create_pull " ++ show head ++ " -> " ++ show base
  | SmtpConnect _ _ => "smtp connect"
  | SmtpStarttls => "smtp starttls"
  | SmtpLogin _ _ => "smtp login"
  | SmtpSendmail _ _ _ => "smtp sendmail"
  | SmtpQuit => "smtp quit"
  end%string.

Definition outline_event (ev : event) : string :=
  match ev with
  | Called r o => outline_call r ++ ": " ++ outcome o
  | Printed line => "print " ++ show line
  | FileOpened path mode => "open " ++ show path ++ " " ++ show mode
  | FileClosed path _ => "close " ++ show path
  end%string.

Definition outline (w : World Sim.State) : list string :=
  map outline_event (trace w).

End Scenario.

(** ** Vocabulary of the statements *)

(** The token cost a recorded event reports: [usage.total_tokens] of an
    answered completion call, nothing for anything else. *)
Definition reported_tokens (ev : event) : N :=
  match ev with
  | Called r o =>
    match r in request T return result T -> N with
    | ChatCompletionsCreate _ _ _ =>
      fun o => match o with Ok c => usage_total_tokens c | Raise _ => 0 end
    | _ => fun _ => 0
    end o
  | _ => 0
  end.

Fixpoint tokens_reported (tr : list event) : N :=
  match tr with
  | [] => 0
  | ev :: rest => reported_tokens ev + tokens_reported rest
  end.

(** The Usage Counter agrees with the calls made so far. *)
Definition counter_ok {X} (w : World X) : Prop :=
  total_tokens_used w = tokens_reported (trace w).

(** A statement [m] never breaks the relation [R] between the world it
    starts in and the world it leaves, whatever its outcome. *)
Definition respects {X A} (R : World X -> World X -> Prop) (m : M X A) : Prop :=
  forall w, R w (snd (m w)).

(** A statement leaves a component [f] of the world as it was. *)
Definition keeps {X A} (f : World X -> A) (w w' : World X) : Prop := f w' = f w.

(** The counter stays the sum of the reported costs and never decreases. *)
Definition counter_step {X} (w w' : World X) : Prop :=
  (counter_ok w -> counter_ok w') /\ total_tokens_used w <= total_tokens_used w'.

Definition is_chat {A} (r : request A) : bool :=
  match r with ChatCompletionsCreate _ _ _ => true | _ => false end.

(** Word count of a text: [len(text.split())]. *)
Definition word_count (s : pystr) : N := len (split s).

(** What one entry adds to the running total of its language. *)
Definition entry_words (e : entry) : N :=
  let '(_, original, translated, _) := e in
  word_count original + word_count translated.

Fixpoint sum_words (es : list entry) : N :=
  match es with
  | [] => 0
  | e :: rest => entry_words e + sum_words rest
  end.

(** The fourth components are running totals of the sequence itself. *)
Definition cumulative (es : list entry) : Prop :=
  forall i, (i < List.length es)%nat ->
    entry_tokens (nth i es ([], [], [], 0)) = sum_words (firstn (S i) es).

(** How often a key occurs in an entry sequence. *)
Definition occurrences (key : pystr) (es : list entry) : nat :=
  List.length (filter (fun e => Str.eqb (entry_key e) key) es).

Definition total_entries (log : dict (list entry)) : nat :=
  List.length (flat_map snd log).

(** The rows of the report as the specification describes them: the
    header, then one row per entry, language by language. *)
Definition csv_header : list pystr :=
  [py "Language"; py "Key"; py "Original Text"; py "Translated Text"].

Definition csv_row (lang : pystr) (e : entry) : list pystr :=
  let '(key, original, translated, _) := e in [lang; key; original; translated].

Definition csv_rows (log : dict (list entry)) : csv :=
  flat_map (fun le => map (csv_row (fst le)) (snd le)) log.

Definition report_rows (log : dict (list entry)) : csv :=
  csv_header :: csv_rows log.

(** The fourth components continue a running total that stood at [n]. *)
Fixpoint running (n : N) (es : list entry) : Prop :=
  match es with
  | [] => True
  | e :: rest => entry_tokens e = n + entry_words e /\ running (entry_tokens e) rest
  end.

Definition entry_original (e : entry) : pystr := let '(_, o, _, _) := e in o.
Definition entry_translated (e : entry) : pystr := let '(_, _, t, _) := e in t.

(** The log after the entries [es] were appended for [lang], one by one. *)
Definition log_extended (lang : pystr) (es : list entry) (log : dict (list entry))
  : dict (list entry) :=
  fold_left (fun l e => setdefault_append l lang e) es log.

(** The mapping after [translations[key] = translated] for each entry. *)
Definition dict_extended (es : list entry) (d : dict pystr) : dict pystr :=
  fold_left (fun d e => dict_set d (entry_key e) (entry_translated e)) es d.

(** The outcome of a statement that stopped on a raising completion call. *)
Definition stopped_by_chat {X} (e : exn) (w' : World X) : Prop :=
  exists tr model content temperature,
    trace w' = tr ++ [Called (ChatCompletionsCreate model content temperature) (Raise e)].

(** The log after several calls of [translate_locale], each a round
    [(lang, entries)] in the order of the calls. *)
Definition rounds_extended (rounds : list (pystr * list entry))
    (log : dict (list entry)) : dict (list entry) :=
  fold_left (fun l r => log_extended (fst r) (snd r) l) rounds log.

(** The entries the rounds contributed to one language. *)
Definition entries_for (lang : pystr) (rounds : list (pystr * list entry))
  : list entry :=
  flat_map (fun r => if Str.eqb (fst r) lang then snd r else []) rounds.

(** A round translated exactly the catalog [src], counting from zero. *)
Definition round_of (src : dict pystr) (r : pystr * list entry) : Prop :=
  map entry_key (snd r) = keys src
  /\ map entry_original (snd r) = map snd src
  /\ running 0 (snd r).

(** The trace only grows. *)
Definition extends {X} (w w' : World X) : Prop :=
  exists evs, trace w' = trace w ++ evs.

(** A file after the rows were written to it, one [writerow] each. *)
Definition rows_appended (path : pystr) (rows : csv) (d : dict csv) : dict csv :=
  fold_left (fun d row => setdefault_append d path row) rows d.

(** Classification of recorded events. *)
Definition is_smtp {A} (r : request A) : bool :=
  match r with
  | SmtpConnect _ _ | SmtpStarttls | SmtpLogin _ _ | SmtpSendmail _ _ _
  | SmtpQuit => true
  | _ => false
  end.

(** The event is a call to the mail transport that raised. *)
Definition smtp_failure (ev : event) : bool :=
  match ev with
  | Called r (Raise _) => is_smtp r
  | _ => false
  end.

(** The exception of an event that is a raising call. *)
Definition raised (ev : event) : option exn :=
  match ev with
  | Called _ (Raise e) => Some e
  | _ => None
  end.

(** The event is a call to the mail transport or a console line. *)
Definition session_event (ev : event) : bool :=
  match ev with
  | Called r _ => is_smtp r
  | Printed _ => true
  | _ => false
  end.

(** The console lines of [deliver]. *)
Definition sent_line (c : Config) : pystr :=
  join (py " ") [py "✅ Email sent to:"; EMAIL_TO c].
Definition failed_line (e : exn) : pystr :=
  join (py " ") [py "❌ Email failed:"; exn_str e].

(** What the report writer and the attachment reader leave in the trace. *)
Definition report_file_events (rows : csv) : list event :=
  [FileOpened CSV_LOG_FILE (py "w"); FileClosed CSV_LOG_FILE (Some rows);
   FileOpened CSV_LOG_FILE (py "rb"); FileClosed CSV_LOG_FILE (Some rows)].

(** The estimated cost of [tokens] tokens: the int converted to a float
    and multiplied by the per-token rate [0.00001]; [None] when the int
    is beyond the float range. *)
Definition estimated_cost (tokens : N) : option Float64.float :=
  option_map (fun f => Float64.mul f Float64.rate_literal) (Float64.of_int tokens).

(** The final cumulative token count of a language: the fourth
    component of its last entry, or 0 for an empty entry list. *)
Definition final_count (entries : list entry) : N :=
  match entries with
  | [] => 0
  | _ => entry_tokens (last entries ([], [], [], 0))
  end.

Definition table_open : pystr :=
  py "<table border='1' cellspacing='0' cellpadding='6' style='border-collapse:collapse; font-size:13px;'>".
Definition table_head : pystr :=
  py "<tr style='background:#f2f2f2;'><th>Key</th><th>Original</th><th>Translated</th></tr>".

(** The part of the report about one language: the sub-header with the
    language's final count and its cost, then the table of its entries. *)
Definition language_block (lang : pystr) (entries : list entry)
    (cost : Float64.float) : pystr :=
  html_lang_header lang (final_count entries) cost
    ++ table_open ++ table_head
    ++ List.concat (map html_row entries) ++ py "</table><br>".

Fixpoint language_blocks (log : dict (list entry)) : option pystr :=
  match log with
  | [] => Some []
  | (lang, entries) :: rest =>
    match estimated_cost (final_count entries), language_blocks rest with
    | Some cost, Some blocks => Some (language_block lang entries cost ++ blocks)
    | _, _ => None
    end
  end.

(** The HTML document of the report, for a counter value and a log. *)
Definition report_html (c : Config) (total : N) (log : dict (list entry))
  : option pystr :=
  match estimated_cost total, language_blocks log with
  | Some cost, Some blocks =>
    Some (html_head c total cost ++ blocks ++ py "</body></html>")
  | _, _ => None
  end.

Definition report_message (c : Config) (html : pystr) (rows : csv) : Message :=
  {| msg_subject := report_title;
     msg_from := EMAIL_FROM c;
     msg_to := EMAIL_TO c;
     msg_html := html;
     msg_attachments := [ {| filename := CSV_LOG_FILE; payload := rows |} ] |}.

Definition overflow_error : exn :=
  Exception "OverflowError" (py "int too large to convert to float").

(** The HTML body of a message handed to [sendmail], if the event is one. *)
Definition sent_html (ev : event) : option pystr :=
  match ev with
  | Called r _ =>
    match r with
    | SmtpSendmail _ _ msg => Some (msg_html msg)
    | _ => None
    end
  | _ => None
  end.

Definition unicode_decode_error : exn :=
  Exception "UnicodeDecodeError" (py "'utf-8' codec can't decode bytes").

(** The console line of [ensure_branch]. *)
Definition branch_exists_line : pystr :=
  py "Branch " ++ BRANCH_NAME ++ py " already exists".

(** The console line of [ensure_pull_request]. *)
Definition pr_exists_line : pystr :=
  py "⚠️ PR already exists. Skipping PR creation.".

(** A property of the remote state is carried from [w] to [w']. *)
Definition carries {X} (I : X -> Prop) (w w' : World X) : Prop :=
  I (remote w) -> I (remote w').

(** *** Vocabulary for the simulated repository *)

(** What identifies a file of the repository. *)
Definition file_key (f : Sim.RepoFile) : pystr * pystr :=
  (Sim.file_branch f, Sim.file_path f).

(** The repository is as in [s0], up to the text and the revision
    markers of its files: same branches, same pull requests, same files
    at the same places. *)
Definition same_repository (s0 s : Sim.State) : Prop :=
  Sim.faults s = Sim.faults s0
  /\ Sim.owner s = Sim.owner s0
  /\ Sim.branches s = Sim.branches s0
  /\ Sim.pulls s = Sim.pulls s0
  /\ map file_key (Sim.files s) = map file_key (Sim.files s0).

Definition output_path (lang : pystr) : pystr :=
  py "locales/" ++ lang ++ py ".json".

(** The state a previous run leaves: the working branch, the output
    file of every target language and an open pull request from
    [ClintUK:translations-auto] into [main] exist; the main branch holds
    a catalog that loads; no fault is injected. *)
Definition already_published (c : Config)
    (json_loads : pystr -> result (dict pystr)) (s : Sim.State) : Prop :=
  Sim.faults s = []
  /\ (exists commit, dict_get (Sim.branches s) (py "main") = Some commit)
  /\ (exists f text source_data,
        Sim.find_file (py "main") LOCALE_PATH s = Some f
        /\ utf8_decode (Sim.utf8_encode (Sim.file_text f)) = Some text
        /\ json_loads text = Ok source_data)
  /\ (exists commit, dict_get (Sim.branches s) BRANCH_NAME = Some commit)
  /\ (forall lang, In lang (TARGET_LANGS c) ->
        In (BRANCH_NAME, output_path lang) (map file_key (Sim.files s)))
  /\ existsb (Sim.matches_pull (py "open") (py "ClintUK:" ++ BRANCH_NAME) (py "main"))
       (Sim.pulls s) = true.

(** The event is a successful update of the output file of [lang] on
    the working branch. *)
Definition updated (lang : pystr) (ev : event) : bool :=
  match ev with
  | Called r (Ok _) =>
    match r with
    | UpdateFile path _ _ _ branch _ =>
      Str.eqb path (output_path lang) && Str.eqb branch BRANCH_NAME
    | _ => false
    end
  | _ => false
  end.

(** *** Vocabulary for text *)

(** No whitespace at either end of the text (the empty text included). *)
Definition trimmed (s : pystr) : bool :=
  match s with
  | [] => true
  | c :: _ => negb (isspace c) && negb (isspace (last s 0))
  end.

(** How often a character occurs in a text. *)
Fixpoint count_char (c : N) (s : pystr) : nat :=
  match s with
  | [] => O
  | x :: r => if x =? c then S (count_char c r) else count_char c r
  end.

Definition comma : N := 0x2C.

(** *** Vocabulary for what a run may do *)

(** Every event a statement adds to the trace satisfies [p]. *)
Definition adds {X} (p : event -> bool) (w w' : World X) : Prop :=
  exists evs, trace w' = trace w ++ evs /\ forallb p evs = true.

Definition author_eqb (a b : InputGitAuthor) : bool :=
  Str.eqb (author_name a) (author_name b)
  && Str.eqb (author_email a) (author_email b).

Fixpoint strs_eqb (a b : list pystr) : bool :=
  match a, b with
  | [], [] => true
  | x :: a', y :: b' => Str.eqb x y && strs_eqb a' b'
  | _, _ => false
  end.

(** The path is the output file of one of the languages. *)
Definition output_of (langs : list pystr) (path : pystr) : bool :=
  existsb (fun lang => Str.eqb path (output_path lang)) langs.

(** The calls to the repository host that the script makes, for the
    configuration [c] and the languages [langs]. *)
Definition repo_call (c : Config) (langs : list pystr) {A} (r : request A) : bool :=
  match r with
  | GetRepo token full_name =>
    Str.eqb token (GITHUB_TOKEN c) && Str.eqb full_name (GITHUB_REPO c)
  | GetBranch branch => Str.eqb branch (py "main")
  | CreateGitRef ref _ => Str.eqb ref (py "refs/heads/" ++ BRANCH_NAME)
  | GetContents path ref =>
    (Str.eqb path LOCALE_PATH && Str.eqb ref (py "main"))
    || (output_of langs path && Str.eqb ref BRANCH_NAME)
  | CreateFile path _ _ branch author =>
    output_of langs path && Str.eqb branch BRANCH_NAME && author_eqb author clinton
  | UpdateFile path _ _ _ branch author =>
    output_of langs path && Str.eqb branch BRANCH_NAME && author_eqb author clinton
  | GetPullsTotalCount state head base =>
    Str.eqb state (py "open") && Str.eqb head (py "ClintUK:" ++ BRANCH_NAME)
    && Str.eqb base (py "main")
  | CreatePull title body head base =>
    Str.eqb title pr_title && Str.eqb body pr_body
    && Str.eqb head BRANCH_NAME && Str.eqb base (py "main")
  | _ => false
  end.

(** What the publishing steps leave in the trace: repository calls of
    these shapes and console lines. *)
Definition repo_event (c : Config) (langs : list pystr) (ev : event) : bool :=
  match ev with
  | Called r _ => repo_call c langs r
  | Printed _ => true
  | _ => false
  end.

(** A completion call for the configured model at temperature 0.3. *)
Definition chat_event (c : Config) (ev : event) : bool :=
  match ev with
  | Called r _ =>
    match r with
    | ChatCompletionsCreate m _ t => Str.eqb m (model c) && Qeq_bool t (3 # 10)
    | _ => false
    end
  | _ => false
  end.

(** What the report mailer leaves in the trace: accesses to the report
    file, an SMTP session with the configured server and credentials,
    and console lines. *)
Definition mail_event (c : Config) (ev : event) : bool :=
  match ev with
  | Called r _ =>
    match r with
    | SmtpConnect host port => Str.eqb host (smtp_server c) && Z.eqb port (SMTP_PORT c)
    | SmtpStarttls | SmtpQuit => true
    | SmtpLogin user password =>
      Str.eqb user (EMAIL_FROM c) && Str.eqb password (EMAIL_PASSWORD c)
    | SmtpSendmail from_addr to_addrs _ =>
      Str.eqb from_addr (EMAIL_FROM c)
      && strs_eqb to_addrs (split_on comma (EMAIL_TO c))
    | _ => false
    end
  | Printed _ => true
  | FileOpened path _ => Str.eqb path CSV_LOG_FILE
  | FileClosed path _ => Str.eqb path CSV_LOG_FILE
  end.

Definition publish_event (c : Config) (langs : list pystr) (ev : event) : bool :=
  repo_event c langs ev || chat_event c ev.

Definition script_event (c : Config) (ev : event) : bool :=
  publish_event c (TARGET_LANGS c) ev || mail_event c ev.

(** The event changes the repository: a reference, a file or a pull
    request is created, or a file is updated. *)
Definition is_repo_write (ev : event) : bool :=
  match ev with
  | Called r _ =>
    match r with
    | CreateGitRef _ _ | CreateFile _ _ _ _ _ | UpdateFile _ _ _ _ _ _
    | CreatePull _ _ _ _ => true
    | _ => false
    end
  | _ => false
  end.

(** The change is confined to the working branch: the reference created
    is the working branch, a file created or updated is the output file
    of a configured language on the working branch, committed as
    Clinton, and a pull request goes from the working branch to main. *)
Definition on_working_branch (c : Config) (ev : event) : bool :=
  match ev with
  | Called r _ =>
    match r with
    | CreateGitRef ref _ => Str.eqb ref (py "refs/heads/translations-auto")
    | CreateFile path _ _ branch author =>
      output_of (TARGET_LANGS c) path && Str.eqb branch (py "translations-auto")
      && author_eqb author clinton
    | UpdateFile path _ _ _ branch author =>
      output_of (TARGET_LANGS c) path && Str.eqb branch (py "translations-auto")
      && author_eqb author clinton
    | CreatePull _ _ head base =>
      Str.eqb head (py "translations-auto") && Str.eqb base (py "main")
    | _ => false
    end
  | _ => false
  end.

(** The event belongs to the report mailer: an SMTP call or an access
    to a local file. *)
Definition is_mail_action (ev : event) : bool :=
  match ev with
  | Called r _ => is_smtp r
  | FileOpened _ _ | FileClosed _ _ => true
  | Printed _ => false
  end.

(** The event is a completion call that raised. *)
Definition chat_failure (ev : event) : bool :=
  match ev with
  | Called r (Raise _) => is_chat r
  | _ => false
  end.

(** The event is a completion call that was answered. *)
Definition chat_answer (ev : event) : bool :=
  match ev with
  | Called r (Ok _) => is_chat r
  | _ => false
  end.

(** What the statement raised, if it did. *)
Definition exn_of {A} (o : result A) : option exn :=
  match o with Ok _ => None | Raise e => Some e end.

(** A statement that only talks to the repository host and the
    console, and leaves the translation log, the Usage Counter and the
    local files alone. *)
Definition quiet {X A} (c : Config) (m : M X A) : Prop :=
  respects (adds (repo_event c (TARGET_LANGS c))) m
  /\ respects (keeps (@translation_log X)) m
  /\ respects (keeps (@total_tokens_used X)) m
  /\ respects (keeps (@disk X)) m.

(** The parameters taken from the environment are the ones used: the
    model and the temperature of a completion call, the token and the
    name of the repository, the mail server, port, credentials, sender
    and recipients; and the only local file touched is the report. *)
Definition as_configured (c : Config) (ev : event) : bool :=
  match ev with
  | Called r _ =>
    match r with
    | ChatCompletionsCreate m _ t =>
      Str.eqb m (getenv (OPENAI_MODEL c) (py "gpt-4")) && Qeq_bool t (3 # 10)
    | GetRepo token full_name =>
      Str.eqb token (GITHUB_TOKEN c) && Str.eqb full_name (GITHUB_REPO c)
    | SmtpConnect host port =>
      Str.eqb host (getenv (SMTP_SERVER c) (py "smtp.gmail.com"))
      && Z.eqb port (SMTP_PORT c)
    | SmtpLogin user password =>
      Str.eqb user (EMAIL_FROM c) && Str.eqb password (EMAIL_PASSWORD c)
    | SmtpSendmail from_addr to_addrs _ =>
      Str.eqb from_addr (EMAIL_FROM c)
      && strs_eqb to_addrs (split_on comma (EMAIL_TO c))
    | _ => true
    end
  | Printed _ => true
  | FileOpened path _ => Str.eqb path (py "translation_report.csv")
  | FileClosed path _ => Str.eqb path (py "translation_report.csv")
  end.

(** A statement and its outcome: [R w o w'] relates the world it starts
    in, the exception it raised, if any, and the world it leaves. *)
Definition obeys {X A} (R : World X -> option exn -> World X -> Prop) (m : M X A)
  : Prop :=
  forall w, R w (exn_of (fst (m w))) (snd (m w)).

(** A completion call that raises ends the statement: among the events
    added either no completion call raised, or exactly one did, it is
    the last event, and the statement raised its exception. *)
Definition chat_failure_ends {X} (w : World X) (o : option exn) (w' : World X)
  : Prop :=
  exists evs,
    trace w' = trace w ++ evs
    /\ (existsb chat_failure evs = false
        \/ exists pre m content t e,
             evs = pre ++ [Called (ChatCompletionsCreate m content t) (Raise e)]
             /\ existsb chat_failure pre = false
             /\ o = Some e).

(** The event is a completion call. *)
Definition chat_call (ev : event) : bool :=
  match ev with
  | Called r _ => is_chat r
  | _ => false
  end.

(** The log gains one entry per answered completion call. *)
Definition entries_follow_answers {X} (w w' : World X) : Prop :=
  exists evs,
    trace w' = trace w ++ evs
    /\ total_entries (translation_log w')
       = (total_entries (translation_log w) + List.length (filter chat_answer evs))%nat.

(** *** Vocabulary for the mail session *)

(** Where a mail session stands. *)
Inductive stage :=
| Idle                 (* nothing done yet *)
| Connected            (* the connection is open *)
| Secured              (* STARTTLS succeeded *)
| LoggedIn             (* login succeeded *)
| Sent                 (* the server accepted the message *)
| Confirmed            (* the success line is printed *)
| Leaving (e : exn)    (* a step raised [e]; the connection is open *)
| Failed (e : exn)     (* [e] is in flight; the connection is closed *)
| Finished.            (* the session is over *)

Definition answered {A} (o : result A) : bool :=
  match o with Ok _ => true | Raise _ => false end.

(** The next stage after an answer, or after the exception raised. *)
Definition after {A} (o : result A) (next : stage) (e_to : exn -> stage) : stage :=
  match o with Ok _ => next | Raise e => e_to e end.

(** The protocol of the session: connect, STARTTLS, login, send, the
    success line, QUIT; a step that raises is followed by QUIT when the
    connection is open, and then by the failure line for the exception
    in flight, which is that of QUIT when QUIT raised too. *)
Definition session_step (c : Config) (s : stage) (ev : event) : option stage :=
  match ev with
  | Called r o =>
    match r with
    | SmtpConnect _ _ =>
      match s with Idle => Some (after o Connected Failed) | _ => None end
    | SmtpStarttls =>
      match s with Connected => Some (after o Secured Leaving) | _ => None end
    | SmtpLogin _ _ =>
      match s with Secured => Some (after o LoggedIn Leaving) | _ => None end
    | SmtpSendmail _ _ _ =>
      match s with LoggedIn => Some (after o Sent Leaving) | _ => None end
    | SmtpQuit =>
      match s with
      | Confirmed => Some (after o Finished Failed)
      | Leaving e => Some (after o (Failed e) Failed)
      | _ => None
      end
    | _ => None
    end
  | Printed line =>
    match s with
    | Sent => if Str.eqb line (sent_line c) then Some Confirmed else None
    | Failed e => if Str.eqb line (failed_line e) then Some Finished else None
    | _ => None
    end
  | _ => None
  end.

Fixpoint session_run (c : Config) (s : stage) (evs : list event) : option stage :=
  match evs with
  | [] => Some s
  | ev :: rest =>
    match session_step c s ev with
    | Some s' => session_run c s' rest
    | None => None
    end
  end.

(** The events are a whole session, from the connection attempt to the
    end. *)
Definition session_in_order (c : Config) (evs : list event) : bool :=
  match session_run c Idle evs with
  | Some Finished => true
  | _ => false
  end.

(** The message of an event that hands one to [sendmail]. *)
Definition sent_message (ev : event) : option Message :=
  match ev with
  | Called r _ =>
    match r with
    | SmtpSendmail _ _ msg => Some msg
    | _ => None
    end
  | _ => None
  end.

Definition is_sendmail (ev : event) : bool :=
  match sent_message ev with Some _ => true | None => false end.

(** The event is the named SMTP command. *)
Definition is_login (ev : event) : bool :=
  match ev with
  | Called r _ => match r with SmtpLogin _ _ => true | _ => false end
  | _ => false
  end.

Definition starttls_answered (ev : event) : bool :=
  match ev with
  | Called r (Ok _) => match r with SmtpStarttls => true | _ => false end
  | _ => false
  end.

Definition login_answered (ev : event) : bool :=
  match ev with
  | Called r (Ok _) => match r with SmtpLogin _ _ => true | _ => false end
  | _ => false
  end.

Definition is_quit (ev : event) : bool :=
  match ev with
  | Called r _ => match r with SmtpQuit => true | _ => false end
  | _ => false
  end.

Definition connect_answered (ev : event) : bool :=
  match ev with
  | Called r (Ok _) => match r with SmtpConnect _ _ => true | _ => false end
  | _ => false
  end.

(** The stages in the order of the protocol. *)
Definition stage_rank (s : stage) : nat :=
  match s with
  | Idle => 0
  | Connected => 1
  | Secured => 2
  | LoggedIn => 3
  | Sent => 4
  | Confirmed => 5
  | Leaving _ => 6
  | Failed _ => 7
  | Finished => 8
  end.

(** What the session has been through when it stands at [s]. *)
Definition stage_reached (s : stage) (pre : list event) : Prop :=
  match s with
  | Idle => pre = []
  | Connected => existsb connect_answered pre = true
  | Secured => existsb starttls_answered pre = true
  | LoggedIn =>
    existsb starttls_answered pre = true /\ existsb login_answered pre = true
  | _ => True
  end.

(** *** Vocabulary for the log and the published files *)

(** The translation log is a well-formed dict of non-empty lists: no
    language occurs twice, and every language has an entry. *)
Definition log_ok (log : dict (list entry)) : Prop :=
  NoDup (keys log) /\ Forall (fun le => snd le <> []) log.

Definition log_stays_ok {X} (w w' : World X) : Prop :=
  log_ok (translation_log w) -> log_ok (translation_log w').

(** The item of the output file that an entry stands for. *)
Definition entry_item (e : entry) : pystr * pystr :=
  (entry_key e, entry_translated e).

(** The event is a successful creation or update of the output file of
    [lang] on the working branch, with [blob] as content. *)
Definition wrote (lang blob : pystr) (ev : event) : bool :=
  match ev with
  | Called r (Ok _) =>
    match r with
    | CreateFile path _ content branch _ =>
      Str.eqb path (output_path lang) && Str.eqb content blob
      && Str.eqb branch BRANCH_NAME
    | UpdateFile path _ content _ branch _ =>
      Str.eqb path (output_path lang) && Str.eqb content blob
      && Str.eqb branch BRANCH_NAME
    | _ => false
    end
  | _ => false
  end.

(** No message has been handed to [sendmail] so far. *)
Definition nothing_sent (tr : list event) : Prop :=
  forall ev, In ev tr -> sent_html ev = None.

(** *** Vocabulary for reading the files back *)

(** The dict the reader builds from a sequence of items. *)
Definition items_set (l d : dict pystr) : dict pystr :=
  fold_left (fun d kv => dict_set d (fst kv) (snd kv)) l d.

(** *** Vocabulary for the numbers of the report *)

Definition is_digit (c : N) : bool := (0x30 <=? c) && (c <=? 0x39).

(** The number a sequence of decimal digits stands for, least
    significant digit first. *)
Fixpoint value_rev (ds : list N) : N :=
  match ds with
  | [] => 0
  | d :: r => (d - 0x30) + 10 * value_rev r
  end.

(** The number a decimal numeral stands for; [None] if the text is
    empty or holds anything but digits. *)
Definition decimal_value (s : pystr) : option N :=
  match s with
  | [] => None
  | _ => if forallb is_digit s then Some (value_rev (rev s)) else None
  end.

Definition without_commas (s : pystr) : pystr :=
  filter (fun c => negb (c =? comma)) s.

(** Read from the right, the text is groups of three digits, each
    followed by a comma, and then one to three digits. *)
Fixpoint groups_of_three (ds : list N) : bool :=
  match ds with
  | a :: b :: c :: sep :: ((_ :: _) as r) =>
    is_digit a && is_digit b && is_digit c && (sep =? comma) && groups_of_three r
  | [a] => is_digit a
  | [a; b] => is_digit a && is_digit b
  | [a; b; c] => is_digit a && is_digit b && is_digit c
  | _ => false
  end.

(** *** Vocabulary for the pull-request step *)

(** The event is a call about pull requests. *)
Definition is_pr_call (ev : event) : bool :=
  match ev with
  | Called r _ =>
    match r with
    | GetPullsTotalCount _ _ _ | CreatePull _ _ _ _ => true
    | _ => false
    end
  | _ => false
  end.

Definition not_pr_call (ev : event) : bool := negb (is_pr_call ev).

(** The event is the creation of a pull request. *)
Definition is_pull_creation (ev : event) : bool :=
  match ev with
  | Called r _ => match r with CreatePull _ _ _ _ => true | _ => false end
  | _ => false
  end.

(** The query for open pull requests from the working branch into
    main, and the creation of the pull request. *)
Definition pr_query : request N :=
  GetPullsTotalCount (py "open") (py "ClintUK:translations-auto") (py "main").

Definition pr_creation : request unit :=
  CreatePull (py "Automated translations via RingStone MVP Demo")
    (py "This PR was auto-generated using LLM-based translation.")
    (py "translations-auto") (py "main").

(** What the pull-request step leaves in the trace, and the exception
    it ends with, if any: the query raised; or it answered 0 and the
    creation followed, which returned or raised; or it answered another
    number and the skip line was printed. *)
Inductive pr_step : list event -> option exn -> Prop :=
| pr_query_raised (e : exn) :
    pr_step [Called pr_query (Raise e)] (Some e)
| pr_created :
    pr_step [Called pr_query (Ok 0); Called pr_creation (Ok tt)] None
| pr_creation_raised (e : exn) :
    pr_step [Called pr_query (Ok 0); Called pr_creation (Raise e)] (Some e)
| pr_skipped (n : N) :
    n <> 0 ->
    pr_step [Called pr_query (Ok n);
             Printed (py "⚠️ PR already exists. Skipping PR creation.")] None.

(** * Properties *)

(** ** Text operations *)

Lemma lstrip_cut (s : pystr) :
  exists ws, s = ws ++ lstrip s /\ forallb isspace ws = true.
Proof.
  induction s as [|c s IH]; simpl.
  - exists []. split; reflexivity.
  - destruct (isspace c) eqn:E.
    + destruct IH as (ws & H1 & H2). exists (c :: ws). simpl. rewrite E, H2.
      split; [f_equal; exact H1 | reflexivity].
    + exists []. split; reflexivity.
Qed.

Lemma lstrip_head (s : pystr) c r : lstrip s = c :: r -> isspace c = false.
Proof.
  induction s as [|x s IH]; simpl; [discriminate|].
  destruct (isspace x) eqn:E; [exact IH|]. intros H. congruence.
Qed.

Lemma lstrip_fixed (s : pystr) :
  match s with [] => True | c :: _ => isspace c = false end -> lstrip s = s.
Proof. destruct s as [|c s]; simpl; [reflexivity|]. intros ->. reflexivity. Qed.

Lemma forallb_rev {A} (p : A -> bool) (l : list A) :
  forallb p l = true -> forallb p (rev l) = true.
Proof.
  rewrite !forallb_forall. intros H x Hx. apply H. apply in_rev. exact Hx.
Qed.

(** [strip] cuts whitespace, and only whitespace, from both ends. *)
Lemma strip_cut (s : pystr) :
  exists a b, s = a ++ strip s ++ b
              /\ forallb isspace a = true /\ forallb isspace b = true
              /\ trimmed (strip s) = true.
Proof.
  unfold strip. destruct (lstrip_cut s) as (a & Ha & Hwa).
  destruct (lstrip_cut (rev (lstrip s))) as (b & Hb & Hwb).
  remember (lstrip s) as t eqn:Et.
  remember (lstrip (rev t)) as u eqn:Eu.
  assert (Ht : t = rev u ++ rev b).
  { rewrite <- (rev_involutive t), Hb, rev_app_distr. reflexivity. }
  exists a, (rev b). split; [rewrite <- Ht; exact Ha|].
  split; [exact Hwa|]. split; [apply forallb_rev; exact Hwb|].
  destruct (rev u) as [|c r] eqn:Er; [reflexivity|].
  unfold trimmed. apply andb_true_iff. split.
  - rewrite Ht in Et. simpl in Et. symmetry in Et.
    rewrite (lstrip_head _ Et). reflexivity.
  - destruct u as [|c' u']; [discriminate Er|].
    rewrite <- Er. simpl. rewrite last_last.
    symmetry in Eu. rewrite (lstrip_head _ Eu). reflexivity.
Qed.

Lemma strip_trimmed (s : pystr) : trimmed s = true -> strip s = s.
Proof.
  unfold trimmed, strip. destruct s as [|c r]; [reflexivity|].
  intros H. apply andb_true_iff in H. destruct H as [H1 H2].
  apply negb_true_iff in H1, H2.
  rewrite (lstrip_fixed (c :: r)) by exact H1.
  rewrite lstrip_fixed; [apply rev_involutive|].
  destruct (exists_last (l := c :: r) ltac:(discriminate)) as (l' & x & E).
  rewrite E in H2 |- *. rewrite last_last in H2.
  rewrite rev_app_distr. simpl. exact H2.
Qed.

Lemma split_from_leading (a x : pystr) :
  forallb isspace a = true -> split_from [] (a ++ x) = split_from [] x.
Proof.
  induction a as [|c a IH]; simpl; [reflexivity|].
  intros H. apply andb_true_iff in H. destruct H as [-> H]. auto.
Qed.

Lemma split_from_spaces (cur b : pystr) :
  forallb isspace b = true -> split_from cur b = split_from cur [].
Proof.
  revert cur; induction b as [|c b IH]; intros cur H; [reflexivity|].
  simpl in H. apply andb_true_iff in H. destruct H as [Hc H].
  simpl. rewrite Hc. destruct cur; rewrite (IH [] H); reflexivity.
Qed.

Lemma split_from_trailing (cur x b : pystr) :
  forallb isspace b = true -> split_from cur (x ++ b) = split_from cur x.
Proof.
  intros H. revert cur; induction x as [|c x IH]; intros cur.
  - apply split_from_spaces; exact H.
  - simpl. destruct (isspace c); [destruct cur|]; rewrite IH; reflexivity.
Qed.

(** Stripping a text does not change its words. *)
Lemma split_strip (s : pystr) : split (strip s) = split s.
Proof.
  destruct (strip_cut s) as (a & b & Hs & Ha & Hb & _).
  unfold split. rewrite Hs at 2.
  rewrite split_from_leading, split_from_trailing by assumption. reflexivity.
Qed.

(** The words [split] returns are not empty and hold no whitespace. *)
Lemma split_from_words (cur s : pystr) :
  forallb (fun c => negb (isspace c)) cur = true ->
  Forall (fun word => word <> [] /\ forallb (fun c => negb (isspace c)) word = true)
         (split_from cur s).
Proof.
  assert (Hrev : forall cur : pystr, cur <> [] ->
            forallb (fun c => negb (isspace c)) cur = true ->
            rev cur <> [] /\ forallb (fun c => negb (isspace c)) (rev cur) = true).
  { intros l Hne Hl. split; [|apply forallb_rev; exact Hl].
    intros E. apply (f_equal (@rev N)) in E. rewrite rev_involutive in E. auto. }
  revert cur; induction s as [|c s IH]; intros cur Hcur; simpl.
  - destruct cur as [|x cur]; constructor; [|constructor].
    apply Hrev; [discriminate | exact Hcur].
  - destruct (isspace c) eqn:E.
    + destruct cur as [|x cur]; [apply IH; reflexivity|].
      constructor; [apply Hrev; [discriminate | exact Hcur] | apply IH; reflexivity].
    + apply IH. simpl. rewrite E, Hcur. reflexivity.
Qed.

Lemma split_on_from_nonempty sep cur s : split_on_from sep cur s <> [].
Proof.
  revert cur; induction s as [|c s IH]; intros cur; simpl; [discriminate|].
  destruct (c =? sep); [discriminate | apply IH].
Qed.

Lemma join_cons sep x (l : list pystr) :
  l <> [] -> join sep (x :: l) = x ++ sep ++ join sep l.
Proof. destruct l; [congruence | reflexivity]. Qed.

(** [sep.join(s.split(sep))] gives [s] back. *)
Lemma join_split_on_from sep cur s :
  join [sep] (split_on_from sep cur s) = rev cur ++ s.
Proof.
  revert cur; induction s as [|c s IH]; intros cur; simpl.
  - rewrite app_nil_r; reflexivity.
  - destruct (c =? sep) eqn:E.
    + apply N.eqb_eq in E. subst c.
      rewrite join_cons by apply split_on_from_nonempty. rewrite IH. reflexivity.
    + rewrite IH. simpl. rewrite <- app_assoc. reflexivity.
Qed.

Lemma split_on_from_pieces sep cur s :
  ~ In sep cur -> Forall (fun piece => ~ In sep piece) (split_on_from sep cur s).
Proof.
  revert cur; induction s as [|c s IH]; intros cur Hcur; simpl.
  - constructor; [|constructor]. rewrite <- in_rev. exact Hcur.
  - destruct (c =? sep) eqn:E.
    + constructor; [rewrite <- in_rev; exact Hcur | apply IH; intros []].
    + apply IH. apply N.eqb_neq in E. simpl. intros [H|H]; [congruence | auto].
Qed.

Lemma length_split_on_from sep cur s :
  List.length (split_on_from sep cur s) = S (count_char sep s).
Proof.
  revert cur; induction s as [|c s IH]; intros cur; simpl; [reflexivity|].
  destruct (c =? sep); simpl; rewrite IH; reflexivity.
Qed.

(** Splitting what [join] made of separator-free pieces gives the
    pieces back. *)
Lemma split_on_from_join sep cur (l : list pystr) :
  l <> [] -> Forall (fun piece => ~ In sep piece) l ->
  split_on_from sep cur (join [sep] l)
  = match l with
    | [] => []
    | x :: r => (rev cur ++ x) :: r
    end.
Proof.
  intros Hne Hl. revert cur Hne. induction Hl as [|x l Hx Hl IH];
    [intros ? H; exfalso; apply H; reflexivity|].
  intros cur _. destruct l as [|y l].
  - simpl. clear IH Hl. revert cur.
    induction x as [|c x IHx]; intros cur; simpl.
    + rewrite app_nil_r; reflexivity.
    + destruct (c =? sep) eqn:E; [apply N.eqb_eq in E; simpl in Hx; tauto|].
      rewrite IHx by (simpl in Hx; tauto). simpl. rewrite <- app_assoc. reflexivity.
  - rewrite join_cons by discriminate.
    assert (IH' : forall cur, split_on_from sep cur (join [sep] (y :: l))
                              = (rev cur ++ y) :: l)
      by (intros cur'; apply IH; discriminate).
    clear IH. revert cur. induction x as [|c x IHx]; intros cur.
    + cbn [app]. cbn [split_on_from]. rewrite N.eqb_refl, IH', app_nil_r. reflexivity.
    + cbn [app split_on_from].
      destruct (c =? sep) eqn:E; [apply N.eqb_eq in E; simpl in Hx; tauto|].
      rewrite IHx by (simpl in Hx; tauto). simpl. rewrite <- app_assoc. reflexivity.
Qed.

(** X1.  The target-language list is the value of TRANSLATE_LANGS (or
    the default [es,fr,ja]) cut at every comma and at nothing else:
    joining the list with commas gives the text back, no code holds a
    comma, the list has one code more than the text has commas, and so
    it is never empty; an empty TRANSLATE_LANGS gives the single empty
    code, not an empty list.  Conversely a non-empty list of comma-free
    codes is what the script gets back from its comma-joined text. *)
Theorem target_langs_cut_at_commas (c : Config) :
  let text := getenv (TRANSLATE_LANGS c) (py "es,fr,ja") in
  TARGET_LANGS c <> []
  /\ join [comma] (TARGET_LANGS c) = text
  /\ Forall (fun lang => ~ In comma lang) (TARGET_LANGS c)
  /\ List.length (TARGET_LANGS c) = S (count_char comma text)
  /\ match TRANSLATE_LANGS c with
     | Some [] => TARGET_LANGS c = [[]]
     | Some _ => True
     | None => TARGET_LANGS c = [py "es"; py "fr"; py "ja"]
     end
  /\ (forall langs : list pystr,
        langs <> [] -> Forall (fun lang => ~ In comma lang) langs ->
        TRANSLATE_LANGS c = Some (join [comma] langs) ->
        TARGET_LANGS c = langs).
Proof.
  intros text. unfold TARGET_LANGS, split_on. fold text. fold comma.
  split; [apply split_on_from_nonempty|].
  split; [apply (join_split_on_from comma [] text)|].
  split; [apply split_on_from_pieces; intros []|].
  split; [apply length_split_on_from|].
  split.
  - unfold text. destruct (TRANSLATE_LANGS c) as [[|x s]|]; [reflexivity | exact I |].
    reflexivity.
  - intros langs Hne Hl Hc. unfold text. rewrite Hc. cbn [getenv].
    rewrite split_on_from_join by assumption.
    destruct langs; [congruence | reflexivity].
Qed.

(** X2.  [build_prompt] inserts its two arguments verbatim: for a fixed
    language different texts give different prompts, for a fixed text
    different languages give different prompts, and the prompt is 171
    characters longer than text and language together.  Nothing is
    escaped, so the pair is not determined by the prompt: a language code
    that ends with the fixed wording and an opening quote gives, with
    the empty text, the same prompt as that wording used as the text. *)
Theorem build_prompt_inserts_verbatim :
  (forall text1 text2 lang,
     build_prompt text1 lang = build_prompt text2 lang -> text1 = text2)
  /\ (forall text lang1 lang2,
        build_prompt text lang1 = build_prompt text lang2 -> lang1 = lang2)
  /\ (forall text lang,
        List.length (build_prompt text lang)
        = (List.length text + List.length lang + 171)%nat)
  /\ (forall lang,
        let wording :=
          py "." ++ nl
             ++ py "Keep it concise, clear, and maintain a friendly and modern tone."
             ++ nl ++ nl ++ quote in
        build_prompt wording lang = build_prompt [] (lang ++ wording)).
Proof.
  split; [|split; [|split]].
  - intros text1 text2 lang H. unfold build_prompt in H.
    do 9 apply app_inv_head in H. apply app_inv_tail in H. exact H.
  - intros text lang1 lang2 H. unfold build_prompt in H.
    do 2 apply app_inv_head in H. apply app_inv_tail in H. exact H.
  - intros text lang. unfold build_prompt. rewrite !length_app.
    change (List.length nl) with 1%nat. change (List.length quote) with 1%nat.
    change (List.length (py "Translate the following UI string from English to "))
      with 50%nat.
    change (List.length (py ".")) with 1%nat.
    change (List.length (py "Keep it concise, clear, and maintain a friendly and modern tone."))
      with 64%nat.
    change (List.length (py "Only return the translated text, no commentary."))
      with 47%nat.
    lia.
  - intros lang wording. unfold build_prompt, wording.
    rewrite <- !app_assoc. reflexivity.
Qed.

(** ** Upper case *)

(** On the ASCII characters [upper] turns the letters a to z into A to
    Z and keeps everything else. *)
Lemma upper_char_ascii (c : N) :
  c < 0x80 ->
  upper_char c = [if (0x61 <=? c) && (c <=? 0x7A) then c - 32 else c].
Proof.
  intros H. destruct c as [|p]; [reflexivity|].
  do 7 (destruct p as [p|p|]; [| |reflexivity]); exfalso; lia.
Qed.

Lemma upper_ascii (s : pystr) :
  forallb (fun c => c <? 0x80) s = true ->
  upper s = map (fun c => if (0x61 <=? c) && (c <=? 0x7A) then c - 32 else c) s.
Proof.
  unfold upper. induction s as [|c s IH]; [reflexivity|].
  cbn [forallb flat_map map]. intros H.
  apply andb_true_iff in H. destruct H as [Hc Hs].
  apply N.ltb_lt in Hc. rewrite (upper_char_ascii Hc), (IH Hs). reflexivity.
Qed.

(** ** Numerals *)

Lemma is_digit_offset (d : N) : d < 10 -> is_digit (0x30 + d) = true.
Proof.
  intros H. unfold is_digit. apply andb_true_iff. split; apply N.leb_le; lia.
Qed.

Lemma digits_rev_spec (fuel : nat) (n : N) :
  n < 2 ^ N.of_nat (S fuel) ->
  forallb is_digit (digits_rev (S fuel) n) = true
  /\ digits_rev (S fuel) n <> []
  /\ value_rev (digits_rev (S fuel) n) = n.
Proof.
  revert n; induction fuel as [|fuel IH]; intros n Hn.
  - change (2 ^ N.of_nat 1) with 2 in Hn.
    assert (Hlt : (n <? 10) = true) by (apply N.ltb_lt; lia).
    cbn [digits_rev]. rewrite Hlt. cbn [forallb value_rev].
    rewrite is_digit_offset by lia.
    split; [reflexivity | split; [discriminate | lia]].
  - remember (S fuel) as f eqn:Ef. cbn [digits_rev].
    destruct (n <? 10) eqn:Hlt.
    + apply N.ltb_lt in Hlt. cbn [forallb value_rev].
      rewrite is_digit_offset by lia.
      split; [reflexivity | split; [discriminate | lia]].
    + apply N.ltb_ge in Hlt.
      assert (Hdiv : n / 10 < 2 ^ N.of_nat f).
      { apply N.Div0.div_lt_upper_bound.
        rewrite Nat2N.inj_succ, N.pow_succ_r' in Hn.
        remember (2 ^ N.of_nat f) as bound. clear - Hn. lia. }
      destruct (IH _ Hdiv) as (Hd & Hne & Hv).
      assert (Hmod : n mod 10 < 10) by (apply N.mod_lt; lia).
      cbn [forallb value_rev]. rewrite Hd, Hv, is_digit_offset by lia.
      split; [reflexivity | split; [discriminate|]].
      pose proof (N.div_mod n 10 ltac:(lia)) as E.
      remember (n / 10) as q. remember (n mod 10) as r. clear - E Hmod.
      rewrite N.add_comm, N.add_sub_assoc, N.add_comm by lia. lia.
Qed.

Lemma of_N_digits (n : N) :
  let ds := digits_rev (S (N.to_nat (N.log2 n))) n in
  forallb is_digit ds = true /\ ds <> [] /\ value_rev ds = n.
Proof.
  apply digits_rev_spec.
  rewrite Nat2N.inj_succ, N2Nat.id.
  destruct n as [|p]; [reflexivity|].
  apply N.log2_spec. reflexivity.
Qed.

Lemma decimal_value_of_N (n : N) : decimal_value (of_N n) = Some n.
Proof.
  destruct (of_N_digits n) as (Hd & Hne & Hv). unfold of_N, decimal_value.
  destruct (rev (digits_rev (S (N.to_nat (N.log2 n))) n)) as [|c r] eqn:E.
  - apply (f_equal (@rev N)) in E. rewrite rev_involutive in E. contradiction.
  - rewrite <- E, rev_involutive, Hv.
    rewrite forallb_rev by exact Hd. reflexivity.
Qed.

Lemma is_digit_not_comma (c : N) : is_digit c = true -> (c =? comma) = false.
Proof.
  unfold is_digit, comma. intros H. apply andb_true_iff in H. destruct H as [H _].
  apply N.leb_le in H. apply N.eqb_neq. lia.
Qed.

Ltac no_commas :=
  repeat match goal with
         | H : is_digit ?x = true |- context [?x =? comma] =>
           rewrite (@is_digit_not_comma x H); cbn [negb]
         end.

(** [group3] only inserts commas, one after every three digits. *)
Lemma group3_spec (ds : list N) :
  forallb is_digit ds = true -> ds <> [] ->
  without_commas (group3 ds) = ds /\ groups_of_three (group3 ds) = true.
Proof.
  assert (G : forall (k : nat) (ds : list N),
            (List.length ds <= k)%nat -> forallb is_digit ds = true -> ds <> [] ->
            without_commas (group3 ds) = ds /\ groups_of_three (group3 ds) = true).
  { clear ds. induction k as [|k IH]; intros ds Hk Hd Hne.
    - destruct ds; [congruence | simpl in Hk; lia].
    - destruct ds as [|a [|b [|c [|d r]]]]; [congruence|..];
        cbn [forallb] in Hd;
        repeat match type of Hd with
               | _ && _ = true => apply andb_true_iff in Hd; destruct Hd as [? Hd]
               end.
      + cbn [group3 without_commas filter groups_of_three]. no_commas.
        split; [reflexivity | assumption].
      + cbn [group3 without_commas filter groups_of_three]. no_commas.
        split; [reflexivity | rewrite andb_true_iff; split; assumption].
      + cbn [group3 without_commas filter groups_of_three]. no_commas.
        split; [reflexivity|].
        rewrite !andb_true_iff. repeat split; assumption.
      + assert (Hr : forallb is_digit (d :: r) = true)
          by (cbn [forallb]; apply andb_true_iff; split; assumption).
        destruct (IH (d :: r)) as [Hw Hg];
          [simpl in Hk |- *; lia | exact Hr | discriminate|].
        change (group3 (a :: b :: c :: d :: r))
          with (a :: b :: c :: comma :: group3 (d :: r)).
        split.
        * unfold without_commas in *. cbn [filter]. no_commas.
          rewrite N.eqb_refl. cbn [negb]. rewrite Hw. reflexivity.
        * destruct (group3 (d :: r)) as [|x rest] eqn:Eg.
          { exfalso. destruct r as [|? [|? [|? ?]]]; discriminate Eg. }
          change (groups_of_three (a :: b :: c :: comma :: x :: rest))
            with (is_digit a && is_digit b && is_digit c && (comma =? comma)
                  && groups_of_three (x :: rest)).
          rewrite N.eqb_refl, Hg.
          rewrite !andb_true_iff. repeat split; assumption. }
  intros Hd Hne. exact (G (List.length ds) ds (le_n _) Hd Hne).
Qed.

Lemma filter_rev_commas (s : pystr) : without_commas (rev s) = rev (without_commas s).
Proof.
  unfold without_commas. induction s as [|c s IH]; [reflexivity|].
  cbn [rev filter]. rewrite filter_app, IH. cbn [filter].
  destruct (negb (c =? comma)); [reflexivity | apply app_nil_r].
Qed.

(** X18.  The counts of the report are decimal numerals with a comma
    before every group of three digits counted from the right: the
    text written for a count [n], with its commas removed, is the
    decimal numeral of [n], digits only and never empty; read from the
    right it is groups of three digits separated by commas, the last
    group of one to three digits.  This is the text after [Total tokens
    used] in the head of the report and after the language code in
    every language's sub-header. *)
Theorem counts_are_grouped_decimal_numerals (n : N) :
  decimal_value (of_N n) = Some n
  /\ without_commas (of_N_grouped n) = of_N n
  /\ groups_of_three (rev (of_N_grouped n)) = true
  /\ (forall (c : Config) (cost : Float64.float),
        exists pre post,
          html_head c n cost
          = pre ++ py "Total tokens used: <b>" ++ of_N_grouped n ++ py "</b>" ++ post)
  /\ (forall (lang : pystr) (cost : Float64.float),
        exists post,
          html_lang_header lang n cost
          = py "<h3 style='color:#1a73e8;'>" ++ upper lang ++ py " (≈ "
               ++ of_N_grouped n ++ py " tokens | $" ++ post).
Proof.
  destruct (of_N_digits n) as (Hd & Hne & _).
  destruct (@group3_spec _ Hd Hne) as [Hw Hg].
  split; [apply decimal_value_of_N|]. split; [|split; [|split]].
  - unfold of_N_grouped, of_N. rewrite filter_rev_commas, Hw. reflexivity.
  - unfold of_N_grouped. rewrite rev_involutive. exact Hg.
  - intros c cost. unfold html_head.
    exists (nl ++ py "    <html><body style='font-family:Arial, sans-serif;'>" ++ nl
               ++ py "    <h2 style='color:#2c3e50;'>" ++ report_title ++ py "</h2>" ++ nl
               ++ py "    <p style='font-size:14px;'>Model used: <b>" ++ model c
               ++ py "</b><br>" ++ nl ++ py "    ").
    exists (py "<br>" ++ nl
               ++ py "    Estimated cost: <b>$" ++ Float64.format_4f cost
               ++ py " USD</b></p>" ++ nl ++ py "    <hr>" ++ nl ++ py "    ").
    rewrite <- !app_assoc.
    change (py "    Total tokens used: <b>")
      with (py "    " ++ py "Total tokens used: <b>").
    change (py "</b><br>") with (py "</b>" ++ py "<br>").
    rewrite <- ?app_assoc. reflexivity.
  - intros lang cost. unfold html_lang_header.
    exists (Float64.format_4f cost ++ py ")</h3>"). reflexivity.
Qed.

Section Properties.

Variable X : Type.
Variable serve : forall A : Type, request A -> X -> result A * X.
Variable json_loads : pystr -> result (dict pystr).
Variable cfg : Config.

Abbreviation World := (World X).
Abbreviation M := (M X).
Abbreviation call := (call serve).
Abbreviation translate_text := (translate_text serve cfg).
Abbreviation translate_items := (translate_items serve cfg).
Abbreviation translate_locale := (translate_locale serve cfg).
Abbreviation send_translation_email := (send_translation_email serve cfg).
Abbreviation publish_language := (publish_language serve cfg).
Abbreviation publish_languages := (publish_languages serve cfg).
Abbreviation ensure_pull_request := (ensure_pull_request serve).
Abbreviation deliver := (deliver serve cfg).
Abbreviation create_or_update := (create_or_update serve).
Abbreviation ensure_branch := (ensure_branch serve).
Abbreviation push_translations := (push_translations serve json_loads cfg).
Notation "x <- m ;; k" := (bind m (fun x => k))
  (at level 61, m at next level, right associativity).
Notation "m ;; k" := (bind m (fun _ => k))
  (at level 61, right associativity).

(** *** Strings and dicts *)

Lemma eqb_eq (a b : pystr) : Str.eqb a b = true <-> a = b.
Proof.
  revert b; induction a as [|x a IH]; intros [|y b]; simpl;
    try (split; [discriminate | congruence]); try tauto.
  rewrite andb_true_iff, N.eqb_eq, IH. split.
  - intros [-> ->]; reflexivity.
  - intros E; injection E; auto.
Qed.

Lemma eqb_refl (a : pystr) : Str.eqb a a = true.
Proof. apply eqb_eq; reflexivity. Qed.

Lemma eqb_neq (a b : pystr) : Str.eqb a b = false <-> a <> b.
Proof.
  split.
  - intros E H. apply eqb_eq in H. congruence.
  - intros H. destruct (Str.eqb a b) eqn:E; [apply eqb_eq in E; contradiction | reflexivity].
Qed.

Lemma keys_dict_set_new {V} (d : dict V) k v :
  ~ In k (keys d) -> dict_set d k v = d ++ [(k, v)].
Proof.
  clear X serve json_loads cfg.
  induction d as [|[k' v'] d IH]; simpl; intros H; [reflexivity|].
  destruct (Str.eqb k' k) eqn:E.
  - apply eqb_eq in E. tauto.
  - rewrite IH by tauto. reflexivity.
Qed.

Lemma dict_get_set_same {V} (d : dict V) k v :
  dict_get (dict_set d k v) k = Some v.
Proof.
  induction d as [|[k' v'] d IH]; simpl.
  - rewrite eqb_refl; reflexivity.
  - destruct (Str.eqb k' k) eqn:E; simpl; rewrite E; auto.
Qed.

Lemma dict_get_set_other {V} (d : dict V) k k' v :
  k' <> k -> dict_get (dict_set d k v) k' = dict_get d k'.
Proof.
  intros H. induction d as [|[k0 v0] d IH]; simpl.
  - destruct (Str.eqb k k') eqn:E; [apply eqb_eq in E; congruence | reflexivity].
  - destruct (Str.eqb k0 k) eqn:E; simpl.
    + apply eqb_eq in E; subst k0.
      destruct (Str.eqb k k') eqn:E'; [apply eqb_eq in E'; congruence | reflexivity].
    + rewrite IH; reflexivity.
Qed.

Lemma entries_of_append_same (log : dict (list entry)) lang e :
  entries_of (setdefault_append log lang e) lang = entries_of log lang ++ [e].
Proof.
  unfold entries_of. induction log as [|[l es] log IH]; simpl.
  - rewrite eqb_refl; reflexivity.
  - destruct (Str.eqb l lang) eqn:E; simpl; rewrite E; auto.
Qed.

Lemma entries_of_append_other (log : dict (list entry)) lang l e :
  l <> lang -> entries_of (setdefault_append log lang e) l = entries_of log l.
Proof.
  intros H. unfold entries_of. induction log as [|[l0 es] log IH]; simpl.
  - destruct (Str.eqb lang l) eqn:E; [apply eqb_eq in E; congruence | reflexivity].
  - destruct (Str.eqb l0 lang) eqn:E; simpl.
    + apply eqb_eq in E; subst l0.
      destruct (Str.eqb lang l) eqn:E'; [apply eqb_eq in E'; congruence | reflexivity].
    + destruct (Str.eqb l0 l); auto.
Qed.

Lemma total_entries_append (log : dict (list entry)) lang e :
  total_entries (setdefault_append log lang e) = S (total_entries log).
Proof.
  unfold total_entries. induction log as [|[l es] log IH]; [reflexivity|].
  cbn [setdefault_append]. destruct (Str.eqb l lang); cbn [flat_map snd].
  - rewrite !length_app. cbn [List.length]. lia.
  - rewrite !length_app, IH. lia.
Qed.

(** *** Statements *)

Lemma bind_ok_inv {A B} (m : M A) (k : A -> M B) w b w' :
  bind m k w = (Ok b, w') ->
  exists a w1, m w = (Ok a, w1) /\ k a w1 = (Ok b, w').
Proof.
  unfold bind. destruct (m w) as [[a|e] w1]; intros H; [eauto | discriminate].
Qed.

Lemma bind_ok {A B} (m : M A) (k : A -> M B) w a w1 :
  m w = (Ok a, w1) -> bind m k w = k a w1.
Proof. unfold bind; intros ->; reflexivity. Qed.

Lemma bind_raise {A B} (m : M A) (k : A -> M B) w e w1 :
  m w = (Raise e, w1) -> bind m k w = (Raise e, w1).
Proof. unfold bind; intros ->; reflexivity. Qed.

Section Respects.

Variable R : World -> World -> Prop.
Hypothesis R_refl : forall w, R w w.
Hypothesis R_trans : forall a b c, R a b -> R b c -> R a c.

Lemma respects_ret {A} (a : A) : respects R (ret a : M A).
Proof. intros w; apply R_refl. Qed.

Lemma respects_raise {A} e : respects R (raise e : M A).
Proof. intros w; apply R_refl. Qed.

Lemma respects_of_result {A} (r : result A) : respects R (of_result r : M A).
Proof. intros w; apply R_refl. Qed.

Lemma respects_read {A} (f : World -> A) : respects R (read f).
Proof. intros w; apply R_refl. Qed.

Lemma respects_bind {A B} (m : M A) (k : A -> M B) :
  respects R m -> (forall a, respects R (k a)) -> respects R (bind m k).
Proof.
  intros Hm Hk w. unfold bind. specialize (Hm w).
  destruct (m w) as [[a|e] w1]; simpl in *; [|assumption].
  eapply R_trans; [eassumption | apply Hk].
Qed.

Lemma respects_try_except {A} (m : M A) (h : exn -> M A) :
  respects R m -> (forall e, respects R (h e)) -> respects R (try_except m h).
Proof.
  intros Hm Hh w. unfold try_except. specialize (Hm w).
  destruct (m w) as [[a|e] w1]; simpl in *; [assumption|].
  eapply R_trans; [eassumption | apply Hh].
Qed.

Lemma respects_with {A B} (enter : M A) (leave : M unit) (body : A -> M B) :
  respects R enter -> respects R leave -> (forall a, respects R (body a)) ->
  respects R (with_ enter leave body).
Proof.
  intros He Hl Hb w. unfold with_. specialize (He w).
  destruct (enter w) as [[a|e] w1]; simpl in *; [|assumption].
  specialize (Hb a w1). destruct (body a w1) as [o w2]; simpl in *.
  specialize (Hl w2). destruct (leave w2) as [[u|e] w3]; simpl in *;
    eapply R_trans; try eassumption; eapply R_trans; eassumption.
Qed.

End Respects.

Arguments respects_ret [R] R_refl {A} a.
Arguments respects_raise [R] R_refl {A} e.
Arguments respects_of_result [R] R_refl {A} r.
Arguments respects_read [R] R_refl {A} f.

(** *** The Usage Counter *)

Lemma tokens_reported_app (a b : list event) :
  tokens_reported (a ++ b) = tokens_reported a + tokens_reported b.
Proof. induction a as [|ev a IH]; simpl; [reflexivity | rewrite IH; lia]. Qed.

Lemma counter_step_refl (w : World) : counter_step w w.
Proof. split; [auto | lia]. Qed.

Lemma counter_step_trans (a b c : World) :
  counter_step a b -> counter_step b c -> counter_step a c.
Proof. intros [H1 L1] [H2 L2]. split; [auto | lia]. Qed.

Lemma counter_step_update (f : World -> World) :
  (forall w, total_tokens_used (f w) = total_tokens_used w) ->
  (forall w, tokens_reported (trace (f w)) = tokens_reported (trace w)) ->
  respects counter_step (update f).
Proof.
  intros Ht Hr w. unfold update, counter_step, counter_ok; simpl.
  rewrite Ht, Hr. split; [auto | lia].
Qed.

Lemma counter_step_call {A} (r : request A) :
  is_chat r = false -> respects counter_step (call r).
Proof.
  intros Hr w. unfold Script.call, counter_step, counter_ok.
  destruct (serve r (remote w)) as [o x'].
  assert (E : reported_tokens (Called r o) = 0)
    by (destruct r; simpl in *; try reflexivity; discriminate).
  cbn [snd log_event set_remote trace total_tokens_used].
  rewrite tokens_reported_app. cbn [tokens_reported]. rewrite E.
  split; intros; lia.
Qed.

Lemma counter_step_print args : respects counter_step (print args : M unit).
Proof.
  apply counter_step_update; intros w; simpl; [reflexivity|].
  rewrite tokens_reported_app; simpl; lia.
Qed.

(** What one call of [translate_text] does, in full. *)
Lemma translate_text_run (text target_lang : pystr) (w : World) :
  let r := ChatCompletionsCreate (model cfg) (build_prompt text target_lang) (3 # 10) in
  translate_text text target_lang w =
  match serve r (remote w) with
  | (Ok c, x') =>
    (Ok (strip (message_content c)),
     mkWorld (translation_log w) (total_tokens_used w + usage_total_tokens c)
             (disk w) x' (trace w ++ [Called r (Ok c)]))
  | (Raise e, x') =>
    (Raise e,
     mkWorld (translation_log w) (total_tokens_used w) (disk w) x'
             (trace w ++ [Called r (Raise e)]))
  end.
Proof.
  unfold Script.translate_text, bind, Script.call, update, ret.
  destruct (serve _ (remote w)) as [[c|e] x']; reflexivity.
Qed.

Lemma counter_step_translate_text text lang :
  respects counter_step (translate_text text lang).
Proof.
  intros w. rewrite translate_text_run.
  destruct (serve _ (remote w)) as [[c|e] x']; unfold counter_step, counter_ok; simpl;
    rewrite tokens_reported_app; simpl; split; intros; lia.
Qed.

Create HintDb counter.

Ltac counter_tac :=
  repeat
    lazymatch goal with
    | |- respects _ (bind _ _) =>
      apply (respects_bind counter_step_trans); [|intro]
    | |- respects _ (try_except _ _) =>
      apply (respects_try_except counter_step_trans); [|intro]
    | |- respects _ (with_ _ _ _) =>
      apply (respects_with counter_step_trans); [| |intro]
    | |- respects _ (ret _) => apply (respects_ret counter_step_refl)
    | |- respects _ (raise _) => apply (respects_raise counter_step_refl)
    | |- respects _ (read _) => apply (respects_read counter_step_refl)
    | |- respects _ (of_result _) => apply (respects_of_result counter_step_refl)
    | |- respects _ (call _) => apply counter_step_call; reflexivity
    | |- respects _ (update _) =>
      apply counter_step_update; intros; simpl;
      rewrite ?tokens_reported_app; simpl; lia
    | |- respects _ (if ?b then _ else _) => destruct b
    | |- respects _ (match ?o with Some _ => _ | None => _ end) => destruct o
    | |- respects _ _ => solve [auto with counter]
    end.

#[local] Hint Resolve counter_step_translate_text counter_step_print : counter.

Lemma counter_step_translate_items items lang tr n :
  respects counter_step (translate_items items lang tr n).
Proof.
  revert tr n; induction items as [|[key value] items IH]; intros tr n;
    cbn [Script.translate_items]; counter_tac.
Qed.

Lemma counter_step_write_entries lang entries :
  respects counter_step (write_entries (X:=X) lang entries).
Proof.
  induction entries as [|[[[k o] t] n] entries IH]; cbn [write_entries];
    unfold writerow; counter_tac.
Qed.

#[local] Hint Resolve counter_step_translate_items counter_step_write_entries
  : counter.

Lemma counter_step_write_languages items :
  respects counter_step (write_languages (X:=X) items).
Proof.
  induction items as [|[lang entries] rest IH]; cbn [write_languages]; counter_tac.
Qed.

#[local] Hint Resolve counter_step_write_languages : counter.

Lemma counter_step_write_csv_log : respects counter_step (write_csv_log (X:=X)).
Proof. unfold write_csv_log, open_w, close, writerow. counter_tac. Qed.

Lemma counter_step_times_rate n : respects counter_step (times_rate (X:=X) n).
Proof. unfold times_rate. counter_tac. Qed.

#[local] Hint Resolve counter_step_write_csv_log counter_step_times_rate : counter.

Lemma counter_step_html_languages items html :
  respects counter_step (html_languages (X:=X) items html).
Proof.
  revert html; induction items as [|[lang entries] rest IH]; intros html;
    cbn [html_languages]; counter_tac.
Qed.

Lemma counter_step_read_file path : respects counter_step (read_file (X:=X) path).
Proof. unfold read_file, close. counter_tac. Qed.

#[local] Hint Resolve counter_step_html_languages counter_step_read_file : counter.

Lemma counter_step_send_translation_email :
  respects counter_step send_translation_email.
Proof. unfold Script.send_translation_email, Script.deliver. counter_tac. Qed.

Lemma counter_step_publish_language src lang :
  respects counter_step (publish_language src lang).
Proof.
  unfold Script.publish_language, Script.translate_locale, Script.create_or_update.
  counter_tac.
Qed.

#[local] Hint Resolve counter_step_send_translation_email
  counter_step_publish_language : counter.

Lemma counter_step_publish_languages src langs :
  respects counter_step (publish_languages src langs).
Proof.
  induction langs as [|lang langs IH]; cbn [Script.publish_languages]; counter_tac.
Qed.

#[local] Hint Resolve counter_step_publish_languages : counter.

Lemma counter_step_push_translations : respects counter_step push_translations.
Proof.
  unfold Script.push_translations, decode, Script.ensure_pull_request,
    Script.ensure_branch.
  counter_tac.
Qed.

(** Frames: what a statement cannot change. *)

Lemma keeps_refl {A} (f : World -> A) (w : World) : keeps f w w.
Proof. reflexivity. Qed.

Lemma keeps_trans {A} (f : World -> A) (a b c : World) :
  keeps f a b -> keeps f b c -> keeps f a c.
Proof. unfold keeps; congruence. Qed.

Arguments keeps_refl {A} f w.
Arguments keeps_trans {A} f a b c _ _.

Section Frame.

Variable A : Type.
Variable f : World -> A.
Hypothesis f_disk : forall w v, f (set_disk v w) = f w.
Hypothesis f_event : forall w ev, f (log_event ev w) = f w.
Hypothesis f_remote : forall w x, f (set_remote x w) = f w.

Lemma keeps_update (g : World -> World) :
  (forall w, f (g w) = f w) -> respects (keeps f) (update g).
Proof. intros H w; apply H. Qed.

Lemma keeps_call {B} (r : request B) : respects (keeps f) (call r).
Proof.
  intros w. unfold Script.call, keeps.
  destruct (serve r (remote w)) as [o x']; cbn [snd].
  rewrite f_event, f_remote; reflexivity.
Qed.

Create HintDb frame.

Ltac keeps_tac :=
  repeat
    lazymatch goal with
    | |- respects _ (bind _ _) => apply (respects_bind (keeps_trans _)); [|intro]
    | |- respects _ (try_except _ _) =>
      apply (respects_try_except (keeps_trans _)); [|intro]
    | |- respects _ (with_ _ _ _) =>
      apply (respects_with (keeps_trans _)); [| |intro]
    | |- respects _ (ret _) => apply (respects_ret (keeps_refl _))
    | |- respects _ (raise _) => apply (respects_raise (keeps_refl _))
    | |- respects _ (read _) => apply (respects_read (keeps_refl _))
    | |- respects _ (of_result _) => apply (respects_of_result (keeps_refl _))
    | |- respects _ (call _) => apply keeps_call
    | |- respects _ (update _) =>
      apply keeps_update; intros; rewrite ?f_event, ?f_disk, ?f_remote; reflexivity
    | |- respects _ (if ?b then _ else _) => destruct b
    | |- respects _ (match ?o with Some _ => _ | None => _ end) => destruct o
    | |- respects _ _ => solve [auto with frame]
    end.

Lemma keeps_print args : respects (keeps f) (print (X:=X) args).
Proof. unfold print. keeps_tac. Qed.

Lemma keeps_write_entries lang entries :
  respects (keeps f) (write_entries (X:=X) lang entries).
Proof.
  induction entries as [|[[[k o] t] n] entries IH]; cbn [write_entries];
    unfold writerow; keeps_tac.
Qed.

#[local] Hint Resolve keeps_print keeps_write_entries : frame.

Lemma keeps_write_languages items :
  respects (keeps f) (write_languages (X:=X) items).
Proof.
  induction items as [|[lang entries] rest IH]; cbn [write_languages]; keeps_tac.
Qed.

#[local] Hint Resolve keeps_write_languages : frame.

Lemma keeps_write_csv_log : respects (keeps f) (write_csv_log (X:=X)).
Proof. unfold write_csv_log, open_w, close, writerow. keeps_tac. Qed.

Lemma keeps_times_rate n : respects (keeps f) (times_rate (X:=X) n).
Proof. unfold times_rate. keeps_tac. Qed.

#[local] Hint Resolve keeps_write_csv_log keeps_times_rate : frame.

Lemma keeps_html_languages items html :
  respects (keeps f) (html_languages (X:=X) items html).
Proof.
  revert html; induction items as [|[lang entries] rest IH]; intros html;
    cbn [html_languages]; keeps_tac.
Qed.

Lemma keeps_read_file path : respects (keeps f) (read_file (X:=X) path).
Proof. unfold read_file, close. keeps_tac. Qed.

#[local] Hint Resolve keeps_html_languages keeps_read_file : frame.

Lemma keeps_deliver msg : respects (keeps f) (deliver msg).
Proof. unfold Script.deliver. keeps_tac. Qed.

#[local] Hint Resolve keeps_deliver : frame.

Lemma keeps_send_translation_email : respects (keeps f) send_translation_email.
Proof. unfold Script.send_translation_email. keeps_tac. Qed.

Lemma keeps_ensure_pull_request : respects (keeps f) ensure_pull_request.
Proof. unfold Script.ensure_pull_request. keeps_tac. Qed.

Lemma keeps_create_or_update lang path blob :
  respects (keeps f) (create_or_update lang path blob).
Proof. unfold Script.create_or_update. keeps_tac. Qed.

Lemma keeps_ensure_branch main : respects (keeps f) (ensure_branch main).
Proof. unfold Script.ensure_branch. keeps_tac. Qed.

End Frame.

(** C2.  Whenever the Usage Counter equals the sum of the token costs
    reported by the completion calls made so far, it still does after
    any function of the script has run, whatever the outcome, and it has
    not decreased; one call of [translate_text] makes exactly one
    completion call and adds exactly the cost that call reported
    (nothing when the call raised); at process start the counter is zero
    and the equality holds. *)
Theorem usage_counter_sums_reported_costs (w : World) (H : counter_ok w) :
  (forall text target_lang,
     let r := ChatCompletionsCreate (model cfg)
                (build_prompt text target_lang) (3 # 10) in
     let w' := snd (translate_text text target_lang w) in
     trace w' = trace w ++ [Called r (fst (serve r (remote w)))]
     /\ total_tokens_used w' =
        total_tokens_used w
        + reported_tokens (Called r (fst (serve r (remote w))))
     /\ counter_ok w')
  /\ (forall source_dict target_lang,
        let w' := snd (translate_locale source_dict target_lang w) in
        counter_ok w' /\ total_tokens_used w <= total_tokens_used w')
  /\ (let w' := snd (write_csv_log w) in
      counter_ok w' /\ total_tokens_used w' = total_tokens_used w)
  /\ (let w' := snd (send_translation_email w) in
      counter_ok w' /\ total_tokens_used w' = total_tokens_used w)
  /\ (let w' := snd (push_translations w) in
      counter_ok w' /\ total_tokens_used w <= total_tokens_used w')
  /\ (forall files (x : X),
        counter_ok (initial_world files x)
        /\ total_tokens_used (initial_world files x) = 0).
Proof.
  repeat split.
  - rewrite translate_text_run. destruct (serve _ (remote w)) as [[c|e] x']; reflexivity.
  - rewrite translate_text_run. destruct (serve _ (remote w)) as [[c|e] x']; simpl; lia.
  - apply counter_step_translate_text; assumption.
  - apply (counter_step_translate_items source_dict target_lang [] 0 w); assumption.
  - apply (counter_step_translate_items source_dict target_lang [] 0 w).
  - apply counter_step_write_csv_log; assumption.
  - apply (keeps_write_csv_log (@total_tokens_used X)); reflexivity.
  - apply counter_step_send_translation_email; assumption.
  - apply (keeps_send_translation_email (@total_tokens_used X)); reflexivity.
  - apply counter_step_push_translations; assumption.
  - apply counter_step_push_translations.
Qed.

(** *** The Locale Translator *)

Lemma running_cumulative (es : list entry) (n : N) (i : nat) :
  running n es -> (i < List.length es)%nat ->
  entry_tokens (nth i es ([], [], [], 0)) = n + sum_words (firstn (S i) es).
Proof.
  revert n i; induction es as [|e es IH]; intros n i Hr Hi; simpl in Hi; [lia|].
  destruct Hr as [He Hr]. destruct i as [|i].
  - simpl. rewrite He. lia.
  - cbn [nth firstn sum_words]. rewrite (IH _ _ Hr) by lia.
    rewrite He. cbn [firstn]. lia.
Qed.

Lemma entries_of_log_extended lang es log :
  entries_of (log_extended lang es log) lang = entries_of log lang ++ es.
Proof.
  unfold log_extended. revert log; induction es as [|e es IH]; intros log; simpl.
  - rewrite app_nil_r; reflexivity.
  - rewrite IH, entries_of_append_same, <- app_assoc; reflexivity.
Qed.

Lemma entries_of_log_extended_other lang es log l :
  l <> lang -> entries_of (log_extended lang es log) l = entries_of log l.
Proof.
  intros H. unfold log_extended. revert log; induction es as [|e es IH]; intros log; simpl.
  - reflexivity.
  - rewrite IH, entries_of_append_other by assumption; reflexivity.
Qed.

Lemma total_entries_log_extended lang es log :
  total_entries (log_extended lang es log) = (total_entries log + List.length es)%nat.
Proof.
  unfold log_extended. revert log; induction es as [|e es IH]; intros log; simpl.
  - lia.
  - rewrite IH, total_entries_append. lia.
Qed.

Lemma keys_dict_extended es d :
  NoDup (keys d ++ map entry_key es) ->
  keys (dict_extended es d) = keys d ++ map entry_key es.
Proof.
  clear X serve json_loads cfg.
  unfold dict_extended. revert d; induction es as [|e es IH]; intros d H; simpl.
  - rewrite app_nil_r; reflexivity.
  - simpl in H. assert (Hk : ~ In (entry_key e) (keys d)).
    { intros Hin. apply NoDup_remove_2 in H. apply H. apply in_or_app; auto. }
    rewrite IH; rewrite keys_dict_set_new by assumption;
      unfold keys; rewrite map_app; simpl; rewrite <- app_assoc; [reflexivity|].
    exact H.
Qed.

(** The loop of [translate_locale], started with the locals
    [translations = d] and [lang_tokens = n]. *)
Lemma translate_items_run items lang d n w :
  match translate_items items lang d n w with
  | (Ok translations, w') =>
    exists es,
      map entry_key es = map fst items
      /\ map entry_original es = map snd items
      /\ running n es
      /\ translations = dict_extended es d
      /\ translation_log w' = log_extended lang es (translation_log w)
      /\ disk w' = disk w
  | (Raise e, w') => stopped_by_chat e w'
  end.
Proof.
  revert d n w; induction items as [|[key value] items IH]; intros d n w.
  - simpl. exists []. repeat split; reflexivity.
  - cbn [Script.translate_items]. unfold bind at 1. rewrite translate_text_run.
    destruct (serve _ (remote w)) as [[c|e] x'].
    + unfold bind at 1, update at 1.
      match goal with |- context [translate_items items lang ?d' ?n' ?w'] =>
        specialize (IH d' n' w'); destruct (translate_items items lang d' n' w')
          as [[translations|e] w''] end.
      * destruct IH as (es & Hk & Ho & Hr & Ht & Hl & Hd).
        exists ((key, value, strip (message_content c),
                 n + (len (split value) + len (split (strip (message_content c))))) :: es).
        simpl. rewrite Hk, Ho. repeat split; auto.
      * exact IH.
    + do 4 eexists. reflexivity.
Qed.

(** When the loop stops on a raising call, the entries appended so far
    are those of the first items, with their running totals. *)
Lemma translate_items_raise items lang d n w e w' :
  translate_items items lang d n w = (Raise e, w') ->
  exists es rest,
    map fst items = map entry_key es ++ rest
    /\ running n es
    /\ translation_log w' = log_extended lang es (translation_log w).
Proof.
  revert d n w; induction items as [|[key value] items IH]; intros d n w H.
  - discriminate H.
  - cbn [Script.translate_items] in H. unfold bind at 1 in H.
    rewrite translate_text_run in H.
    destruct (serve _ (remote w)) as [[c|e0] x'].
    + unfold bind at 1, update at 1 in H.
      apply IH in H. destruct H as (es & rest & Hk & Hr & Hl).
      exists ((key, value, strip (message_content c),
               n + (len (split value) + len (split (strip (message_content c))))) :: es),
             rest.
      cbn [map fst entry_key app]. rewrite Hk. repeat split; auto.
    + exists [], (map fst ((key, value) :: items)).
      assert (Hw : w' = mkWorld (translation_log w) (total_tokens_used w) (disk w) x'
                         (trace w ++ [Called (ChatCompletionsCreate (model cfg)
                                                (build_prompt value lang) (3 # 10))
                                        (Raise e0)])) by congruence.
      subst w'. repeat split.
Qed.

Lemma entries_of_rounds_extended lang rounds log :
  entries_of (rounds_extended rounds log) lang
  = entries_of log lang ++ entries_for lang rounds.
Proof.
  unfold rounds_extended. revert log.
  induction rounds as [|[l es] rounds IH]; intros log; simpl.
  - rewrite app_nil_r; reflexivity.
  - rewrite IH. destruct (Str.eqb l lang) eqn:E.
    + apply eqb_eq in E; subst l.
      rewrite entries_of_log_extended, app_assoc; reflexivity.
    + apply eqb_neq in E.
      rewrite entries_of_log_extended_other by congruence; reflexivity.
Qed.

Lemma total_entries_rounds_extended src rounds log :
  Forall (round_of src) rounds ->
  total_entries (rounds_extended rounds log)
  = (total_entries log + List.length rounds * List.length src)%nat.
Proof.
  unfold rounds_extended. intros H; revert log.
  induction H as [|[l es] rounds [Hk _] _ IH]; intros log; simpl.
  - lia.
  - rewrite IH, total_entries_log_extended.
    simpl in Hk. apply (f_equal (@List.length _)) in Hk.
    unfold keys in Hk. rewrite !length_map in Hk. lia.
Qed.

(** With distinct languages, a language gets the entries of its own
    round and nothing else. *)
Lemma entries_for_nodup src lang rounds :
  NoDup (map fst rounds) -> Forall (round_of src) rounds ->
  In lang (map fst rounds) ->
  map entry_key (entries_for lang rounds) = keys src.
Proof.
  clear X serve json_loads cfg.
  intros Hn Hf. induction Hf as [|[l es] rounds [Hk _] _ IH]; simpl; [tauto|].
  inversion Hn as [|? ? Hnotin Hn']; subst. simpl in *.
  destruct (Str.eqb l lang) eqn:E.
  - apply eqb_eq in E; subst l. intros _.
    assert (Hnone : entries_for lang rounds = []).
    { clear - Hnotin. induction rounds as [|[l' es'] rounds IH]; simpl; [reflexivity|].
      simpl in Hnotin. destruct (Str.eqb l' lang) eqn:E.
      - apply eqb_eq in E. tauto.
      - apply IH. tauto. }
    rewrite Hnone, app_nil_r. exact Hk.
  - apply eqb_neq in E. intros [H|H]; [congruence|]. simpl. apply IH; assumption.
Qed.

Lemma occurrences_once (key : pystr) (es : list entry) :
  NoDup (map entry_key es) -> In key (map entry_key es) -> occurrences key es = 1%nat.
Proof.
  clear X serve json_loads cfg.
  unfold occurrences. induction es as [|e es IH]; simpl; [tauto|].
  intros Hn Hin. inversion Hn as [|? ? Hnotin Hn']; subst.
  destruct (Str.eqb (entry_key e) key) eqn:E.
  - apply eqb_eq in E. simpl. f_equal.
    rewrite <- E in *. clear - Hnotin.
    induction es as [|e' es IH]; simpl; [reflexivity|].
    simpl in Hnotin. destruct (Str.eqb (entry_key e') (entry_key e)) eqn:E.
    + apply eqb_eq in E. tauto.
    + apply IH. tauto.
  - apply eqb_neq in E. destruct Hin as [H|H]; [congruence|]. apply IH; assumption.
Qed.

Lemma occurrences_app key a b :
  occurrences key (a ++ b) = (occurrences key a + occurrences key b)%nat.
Proof. unfold occurrences. rewrite filter_app, length_app; reflexivity. Qed.

(** *** The trace only grows *)

Lemma extends_refl (w : World) : extends w w.
Proof. exists []. rewrite app_nil_r; reflexivity. Qed.

Lemma extends_trans (a b c : World) : extends a b -> extends b c -> extends a c.
Proof.
  intros [e1 H1] [e2 H2]. exists (e1 ++ e2). rewrite H2, H1, app_assoc; reflexivity.
Qed.

Lemma extends_update (g : World -> World) :
  (forall w, extends w (g w)) -> respects extends (update g).
Proof. intros H w; apply H. Qed.

Lemma extends_call {B} (r : request B) : respects extends (call r).
Proof.
  intros w. unfold Script.call. destruct (serve r (remote w)) as [o x'].
  eexists; reflexivity.
Qed.

Create HintDb grow.

Ltac extends_tac :=
  repeat
    lazymatch goal with
    | |- respects _ (bind _ _) => apply (respects_bind extends_trans); [|intro]
    | |- respects _ (try_except _ _) =>
      apply (respects_try_except extends_trans); [|intro]
    | |- respects _ (with_ _ _ _) =>
      apply (respects_with extends_trans); [| |intro]
    | |- respects _ (ret _) => apply (respects_ret extends_refl)
    | |- respects _ (raise _) => apply (respects_raise extends_refl)
    | |- respects _ (read _) => apply (respects_read extends_refl)
    | |- respects _ (of_result _) => apply (respects_of_result extends_refl)
    | |- respects _ (call _) => apply extends_call
    | |- respects _ (update _) =>
      apply extends_update; intros; unfold extends; simpl;
      first [ exists []; rewrite app_nil_r; reflexivity | eexists; reflexivity ]
    | |- respects _ (if ?b then _ else _) => destruct b
    | |- respects _ (match ?o with Some _ => _ | None => _ end) => destruct o
    | |- respects _ _ => solve [auto with grow]
    end.

Lemma extends_translate_items items lang d n :
  respects extends (translate_items items lang d n).
Proof.
  revert d n; induction items as [|[key value] items IH]; intros d n;
    cbn [Script.translate_items]; unfold Script.translate_text; extends_tac.
Qed.

Lemma extends_write_entries lang entries :
  respects extends (write_entries (X:=X) lang entries).
Proof.
  induction entries as [|[[[k o] t] n] entries IH]; cbn [write_entries];
    unfold writerow; extends_tac.
Qed.

#[local] Hint Resolve extends_translate_items extends_write_entries : grow.

Lemma extends_write_languages items :
  respects extends (write_languages (X:=X) items).
Proof.
  induction items as [|[lang entries] rest IH]; cbn [write_languages]; extends_tac.
Qed.

#[local] Hint Resolve extends_write_languages : grow.

Lemma extends_html_languages items html :
  respects extends (html_languages (X:=X) items html).
Proof.
  revert html; induction items as [|[lang entries] rest IH]; intros html;
    cbn [html_languages]; unfold times_rate; extends_tac.
Qed.

#[local] Hint Resolve extends_html_languages : grow.

Lemma extends_send_translation_email : respects extends send_translation_email.
Proof.
  unfold Script.send_translation_email, Script.deliver, times_rate,
    write_csv_log, read_file, open_w, close, writerow, print.
  extends_tac.
Qed.

Lemma extends_publish_language src lang :
  respects extends (publish_language src lang).
Proof.
  unfold Script.publish_language, Script.translate_locale,
    Script.create_or_update, print.
  extends_tac.
Qed.

#[local] Hint Resolve extends_send_translation_email extends_publish_language : grow.

Lemma extends_publish_languages src langs :
  respects extends (publish_languages src langs).
Proof.
  induction langs as [|lang langs IH]; cbn [Script.publish_languages]; extends_tac.
Qed.

Lemma extends_ensure_pull_request : respects extends ensure_pull_request.
Proof. unfold Script.ensure_pull_request, print. extends_tac. Qed.

Lemma extends_in (w w' : World) ev : extends w w' -> In ev (trace w) -> In ev (trace w').
Proof. intros [evs H] Hin. rewrite H. apply in_or_app; auto. Qed.

(** *** What a run does to the translation log *)

Lemma publish_language_log src lang w :
  match publish_language src lang w with
  | (Ok _, w') =>
    exists es, round_of src (lang, es)
               /\ translation_log w' = log_extended lang es (translation_log w)
  | (Raise _, _) => True
  end.
Proof.
  unfold Script.publish_language, Script.translate_locale.
  unfold bind at 1, print at 1, update at 1. unfold bind at 1.
  match goal with |- context [translate_items src lang [] 0 ?w1] =>
    pose proof (translate_items_run src lang [] 0 w1) as Hrun;
    destruct (translate_items src lang [] 0 w1) as [[translated|e] w2] end;
    [|exact I].
  destruct Hrun as (es & Hk & Ho & Hr & _ & Hl & _).
  match goal with |- match ?m w2 with _ => _ end =>
    pose proof (keeps_create_or_update (@translation_log X)
                  (fun _ _ => eq_refl) (fun _ _ => eq_refl) lang
                  (py "locales/" ++ lang ++ py ".json")
                  (Json.dumps translated) w2) as Hkeep;
    destruct (m w2) as [[u|e] w3] end; [|exact I].
  unfold keeps in Hkeep; simpl in Hkeep.
  exists es. split; [repeat split; assumption|].
  rewrite Hkeep, Hl. reflexivity.
Qed.

Lemma publish_languages_log src langs w w' :
  publish_languages src langs w = (Ok tt, w') ->
  exists rounds,
    map fst rounds = langs /\ Forall (round_of src) rounds
    /\ translation_log w' = rounds_extended rounds (translation_log w).
Proof.
  revert w; induction langs as [|lang langs IH]; intros w H.
  - injection H as <-. exists []. repeat split; constructor.
  - cbn [Script.publish_languages] in H. apply bind_ok_inv in H.
    destruct H as (u & w1 & H1 & H).
    pose proof (publish_language_log src lang w) as Hl. rewrite H1 in Hl.
    destruct Hl as (es & Hround & Hlog).
    destruct (IH _ H) as (rounds & Hm & Hf & Hlog').
    exists ((lang, es) :: rounds). simpl. rewrite Hm. repeat split; auto.
    rewrite Hlog', Hlog. reflexivity.
Qed.

(** A run that completes went through every step. *)
Lemma push_translations_ok_inv w w' :
  push_translations w = (Ok tt, w') ->
  exists contents text src w1 w2 w3,
    In (Called (GetContents LOCALE_PATH (py "main")) (Ok contents)) (trace w1)
    /\ utf8_decode (decoded_content contents) = Some text
    /\ json_loads text = Ok src
    /\ translation_log w1 = translation_log w
    /\ extends w w1
    /\ publish_languages src (TARGET_LANGS cfg) w1 = (Ok tt, w2)
    /\ ensure_pull_request w2 = (Ok tt, w3)
    /\ send_translation_email w3 = (Ok tt, w').
Proof.
  unfold Script.push_translations. intros H.
  apply bind_ok_inv in H; destruct H as (u1 & wa & Ha & H).
  apply bind_ok_inv in H; destruct H as (main & wb & Hb & H).
  apply bind_ok_inv in H; destruct H as (u2 & wc & Hc & H).
  apply bind_ok_inv in H; destruct H as (contents & wd & Hd & H).
  apply bind_ok_inv in H; destruct H as (text & we & He & H).
  apply bind_ok_inv in H; destruct H as (src & wf & Hf & H).
  apply bind_ok_inv in H; destruct H as (u3 & w2 & Hp & H).
  apply bind_ok_inv in H; destruct H as (u4 & w3 & Hq & H).
  destruct u3, u4.
  assert (E1 : we = wd /\ utf8_decode (decoded_content contents) = Some text).
  { unfold decode in He. destruct (utf8_decode _); [|discriminate].
    injection He as -> ->. auto. }
  destruct E1 as [-> Hdec].
  assert (E2 : wf = wd /\ json_loads text = Ok src).
  { unfold of_result in Hf. injection Hf as -> ->. auto. }
  destruct E2 as [-> Hjson].
  exists contents, text, src, wd, w2, w3.
  pose proof (keeps_call (@translation_log X) (fun _ _ => eq_refl)
                (fun _ _ => eq_refl) (GetRepo (GITHUB_TOKEN cfg) (GITHUB_REPO cfg)) w) as Ka.
  pose proof (keeps_call (@translation_log X) (fun _ _ => eq_refl)
                (fun _ _ => eq_refl) (GetBranch (py "main")) wa) as Kb.
  pose proof (keeps_ensure_branch (@translation_log X) (fun _ _ => eq_refl)
                (fun _ _ => eq_refl) main wb) as Kc.
  pose proof (keeps_call (@translation_log X) (fun _ _ => eq_refl)
                (fun _ _ => eq_refl) (GetContents LOCALE_PATH (py "main")) wc) as Kd.
  pose proof (extends_call (GetRepo (GITHUB_TOKEN cfg) (GITHUB_REPO cfg)) w) as Ea.
  pose proof (extends_call (GetBranch (py "main")) wa) as Eb.
  assert (Ec : extends wb wc).
  { match type of Hc with ?m wb = _ =>
      assert (Hr : respects extends m)
        by (unfold Script.ensure_branch, print; extends_tac);
      specialize (Hr wb); rewrite Hc in Hr; exact Hr end. }
  pose proof (extends_call (GetContents LOCALE_PATH (py "main")) wc) as Ed.
  unfold keeps in *. rewrite Ha in Ka, Ea. rewrite Hb in Kb, Eb.
  rewrite Hc in Kc. rewrite Hd in Kd, Ed. simpl in *.
  repeat split; try assumption.
  - unfold Script.call in Hd. destruct (serve _ (remote wc)) as [o x'].
    injection Hd as -> <-. simpl. apply in_or_app; right; left; reflexivity.
  - congruence.
  - eauto using extends_trans.
Qed.

Lemma translate_locale_run source_dict target_lang w :
  match translate_locale source_dict target_lang w with
  | (Ok translations, w') =>
    exists es,
      round_of source_dict (target_lang, es)
      /\ translations = dict_extended es []
      /\ translation_log w' = log_extended target_lang es (translation_log w)
  | (Raise e, w') => stopped_by_chat e w'
  end.
Proof.
  unfold Script.translate_locale.
  pose proof (translate_items_run source_dict target_lang [] 0 w) as H.
  destruct (translate_items source_dict target_lang [] 0 w) as [[tr|e] w']; [|exact H].
  destruct H as (es & Hk & Ho & Hr & Ht & Hl & _).
  exists es. repeat split; assumption.
Qed.

Lemma running_zero_cumulative es : running 0 es -> cumulative es.
Proof. intros H i Hi. rewrite (@running_cumulative es 0 i H Hi). lia. Qed.

Lemma sum_words_app a b : sum_words (a ++ b) = sum_words a + sum_words b.
Proof. induction a as [|e a IH]; simpl; [reflexivity | rewrite IH; lia]. Qed.

Lemma sum_words_positive (src : dict pystr) es :
  map entry_original es = map snd src ->
  Exists (fun kv => 0 < word_count (snd kv)) src -> 0 < sum_words es.
Proof.
  intros Hm Hex. revert es Hm.
  induction Hex as [[k v] src Hv | [k v] src _ IH]; intros [|[[[k' o] t] n] es] Hm;
    simpl in Hm; try discriminate; injection Hm as Ho Hm; simpl.
  - subst o. simpl in Hv. lia.
  - specialize (IH es Hm). lia.
Qed.

Lemma split_on_from_no_sep sep cur s :
  ~ In sep s -> split_on_from sep cur s = [rev cur ++ s].
Proof.
  clear X serve json_loads cfg.
  revert cur; induction s as [|c s IH]; intros cur H; simpl.
  - rewrite app_nil_r; reflexivity.
  - destruct (c =? sep) eqn:E; [apply N.eqb_eq in E; simpl in H; tauto|].
    rewrite IH by (simpl in H; tauto). simpl. rewrite <- app_assoc. reflexivity.
Qed.

Lemma split_on_twice sep s :
  ~ In sep s -> split_on sep (s ++ [sep] ++ s) = [s; s].
Proof.
  clear X serve json_loads cfg.
  intros H. unfold split_on.
  assert (G : forall cur t, ~ In sep t ->
            split_on_from sep cur (t ++ [sep] ++ s) = (rev cur ++ t) :: [s]).
  { intros cur t; revert cur; induction t as [|c t IH]; intros cur Ht; simpl.
    - rewrite N.eqb_refl, app_nil_r. rewrite split_on_from_no_sep by assumption.
      reflexivity.
    - destruct (c =? sep) eqn:E; [apply N.eqb_eq in E; simpl in Ht; tauto|].
      rewrite IH by (simpl in Ht; tauto). simpl. rewrite <- app_assoc. reflexivity. }
  apply (G [] s); exact H.
Qed.

(** C1, as amended.  For every catalog with distinct keys and every
    target language, [translate_locale] either stops on a raising
    completion call or returns a mapping with exactly the catalog's keys,
    in the catalog's order, after appending to that language's sequence
    in the translation log exactly one entry per catalog key, in the
    catalog's order, and leaving the other languages' sequences alone.
    Hence, after a run that completes from process start with a
    target-language list without repeated codes, each key of the loaded
    catalog appears exactly once in each target language's sequence. *)
Theorem catalog_keys_translated_once :
  (forall (source_dict : dict pystr) (target_lang : pystr) (w : World),
     NoDup (keys source_dict) ->
     match translate_locale source_dict target_lang w with
     | (Ok translations, w') =>
       keys translations = keys source_dict
       /\ exists es,
            entries_of (translation_log w') target_lang
            = entries_of (translation_log w) target_lang ++ es
            /\ map entry_key es = keys source_dict
            /\ forall lang, lang <> target_lang ->
                 entries_of (translation_log w') lang
                 = entries_of (translation_log w) lang
     | (Raise e, w') => stopped_by_chat e w'
     end)
  /\ (forall files (x : X) (w' : World),
        (forall text d, json_loads text = Ok d -> NoDup (keys d)) ->
        NoDup (TARGET_LANGS cfg) ->
        push_translations (initial_world files x) = (Ok tt, w') ->
        exists contents text source_data,
          In (Called (GetContents LOCALE_PATH (py "main")) (Ok contents)) (trace w')
          /\ utf8_decode (decoded_content contents) = Some text
          /\ json_loads text = Ok source_data
          /\ forall lang, In lang (TARGET_LANGS cfg) ->
               map entry_key (entries_of (translation_log w') lang)
               = keys source_data
               /\ forall key, In key (keys source_data) ->
                    occurrences key (entries_of (translation_log w') lang) = 1%nat).
Proof.
  split.
  - intros src lang w Hnd.
    pose proof (translate_locale_run src lang w) as H.
    destruct (translate_locale src lang w) as [[tr|e] w']; [|exact H].
    destruct H as (es & (Hk & _ & _) & Ht & Hl). simpl in Hk. split.
    + subst tr. rewrite keys_dict_extended; simpl; rewrite Hk; [reflexivity|exact Hnd].
    + exists es. rewrite Hl. repeat split.
      * apply entries_of_log_extended.
      * exact Hk.
      * intros l Hne. apply entries_of_log_extended_other; assumption.
  - intros files x w' Hwf Hnd Hrun.
    destruct (push_translations_ok_inv _ Hrun)
      as (contents & text & src & w1 & w2 & w3 & Hin & Hdec & Hjson & Hlog1 & _ & Hp & Hq & Hs).
    exists contents, text, src.
    assert (E1 : extends w1 w2).
    { pose proof (extends_publish_languages src (TARGET_LANGS cfg) w1) as E.
      rewrite Hp in E; exact E. }
    assert (E2 : extends w2 w3).
    { pose proof (extends_ensure_pull_request w2) as E. rewrite Hq in E; exact E. }
    assert (E3 : extends w3 w').
    { pose proof (extends_send_translation_email w3) as E. rewrite Hs in E; exact E. }
    repeat split; try assumption.
    { eapply extends_in; [|eassumption]. eauto using extends_trans. }
    all: destruct (publish_languages_log _ _ _ Hp) as (rounds & Hm & Hf & Hlog2);
      pose proof (keeps_ensure_pull_request (@translation_log X)
                    (fun _ _ => eq_refl) (fun _ _ => eq_refl) w2) as K2;
      pose proof (keeps_send_translation_email (@translation_log X)
                    (fun _ _ => eq_refl) (fun _ _ => eq_refl) (fun _ _ => eq_refl) w3) as K3;
      unfold keeps in K2, K3; rewrite Hq in K2; rewrite Hs in K3; simpl in K2, K3;
      assert (Hentries : map entry_key (entries_of (translation_log w') lang) = keys src)
        by (rewrite K3, K2, Hlog2, Hlog1, entries_of_rounds_extended; simpl;
            apply entries_for_nodup; rewrite ?Hm; assumption).
    + exact Hentries.
    + intros key Hkey. apply occurrences_once; rewrite Hentries; [|exact Hkey].
      eapply Hwf; eassumption.
Qed.

(** C6.  For every catalog and target language, the entries
    [translate_locale] appends for that language carry, as fourth
    component, the running total of that call: the i-th one is the sum,
    over entries 1 to i of the call, of the whitespace-split word counts
    of original and translated text.  When the call returns there is one
    entry per catalog item, with the item's key and text, in order; when
    it stops on a raising completion call, the entries appended so far
    are those of the first items and have the same property. *)
Theorem translate_locale_running_totals
    (source_dict : dict pystr) (target_lang : pystr) (w : World) :
  match translate_locale source_dict target_lang w with
  | (Ok _, w') =>
    exists es,
      entries_of (translation_log w') target_lang
      = entries_of (translation_log w) target_lang ++ es
      /\ map entry_key es = keys source_dict
      /\ map entry_original es = map snd source_dict
      /\ cumulative es
  | (Raise e, w') =>
    stopped_by_chat e w'
    /\ exists es later,
         entries_of (translation_log w') target_lang
         = entries_of (translation_log w) target_lang ++ es
         /\ keys source_dict = map entry_key es ++ later
         /\ cumulative es
  end.
Proof.
  pose proof (translate_locale_run source_dict target_lang w) as H.
  destruct (translate_locale source_dict target_lang w) as [[tr|e] w'] eqn:E.
  - destruct H as (es & (Hk & Ho & Hr) & _ & Hl). exists es. rewrite Hl.
    repeat split; auto using entries_of_log_extended, running_zero_cumulative.
  - split; [exact H|]. unfold Script.translate_locale in E.
    destruct (translate_items_raise _ _ _ _ _ E) as (es & later & Hk & Hr & Hl).
    exists es, later. rewrite Hl.
    repeat split; auto using entries_of_log_extended, running_zero_cumulative.
Qed.

Lemma running_app (n : N) (a b : list entry) :
  running n a -> running (n + sum_words a) b -> running n (a ++ b).
Proof.
  revert n; induction a as [|e a IH]; intros n Ha Hb; cbn [running sum_words app] in *.
  - rewrite N.add_0_r in Hb. exact Hb.
  - destruct Ha as [He Ha]. split; [exact He|]. apply IH; [exact Ha|].
    rewrite He, <- N.add_assoc. exact Hb.
Qed.

(** C10, as amended.  When [translate_locale] is run twice for the same language
    and nothing in between touches that language's sequence, the
    sequence gains the catalog's keys twice, each round's fourth
    components are running totals that start again from zero, and every
    catalog key occurs at least twice.  The fourth components of the
    whole sequence are not running totals as soon as the first round
    counted a word, which it does when some catalog text has a word;
    when the first round counted none and the sequence was empty
    before, they still are.  A language list such as [s,s] in
    TRANSLATE_LANGS does make the script run it twice. *)
Theorem repeated_language_restarts_count
    (source_dict : dict pystr) (target_lang : pystr)
    (w w1 w1' w2 : World) (first second : dict pystr)
    (Hfirst : translate_locale source_dict target_lang w = (Ok first, w1))
    (Hbetween : entries_of (translation_log w1') target_lang
                = entries_of (translation_log w1) target_lang)
    (Hsecond : translate_locale source_dict target_lang w1' = (Ok second, w2)) :
  (exists es1 es2,
     entries_of (translation_log w2) target_lang
     = entries_of (translation_log w) target_lang ++ es1 ++ es2
     /\ map entry_key es1 = keys source_dict
     /\ map entry_key es2 = keys source_dict
     /\ cumulative es1 /\ cumulative es2
     /\ (0 < sum_words es1 ->
         ~ cumulative (entries_of (translation_log w2) target_lang))
     /\ (entries_of (translation_log w) target_lang = [] ->
         sum_words es1 = 0 ->
         cumulative (entries_of (translation_log w2) target_lang)))
  /\ (NoDup (keys source_dict) ->
      forall key, In key (keys source_dict) ->
        (2 <= occurrences key (entries_of (translation_log w2) target_lang))%nat)
  /\ (Exists (fun kv => 0 < word_count (snd kv)) source_dict ->
      ~ cumulative (entries_of (translation_log w2) target_lang))
  /\ (forall (c : Config) (s : pystr),
        ~ In 0x2C s -> TRANSLATE_LANGS c = Some (s ++ py "," ++ s) ->
        TARGET_LANGS c = [s; s]).
Proof.
  pose proof (translate_locale_run source_dict target_lang w) as H1.
  rewrite Hfirst in H1. destruct H1 as (es1 & (Hk1 & Ho1 & Hr1) & _ & Hl1).
  pose proof (translate_locale_run source_dict target_lang w1') as H2.
  rewrite Hsecond in H2. destruct H2 as (es2 & (Hk2 & Ho2 & Hr2) & _ & Hl2).
  simpl in *.
  assert (Hseq : entries_of (translation_log w2) target_lang
                 = entries_of (translation_log w) target_lang ++ es1 ++ es2).
  { rewrite Hl2, entries_of_log_extended, Hbetween, Hl1, entries_of_log_extended.
    rewrite <- app_assoc. reflexivity. }
  assert (Hrestart : 0 < sum_words es1 ->
                     ~ cumulative (entries_of (translation_log w2) target_lang)).
  { intros Hpos Hcum. rewrite Hseq in Hcum.
    remember (entries_of (translation_log w) target_lang) as prev eqn:Eprev.
    clear Eprev Hseq.
    destruct es2 as [|e2 es2].
    { simpl in Hk2. rewrite <- Hk2 in Hk1.
      destruct es1; [simpl in Hpos; lia | discriminate]. }
    rewrite app_assoc in Hcum.
    assert (Hlt : (List.length (prev ++ es1)
                   < List.length ((prev ++ es1) ++ e2 :: es2))%nat)
      by (rewrite (length_app (prev ++ es1)); simpl; lia).
    specialize (Hcum (List.length (prev ++ es1)) Hlt).
    assert (F : firstn (S (List.length (prev ++ es1))) ((prev ++ es1) ++ e2 :: es2)
                = (prev ++ es1) ++ [e2]).
    { replace (S (List.length (prev ++ es1)))
        with (List.length (prev ++ es1) + 1)%nat by lia.
      rewrite firstn_app_2. reflexivity. }
    rewrite F, !sum_words_app in Hcum.
    rewrite app_nth2, Nat.sub_diag in Hcum by lia.
    cbn [nth sum_words] in Hcum.
    destruct Hr2 as [He2 _]. lia. }
  split; [|split; [|split]].
  - exists es1, es2. split; [exact Hseq|].
    repeat split; auto using running_zero_cumulative.
    intros Hempty Hzero. rewrite Hseq, Hempty. cbn [app].
    apply running_zero_cumulative, running_app; [exact Hr1|].
    rewrite Hzero. exact Hr2.
  - intros Hnd key Hkey. rewrite Hseq, !occurrences_app.
    rewrite (occurrences_once key es1), (occurrences_once key es2);
      rewrite ?Hk1, ?Hk2; try assumption. lia.
  - intros Hword. apply Hrestart. exact (sum_words_positive es1 Ho1 Hword).
  - intros c s Hs Hc. unfold TARGET_LANGS. rewrite Hc. simpl getenv.
    apply split_on_twice; exact Hs.
Qed.

(** *** The Report Writer *)

Lemma dict_get_setdefault_append_same {V} (d : dict (list V)) k x :
  dict_get (setdefault_append d k x) k
  = Some (match dict_get d k with Some xs => xs ++ [x] | None => [x] end).
Proof.
  induction d as [|[k' xs] d IH]; simpl.
  - rewrite eqb_refl; reflexivity.
  - destruct (Str.eqb k' k) eqn:E; simpl; rewrite E; auto.
Qed.

Lemma dict_get_setdefault_append_other {V} (d : dict (list V)) k k' x :
  k' <> k -> dict_get (setdefault_append d k x) k' = dict_get d k'.
Proof.
  intros H. induction d as [|[k0 xs] d IH]; simpl.
  - destruct (Str.eqb k k') eqn:E; [apply eqb_eq in E; congruence | reflexivity].
  - destruct (Str.eqb k0 k) eqn:E; simpl.
    + apply eqb_eq in E; subst k0.
      destruct (Str.eqb k k') eqn:E'; [apply eqb_eq in E'; congruence | reflexivity].
    + destruct (Str.eqb k0 k'); auto.
Qed.

Lemma dict_get_rows_appended path rows d old :
  dict_get d path = Some old ->
  dict_get (rows_appended path rows d) path = Some (old ++ rows).
Proof.
  unfold rows_appended. revert d old; induction rows as [|row rows IH];
    intros d old H; simpl.
  - rewrite app_nil_r; assumption.
  - assert (H' : dict_get (setdefault_append d path row) path = Some (old ++ [row]))
      by (rewrite dict_get_setdefault_append_same; unfold csv in *;
          rewrite H; reflexivity).
    rewrite (IH _ _ H'), <- app_assoc. reflexivity.
Qed.

Lemma dict_get_rows_appended_other path rows d p :
  p <> path -> dict_get (rows_appended path rows d) p = dict_get d p.
Proof.
  intros Hp. unfold rows_appended. revert d; induction rows as [|row rows IH];
    intros d; simpl; [reflexivity|].
  etransitivity; [apply IH | apply dict_get_setdefault_append_other; assumption].
Qed.

Lemma rows_appended_app path a b d :
  rows_appended path (a ++ b) d = rows_appended path b (rows_appended path a d).
Proof. unfold rows_appended. apply fold_left_app. Qed.

Lemma write_entries_run lang entries (w : World) :
  write_entries lang entries w
  = (Ok tt, set_disk (rows_appended CSV_LOG_FILE (map (csv_row lang) entries) (disk w)) w).
Proof.
  revert w; induction entries as [|[[[k o] t] n] entries IH]; intros w.
  - destruct w; reflexivity.
  - cbn [write_entries]. unfold bind, writerow, update. rewrite IH. reflexivity.
Qed.

Lemma write_languages_run log (w : World) :
  write_languages log w
  = (Ok tt, set_disk (rows_appended CSV_LOG_FILE (csv_rows log) (disk w)) w).
Proof.
  revert w; induction log as [|[lang entries] log IH]; intros w.
  - destruct w; reflexivity.
  - cbn [write_languages]. unfold bind. rewrite write_entries_run, IH.
    unfold csv_rows. cbn [flat_map fst snd]. rewrite rows_appended_app. reflexivity.
Qed.

Lemma write_csv_log_run (w : World) :
  exists d',
    write_csv_log w
    = (Ok tt,
       mkWorld (translation_log w) (total_tokens_used w) d' (remote w)
         (trace w ++ [FileOpened CSV_LOG_FILE (py "w");
                      FileClosed CSV_LOG_FILE
                        (Some (report_rows (translation_log w)))]))
    /\ dict_get d' CSV_LOG_FILE = Some (report_rows (translation_log w))
    /\ forall p, p <> CSV_LOG_FILE -> dict_get d' p = dict_get (disk w) p.
Proof.
  assert (Hget : forall d,
            dict_get (rows_appended CSV_LOG_FILE (csv_rows (translation_log w))
                        (setdefault_append (dict_set d CSV_LOG_FILE [])
                           CSV_LOG_FILE csv_header)) CSV_LOG_FILE
            = Some (report_rows (translation_log w))).
  { intros d. apply (@dict_get_rows_appended _ _ _ [csv_header]).
    etransitivity; [apply dict_get_setdefault_append_same|].
    unfold csv. rewrite dict_get_set_same. reflexivity. }
  eexists. split; [|split].
  - unfold write_csv_log, with_, open_w, close, bind, writerow, update, read.
    rewrite write_languages_run. cbn [set_disk log_event disk translation_log
      total_tokens_used remote trace]. rewrite Hget.
    unfold log_event, set_disk.
    cbn [disk translation_log total_tokens_used remote trace].
    rewrite <- app_assoc. reflexivity.
  - apply Hget.
  - intros p Hp.
    etransitivity; [apply dict_get_rows_appended_other; assumption|].
    etransitivity; [apply dict_get_setdefault_append_other; assumption|].
    apply dict_get_set_other; assumption.
Qed.

Lemma length_csv_rows log : List.length (csv_rows log) = total_entries log.
Proof.
  unfold csv_rows, total_entries. induction log as [|[lang es] log IH]; simpl.
  - reflexivity.
  - rewrite !length_app, length_map, IH. reflexivity.
Qed.

(** *** The Report Mailer *)

(** [deliver] never raises: it returns normally whatever the mail
    transport does, touches neither the log, the counter nor the disk,
    and records only SMTP calls and console lines.  When an SMTP call
    raised, the last thing it does is print the failure line for an
    exception one of the calls raised; otherwise the session is the
    complete one. *)
Lemma deliver_run (msg : Message) (w : World) :
  exists x' evs,
    deliver msg w
    = (Ok tt, mkWorld (translation_log w) (total_tokens_used w) (disk w) x'
                (trace w ++ evs))
    /\ forallb session_event evs = true
    /\ (existsb smtp_failure evs = true ->
        exists e mid, evs = mid ++ [Printed (failed_line e)]
                      /\ In (Some e) (map raised mid))
    /\ (existsb smtp_failure evs = false ->
        evs = [Called (SmtpConnect (smtp_server cfg) (SMTP_PORT cfg)) (Ok tt);
               Called SmtpStarttls (Ok tt);
               Called (SmtpLogin (EMAIL_FROM cfg) (EMAIL_PASSWORD cfg)) (Ok tt);
               Called (SmtpSendmail (EMAIL_FROM cfg)
                         (split_on 0x2C (EMAIL_TO cfg)) msg) (Ok tt);
               Printed (sent_line cfg);
               Called SmtpQuit (Ok tt)])
    /\ (forall ev h, In ev evs -> sent_html ev = Some h -> h = msg_html msg).
Proof.
  unfold Script.deliver, try_except, with_, bind, Script.call, print, update.
  repeat
    match goal with
    | |- context [serve ?r ?x] =>
      let e := fresh "e" in let x' := fresh "x" in
      destruct (serve r x) as [[[]|e] x']
    end;
    lazy beta iota delta [log_event set_remote translation_log
                            total_tokens_used disk remote trace];
    rewrite <- ?app_assoc; cbn [app];
    (eexists; eexists; split; [reflexivity|]);
    (split; [reflexivity|]);
    (split; [intros H; try discriminate H
            | split; [intros H; try discriminate H; try reflexivity|]]).
  all: try match goal with
       | |- exists e mid, ?a :: ?l = _ /\ _ =>
         let n := constr:(removelast (a :: l)) in
         let n' := eval cbn [removelast] in n in
         eexists; exists n'; split; [reflexivity|]; cbn; tauto
       end.
  all: intros ev h Hin Hev; simpl in Hin;
    repeat (destruct Hin as [<-|Hin];
            [simpl in Hev; try discriminate Hev; congruence|]);
    contradiction.
Qed.

Lemma lang_total_tokens_final entries : lang_total_tokens entries = final_count entries.
Proof.
  unfold lang_total_tokens, final_count.
  destruct entries as [|e entries]; [reflexivity|].
  destruct (exists_last (l := e :: entries) ltac:(discriminate)) as (l' & a & ->).
  rewrite rev_app_distr, last_last. simpl.
  destruct l'; reflexivity.
Qed.

Lemma html_rows_concat entries html :
  html_rows entries html = html ++ List.concat (map html_row entries).
Proof.
  revert html; induction entries as [|e entries IH]; intros html; simpl.
  - rewrite app_nil_r; reflexivity.
  - rewrite IH, <- app_assoc; reflexivity.
Qed.

Lemma times_rate_run n (w : World) :
  times_rate n w = match estimated_cost n with
                   | Some c => (Ok c, w)
                   | None => (Raise overflow_error, w)
                   end.
Proof. unfold times_rate, estimated_cost. destruct (Float64.of_int n); reflexivity. Qed.

(** The loop over the languages adds their blocks to [html], in order. *)
Lemma html_languages_run items html (w : World) :
  html_languages items html w
  = match language_blocks items with
    | Some blocks => (Ok (html ++ blocks), w)
    | None => (Raise overflow_error, w)
    end.
Proof.
  revert html; induction items as [|[lang entries] rest IH]; intros html.
  - simpl. rewrite app_nil_r; reflexivity.
  - cbn [html_languages language_blocks]. unfold bind at 1.
    rewrite times_rate_run, lang_total_tokens_final.
    destruct (estimated_cost (final_count entries)) as [cost|].
    + rewrite IH. destruct (language_blocks rest) as [blocks|]; [|reflexivity].
      rewrite html_rows_concat. unfold language_block, table_open, table_head.
      rewrite <- !app_assoc. reflexivity.
    + destruct (language_blocks rest); reflexivity.
Qed.

Lemma read_file_run path rows (w : World) :
  dict_get (disk w) path = Some rows ->
  read_file path w
  = (Ok rows, mkWorld (translation_log w) (total_tokens_used w) (disk w) (remote w)
                (trace w ++ [FileOpened path (py "rb"); FileClosed path (Some rows)])).
Proof.
  intros H. destruct w as [l t d x tr]. cbn [disk] in H.
  unfold read_file, bind, update, read, close, ret.
  lazy beta iota delta [log_event set_remote translation_log
                          total_tokens_used disk remote trace fst snd].
  unfold csv in *. rewrite H.
  lazy beta iota delta [update log_event set_remote translation_log
                          total_tokens_used disk remote trace fst snd].
  rewrite H, <- app_assoc. reflexivity.
Qed.

(** [send_translation_email] in two halves: building the report and
    writing the file, which can only fail on a cost beyond the float
    range and then does nothing; and the delivery. *)
Lemma send_translation_email_run (w : World) :
  let rows := report_rows (translation_log w) in
  match report_html cfg (total_tokens_used w) (translation_log w) with
  | None => send_translation_email w = (Raise overflow_error, w)
  | Some html =>
    exists d',
      send_translation_email w
      = deliver (report_message cfg html rows)
          (mkWorld (translation_log w) (total_tokens_used w) d' (remote w)
             (trace w ++ report_file_events rows))
      /\ dict_get d' CSV_LOG_FILE = Some rows
      /\ forall p, p <> CSV_LOG_FILE -> dict_get d' p = dict_get (disk w) p
  end.
Proof.
  intros rows. unfold report_html, Script.send_translation_email.
  rewrite (bind_ok (read (@total_tokens_used X)) _ w (a := total_tokens_used w) (w1 := w))
    by reflexivity.
  pose proof (times_rate_run (total_tokens_used w) w) as T.
  destruct (estimated_cost (total_tokens_used w)) as [cost|];
    [|rewrite (bind_raise _ _ _ T); reflexivity].
  rewrite (bind_ok _ _ _ T).
  rewrite (bind_ok (read (@translation_log X)) _ w (a := translation_log w) (w1 := w))
    by reflexivity.
  pose proof (html_languages_run (translation_log w)
                (html_head cfg (total_tokens_used w) cost) w) as L.
  destruct (language_blocks (translation_log w)) as [blocks|];
    [|rewrite (bind_raise _ _ _ L); reflexivity].
  rewrite (bind_ok _ _ _ L).
  destruct (write_csv_log_run w) as (d' & Hw & Hget & Hother).
  exists d'. split; [|split; assumption].
  rewrite (bind_ok _ _ _ Hw).
  match goal with |- bind (read_file _) _ ?w1 = _ =>
    pose proof (read_file_run CSV_LOG_FILE (rows := rows) w1 Hget) as R end.
  rewrite (bind_ok _ _ _ R).
  cbn [translation_log total_tokens_used disk remote trace].
  unfold report_message, report_file_events. rewrite <- !app_assoc. reflexivity.
Qed.

(** What a call of [send_translation_email] that did not stop on an
    overflowing cost leaves behind. *)
Lemma send_translation_email_delivered (w : World) html :
  report_html cfg (total_tokens_used w) (translation_log w) = Some html ->
  let rows := report_rows (translation_log w) in
  exists d' x' session,
    send_translation_email w
    = (Ok tt, mkWorld (translation_log w) (total_tokens_used w) d' x'
                (trace w ++ report_file_events rows ++ session))
    /\ dict_get d' CSV_LOG_FILE = Some rows
    /\ forallb session_event session = true
    /\ (existsb smtp_failure session = true ->
        exists e mid, session = mid ++ [Printed (failed_line e)]
                      /\ In (Some e) (map raised mid))
    /\ (existsb smtp_failure session = false ->
        exists ev, In ev session /\ sent_html ev = Some html)
    /\ (forall ev h, In ev session -> sent_html ev = Some h -> h = html).
Proof.
  intros Hhtml rows. pose proof (send_translation_email_run w) as H.
  rewrite Hhtml in H. destruct H as (d' & Hrun & Hget & _).
  match type of Hrun with _ = deliver ?m ?w2 =>
    destruct (deliver_run m w2) as (x' & session & Hd & Hall & Hfail & Hok & Hmsg) end.
  cbn [translation_log total_tokens_used disk remote trace] in Hd.
  exists d', x', session. rewrite Hrun, Hd, <- app_assoc.
  repeat split; try assumption.
  intros Hnone. specialize (Hok Hnone). rewrite Hok.
  eexists; split; [right; right; right; left; reflexivity | reflexivity].
Qed.

Lemma existsb_smtp_failure_file_events rows :
  existsb smtp_failure (report_file_events rows) = false.
Proof. reflexivity. Qed.

Lemma existsb_smtp_failure_app a b :
  existsb smtp_failure (a ++ b) = existsb smtp_failure a || existsb smtp_failure b.
Proof. apply existsb_app. Qed.

Lemma language_blocks_in lang entries log blocks :
  language_blocks log = Some blocks -> In (lang, entries) log ->
  exists cost pre post,
    estimated_cost (final_count entries) = Some cost
    /\ blocks = pre ++ language_block lang entries cost ++ post.
Proof.
  revert blocks; induction log as [|[l es] log IH]; intros blocks Hb Hin; [contradiction|].
  cbn [language_blocks] in Hb.
  destruct (estimated_cost (final_count es)) as [c|] eqn:Ec; [|discriminate].
  destruct (language_blocks log) as [rest|] eqn:Er; [|discriminate].
  assert (Hblocks : blocks = language_block l es c ++ rest) by congruence.
  subst blocks. clear Hb. destruct Hin as [Heq|Hin].
  - assert (l = lang /\ es = entries) as [-> ->] by (split; congruence).
    exists c, [], rest. split; [assumption | reflexivity].
  - destruct (IH rest eq_refl Hin) as (cost & pre & post & Hc & Hrest).
    exists cost, (language_block l es c ++ pre), post. split; [assumption|].
    rewrite Hrest. apply app_assoc.
Qed.

(** C3.  Take any world (any translation log and counter) and a call of
    [send_translation_email] in which some call to the mail transport
    (connect, STARTTLS, login, send or the closing QUIT) raised.  Then
    the call returned normally; the events it added to the trace are
    the writing and closing of the report file with all its rows, its
    reading back, then only SMTP calls and console lines, and last the
    printed failure line for an exception one of those calls raised;
    and the report file on disk holds the header and the rows of the
    log. *)
Theorem email_failure_is_not_fatal
    (w w' : World) (o : result unit) (evs : list event)
    (Hrun : send_translation_email w = (o, w'))
    (Htrace : trace w' = trace w ++ evs)
    (Hfail : existsb smtp_failure evs = true) :
  o = Ok tt
  /\ dict_get (disk w') CSV_LOG_FILE = Some (report_rows (translation_log w))
  /\ exists e session,
       evs = report_file_events (report_rows (translation_log w))
             ++ session ++ [Printed (failed_line e)]
       /\ forallb session_event session = true
       /\ In (Some e) (map raised session).
Proof.
  clear json_loads.
  pose proof (send_translation_email_run w) as H.
  destruct (report_html cfg (total_tokens_used w) (translation_log w)) as [html|] eqn:Eh.
  - clear H. destruct (send_translation_email_delivered w Eh)
      as (d' & x' & session & Hs & Hget & Hall & Hf & _ & _).
    rewrite Hs in Hrun.
    assert (Ho : Ok tt = o) by congruence.
    match type of Hrun with (_, ?W) = _ => assert (Hw' : W = w') by congruence end.
    subst o w'. clear Hrun. cbn [trace disk] in Htrace |- *.
    apply app_inv_head in Htrace. subst evs.
    rewrite existsb_smtp_failure_app, existsb_smtp_failure_file_events in Hfail.
    cbn [orb] in Hfail. destruct (Hf Hfail) as (e & mid & Hsession & Hin).
    split; [reflexivity|]. split; [assumption|].
    exists e, mid. rewrite Hsession in Hall |- *. repeat split; try assumption.
    rewrite forallb_app in Hall. apply andb_true_iff in Hall. tauto.
  - rewrite H in Hrun.
    assert (Hw' : w = w') by congruence. subst w'.
    rewrite <- (app_nil_r (trace w)) in Htrace at 1.
    apply app_inv_head in Htrace. subst evs. discriminate.
Qed.

(** C7.  For every translation log, the empty one included,
    [write_csv_log] returns normally and leaves a report file whose
    first row is the header [Language, Key, Original Text, Translated
    Text], followed by exactly one row [lang, key, original, translated]
    per entry, languages in the log's order and entries in their order
    within a language; with an empty log the file is the header alone.
    After a run that completes from process start, the file has the
    header and N times L data rows, N the number of keys of the loaded
    catalog and L the length of the target-language list. *)
Theorem report_has_header_and_one_row_per_entry :
  (forall w : World,
     exists w',
       write_csv_log w = (Ok tt, w')
       /\ dict_get (disk w') CSV_LOG_FILE
          = Some (csv_header :: csv_rows (translation_log w))
       /\ List.length (csv_rows (translation_log w))
          = total_entries (translation_log w)
       /\ translation_log w' = translation_log w
       /\ (translation_log w = [] ->
           dict_get (disk w') CSV_LOG_FILE = Some [csv_header]))
  /\ (forall files (x : X) (w' : World),
        push_translations (initial_world files x) = (Ok tt, w') ->
        exists contents text source_data,
          In (Called (GetContents LOCALE_PATH (py "main")) (Ok contents)) (trace w')
          /\ utf8_decode (decoded_content contents) = Some text
          /\ json_loads text = Ok source_data
          /\ dict_get (disk w') CSV_LOG_FILE
             = Some (csv_header :: csv_rows (translation_log w'))
          /\ List.length (csv_rows (translation_log w'))
             = (List.length source_data * List.length (TARGET_LANGS cfg))%nat).
Proof.
  split.
  - intros w. destruct (write_csv_log_run w) as (d' & Hw & Hget & _).
    eexists. split; [exact Hw|]. cbn [disk translation_log].
    repeat split; try assumption.
    + apply length_csv_rows.
    + intros Hempty. rewrite Hget, Hempty. reflexivity.
  - intros files x w' Hrun.
    destruct (push_translations_ok_inv _ Hrun)
      as (contents & text & src & w1 & w2 & w3 & Hin & Hdec & Hjson & Hlog1 & _ & Hp & Hq & Hs).
    exists contents, text, src.
    assert (E : extends w1 w').
    { pose proof (extends_publish_languages src (TARGET_LANGS cfg) w1) as E1.
      rewrite Hp in E1.
      pose proof (extends_ensure_pull_request w2) as E2. rewrite Hq in E2.
      pose proof (extends_send_translation_email w3) as E3. rewrite Hs in E3.
      eauto using extends_trans. }
    destruct (publish_languages_log _ _ _ Hp) as (rounds & Hm & Hf & Hlog2).
    pose proof (keeps_ensure_pull_request (@translation_log X)
                  (fun _ _ => eq_refl) (fun _ _ => eq_refl) w2) as K2.
    unfold keeps in K2; rewrite Hq in K2; simpl in K2.
    pose proof (send_translation_email_run w3) as H3.
    destruct (report_html cfg (total_tokens_used w3) (translation_log w3)) as [html|] eqn:Eh;
      [|rewrite H3 in Hs; discriminate].
    clear H3. destruct (send_translation_email_delivered w3 Eh)
      as (d' & x' & session & Hs' & Hget & _).
    rewrite Hs' in Hs. injection Hs as <-. cbn [disk translation_log].
    repeat split; try assumption.
    + eapply extends_in; eassumption.
    + rewrite length_csv_rows, K2, Hlog2, Hlog1.
      rewrite (total_entries_rounds_extended _ Hf). simpl.
      rewrite <- Hm, length_map. lia.
Qed.

(** C8.  Whenever [send_translation_email] hands a message to
    [sendmail], its HTML body is the report for the current Usage
    Counter and log: the head shows, after [Estimated cost], the counter
    converted to a float, multiplied by the float [0.00001] and rendered
    with four decimals; and for every language of the log the body
    holds the sub-header, written out here character by character: the
    upper-cased language code, the language's final cumulative token
    count (the fourth component of its last entry, 0 for an empty list)
    with thousands separators and, after the dollar sign, that count
    converted to a float, multiplied by the same rate and rendered with
    four decimals. *)
Theorem report_shows_estimated_costs
    (w w' : World) (o : result unit) (evs : list event) (ev : event) (html : pystr)
    (Hrun : send_translation_email w = (o, w'))
    (Htrace : trace w' = trace w ++ evs)
    (Hin : In ev evs)
    (Hsent : sent_html ev = Some html) :
  report_html cfg (total_tokens_used w) (translation_log w) = Some html
  /\ (exists total_cost pre post,
        estimated_cost (total_tokens_used w) = Some total_cost
        /\ html = pre ++ py "    Estimated cost: <b>$"
                      ++ Float64.format_4f total_cost ++ py " USD</b></p>" ++ post)
  /\ (forall lang entries, In (lang, entries) (translation_log w) ->
        exists lang_cost pre post,
          estimated_cost (final_count entries) = Some lang_cost
          /\ html = pre ++ py "<h3 style='color:#1a73e8;'>" ++ upper lang
                        ++ py " (≈ " ++ of_N_grouped (final_count entries)
                        ++ py " tokens | $" ++ Float64.format_4f lang_cost
                        ++ py ")</h3>" ++ post)
  /\ (forall tokens : N,
        estimated_cost tokens
        = match Float64.of_int tokens with
          | Some f => Some (Float64.mul f Float64.rate_literal)
          | None => None
          end)
  /\ (forall entries e, final_count (entries ++ [e]) = entry_tokens e)
  /\ final_count [] = 0.
Proof.
  pose proof (send_translation_email_run w) as H.
  destruct (report_html cfg (total_tokens_used w) (translation_log w)) as [h|] eqn:Eh.
  - clear H. destruct (send_translation_email_delivered w Eh)
      as (d' & x' & session & Hs & _ & _ & _ & _ & Hmsg).
    rewrite Hs in Hrun.
    match type of Hrun with (_, ?W) = _ => assert (Hw' : W = w') by congruence end.
    subst w'. clear Hrun. cbn [trace] in Htrace.
    apply app_inv_head in Htrace. subst evs.
    assert (Hh : html = h).
    { apply in_app_or in Hin. destruct Hin as [Hin|Hin].
      - unfold report_file_events in Hin. cbn [In] in Hin.
        repeat (destruct Hin as [<-|Hin]; [discriminate Hsent|]). contradiction.
      - eapply Hmsg; eassumption. }
    subst h. unfold report_html in Eh.
    destruct (estimated_cost (total_tokens_used w)) as [cost|] eqn:Ec; [|discriminate].
    destruct (language_blocks (translation_log w)) as [blocks|] eqn:Eb; [|discriminate].
    assert (Eh' : html_head cfg (total_tokens_used w) cost ++ blocks
                  ++ py "</body></html>" = html) by congruence.
    clear Eh. rename Eh' into Eh.
    split; [reflexivity|]. split; [|split; [|split; [|split]]].
    + exists cost.
      exists (nl ++ py "    <html><body style='font-family:Arial, sans-serif;'>" ++ nl
                 ++ py "    <h2 style='color:#2c3e50;'>" ++ report_title
                 ++ py "</h2>" ++ nl
                 ++ py "    <p style='font-size:14px;'>Model used: <b>" ++ model cfg
                 ++ py "</b><br>" ++ nl
                 ++ py "    Total tokens used: <b>"
                 ++ of_N_grouped (total_tokens_used w) ++ py "</b><br>" ++ nl).
      exists (nl ++ py "    <hr>" ++ nl ++ py "    " ++ blocks ++ py "</body></html>").
      split; [reflexivity|]. rewrite <- Eh. unfold html_head.
      rewrite <- !app_assoc. reflexivity.
    + intros lang entries Hl.
      destruct (@language_blocks_in lang entries _ _ Eb Hl)
        as (lc & pre & post & Hc & ->).
      exists lc, (html_head cfg (total_tokens_used w) cost ++ pre).
      exists (table_open ++ table_head ++ List.concat (map html_row entries)
                ++ py "</table><br>" ++ post ++ py "</body></html>").
      split; [assumption|]. rewrite <- Eh. unfold language_block, html_lang_header.
      rewrite <- !app_assoc. reflexivity.
    + intros tokens. unfold estimated_cost.
      destruct (Float64.of_int tokens); reflexivity.
    + intros entries e. unfold final_count. rewrite last_last.
      destruct entries; reflexivity.
    + reflexivity.
  - rewrite H in Hrun.
    assert (Hw' : w = w') by congruence. subst w'.
    rewrite <- (app_nil_r (trace w)) in Htrace at 1.
    apply app_inv_head in Htrace. subst evs. contradiction.
Qed.

(** *** The Repository Publisher *)

(** [ensure_branch] never raises: whatever error the creation of the
    branch raises is caught, and the same line is printed. *)
Lemma ensure_branch_run (main : Branch) (w : World) :
  let r := CreateGitRef (py "refs/heads/" ++ BRANCH_NAME) (commit_sha main) in
  exists w',
    ensure_branch main w = (Ok tt, w')
    /\ remote w' = snd (serve r (remote w))
    /\ trace w' = trace w ++
         match fst (serve r (remote w)) with
         | Ok u => [Called r (Ok u)]
         | Raise e => [Called r (Raise e); Printed branch_exists_line]
         end.
Proof.
  unfold Script.ensure_branch, try_except, Script.call, print, update.
  destruct (serve _ (remote w)) as [[[]|e] x']; eexists;
    (split; [reflexivity|]);
    lazy beta iota delta [log_event set_remote translation_log
                            total_tokens_used disk remote trace fst snd];
    rewrite <- ?app_assoc; split; reflexivity.
Qed.

(** The first steps of a run, one by one. *)
Lemma push_translations_steps (w : World) :
  let '(o1, w1) := call (GetRepo (GITHUB_TOKEN cfg) (GITHUB_REPO cfg)) w in
  match o1 with
  | Raise e => push_translations w = (Raise e, w1)
  | Ok _ =>
    let '(o2, w2) := call (GetBranch (py "main")) w1 in
    match o2 with
    | Raise e => push_translations w = (Raise e, w2)
    | Ok main =>
      let r := CreateGitRef (py "refs/heads/" ++ BRANCH_NAME) (commit_sha main) in
      exists w3,
        ensure_branch main w2 = (Ok tt, w3)
        /\ trace w3 = trace w2 ++
             match fst (serve r (remote w2)) with
             | Ok u => [Called r (Ok u)]
             | Raise e => [Called r (Raise e); Printed branch_exists_line]
             end
        /\ let '(o4, w4) := call (GetContents LOCALE_PATH (py "main")) w3 in
           match o4 with
           | Raise e => push_translations w = (Raise e, w4)
           | Ok contents =>
             match utf8_decode (decoded_content contents) with
             | None => push_translations w = (Raise unicode_decode_error, w4)
             | Some text =>
               match json_loads text with
               | Raise e => push_translations w = (Raise e, w4)
               | Ok source_data =>
                 push_translations w
                 = (publish_languages source_data (TARGET_LANGS cfg) ;;
                    ensure_pull_request ;;
                    send_translation_email) w4
               end
             end
           end
    end
  end.
Proof.
  unfold Script.push_translations.
  destruct (call (GetRepo _ _) w) as [[u1|e1] w1] eqn:E1;
    [|rewrite (bind_raise _ _ _ E1); reflexivity].
  rewrite (bind_ok _ _ _ E1).
  destruct (call (GetBranch _) w1) as [[main|e2] w2] eqn:E2;
    [|rewrite (bind_raise _ _ _ E2); reflexivity].
  rewrite (bind_ok _ _ _ E2).
  destruct (ensure_branch_run main w2) as (w3 & E3 & _ & Ht).
  exists w3. split; [exact E3|]. split; [exact Ht|].
  rewrite (bind_ok _ _ _ E3).
  destruct (call (GetContents _ _) w3) as [[contents|e4] w4] eqn:E4;
    [|rewrite (bind_raise _ _ _ E4); reflexivity].
  rewrite (bind_ok _ _ _ E4).
  assert (D : decode (X:=X) (decoded_content contents) w4
              = match utf8_decode (decoded_content contents) with
                | Some t => (Ok t, w4)
                | None => (Raise unicode_decode_error, w4)
                end)
    by (unfold decode; destruct (utf8_decode _); reflexivity).
  destruct (utf8_decode (decoded_content contents)) as [text|];
    [|rewrite (bind_raise _ _ _ D); reflexivity].
  rewrite (bind_ok _ _ _ D).
  assert (J : of_result (X:=X) (json_loads text) w4 = (json_loads text, w4))
    by reflexivity.
  destruct (json_loads text) as [src|e];
    [rewrite (bind_ok _ _ _ J) | rewrite (bind_raise _ _ _ J)]; reflexivity.
Qed.

(** C9, as amended.  An error raised while resolving the repository,
    resolving the main branch, fetching the catalog file, decoding it or
    parsing it is not caught: the run ends with that exception and does
    nothing further.  The creation of the working branch is different:
    every error it raises, whether or not the branch already exists, is
    caught, the line [Branch translations-auto already exists] is
    printed, and the run continues with the fetch of the catalog. *)
Theorem early_errors_abort_except_branch_creation (w : World) :
  let '(o1, w1) := call (GetRepo (GITHUB_TOKEN cfg) (GITHUB_REPO cfg)) w in
  match o1 with
  | Raise e => push_translations w = (Raise e, w1)
  | Ok _ =>
    let '(o2, w2) := call (GetBranch (py "main")) w1 in
    match o2 with
    | Raise e => push_translations w = (Raise e, w2)
    | Ok main =>
      let r := CreateGitRef (py "refs/heads/" ++ BRANCH_NAME) (commit_sha main) in
      exists w3,
        ensure_branch main w2 = (Ok tt, w3)
        /\ trace w3 = trace w2 ++
             match fst (serve r (remote w2)) with
             | Ok u => [Called r (Ok u)]
             | Raise e => [Called r (Raise e); Printed branch_exists_line]
             end
        /\ let '(o4, w4) := call (GetContents LOCALE_PATH (py "main")) w3 in
           match o4 with
           | Raise e => push_translations w = (Raise e, w4)
           | Ok contents =>
             match utf8_decode (decoded_content contents) with
             | None => push_translations w = (Raise unicode_decode_error, w4)
             | Some text =>
               match json_loads text with
               | Raise e => push_translations w = (Raise e, w4)
               | Ok source_data =>
                 push_translations w
                 = (publish_languages source_data (TARGET_LANGS cfg) ;;
                    ensure_pull_request ;;
                    send_translation_email) w4
               end
             end
           end
    end
  end.
Proof. exact (push_translations_steps w). Qed.

(** What the [try: create / except: update] block does. *)
Lemma create_or_update_run (lang path blob : pystr) (w : World) :
  let '(o1, w1) :=
    call (CreateFile path (py "Add " ++ lang ++ py " translation") blob
            BRANCH_NAME clinton) w in
  match o1 with
  | Ok _ => create_or_update lang path blob w = (Ok tt, w1)
  | Raise _ =>
    let '(o2, w2) := call (GetContents path BRANCH_NAME) w1 in
    match o2 with
    | Raise e => create_or_update lang path blob w = (Raise e, w2)
    | Ok current =>
      create_or_update lang path blob w
      = call (UpdateFile path (py "Update " ++ lang ++ py " translation") blob
                (sha current) BRANCH_NAME clinton) w2
    end
  end.
Proof.
  unfold Script.create_or_update, try_except.
  destruct (call (CreateFile _ _ _ _ _) w) as [[[]|e1] w1]; [reflexivity|].
  unfold bind. destruct (call (GetContents _ _) w1) as [[current|e2] w2]; reflexivity.
Qed.

(** C4, as amended.  For every language the publisher first attempts to
    create the output file; if that succeeds the step is done; on any
    creation error, whatever it is, it fetches the current file on the
    working branch and then updates the file with the revision marker
    just fetched.  An error raised by that fetch or by the update is not
    caught.  In the loop over the languages, a step that returned
    normally is followed by the remaining languages, and a step that
    raised ends the loop with that exception: the remaining languages
    are not processed. *)
Theorem creation_errors_fall_back_to_update :
  (forall (lang path blob : pystr) (w : World),
     let '(o1, w1) :=
       call (CreateFile path (py "Add " ++ lang ++ py " translation") blob
               BRANCH_NAME clinton) w in
     match o1 with
     | Ok _ => create_or_update lang path blob w = (Ok tt, w1)
     | Raise _ =>
       let '(o2, w2) := call (GetContents path BRANCH_NAME) w1 in
       match o2 with
       | Raise e => create_or_update lang path blob w = (Raise e, w2)
       | Ok current =>
         create_or_update lang path blob w
         = call (UpdateFile path (py "Update " ++ lang ++ py " translation") blob
                   (sha current) BRANCH_NAME clinton) w2
       end
     end)
  /\ (forall (source_data : dict pystr) (lang : pystr) (w : World),
        let '(_, w0) := print [py "Translating to " ++ lang ++ py "..."] w in
        match translate_locale source_data lang w0 with
        | (Ok translated, w1) =>
          publish_language source_data lang w
          = create_or_update lang (py "locales/" ++ lang ++ py ".json")
              (Json.dumps translated) w1
        | (Raise e, w1) => publish_language source_data lang w = (Raise e, w1)
        end)
  /\ (forall (source_data : dict pystr) (lang : pystr) (rest : list pystr)
             (w : World),
        match publish_language source_data lang w with
        | (Ok _, w1) =>
          publish_languages source_data (lang :: rest) w
          = publish_languages source_data rest w1
        | (Raise e, w1) =>
          publish_languages source_data (lang :: rest) w = (Raise e, w1)
        end).
Proof.
  split; [exact create_or_update_run|]. split.
  - intros src lang w. unfold Script.publish_language, print, update, bind.
    destruct (translate_locale src lang _) as [[tr|e] w1]; reflexivity.
  - intros src lang rest w. cbn [Script.publish_languages]. unfold bind.
    destruct (publish_language src lang w) as [[u|e] w1]; reflexivity.
Qed.

(** What [ensure_pull_request] does. *)
Lemma ensure_pull_request_run (w : World) :
  let '(o, w1) :=
    call (GetPullsTotalCount (py "open") (py "ClintUK:" ++ BRANCH_NAME)
            (py "main")) w in
  match o with
  | Raise e => ensure_pull_request w = (Raise e, w1)
  | Ok n =>
    if n =? 0
    then ensure_pull_request w
         = call (CreatePull pr_title pr_body BRANCH_NAME (py "main")) w1
    else ensure_pull_request w = (Ok tt, log_event (Printed pr_exists_line) w1)
  end.
Proof.
  unfold Script.ensure_pull_request, bind, pr_head_filter.
  destruct (call (GetPullsTotalCount _ _ _) w) as [[n|e] w1]; [|reflexivity].
  destruct (n =? 0); reflexivity.
Qed.

(** *** Invariants of the remote state *)

Section RemoteInvariant.

Variable I : X -> Prop.
Variable allowed : forall A : Type, request A -> bool.
Hypothesis I_serve :
  forall A (r : request A) x, allowed r = true -> I x -> I (snd (serve r x)).

Lemma carries_refl (w : World) : carries I w w.
Proof. unfold carries; auto. Qed.

Lemma carries_trans (a b c : World) : carries I a b -> carries I b c -> carries I a c.
Proof. unfold carries; auto. Qed.

Lemma carries_update (g : World -> World) :
  (forall w, remote (g w) = remote w) -> respects (carries I) (update g).
Proof. intros H w. unfold carries, update; simpl. rewrite H; auto. Qed.

Lemma carries_call {A} (r : request A) :
  allowed r = true -> respects (carries I) (call r).
Proof.
  intros Hr w Hw. unfold Script.call.
  pose proof (@I_serve A r (remote w) Hr Hw) as H.
  destruct (serve r (remote w)) as [o x']; exact H.
Qed.

Create HintDb carry.

Ltac carries_tac :=
  repeat
    lazymatch goal with
    | |- respects _ (bind _ _) => apply (respects_bind carries_trans); [|intro]
    | |- respects _ (try_except _ _) =>
      apply (respects_try_except carries_trans); [|intro]
    | |- respects _ (with_ _ _ _) =>
      apply (respects_with carries_trans); [| |intro]
    | |- respects _ (ret _) => apply (respects_ret carries_refl)
    | |- respects _ (raise _) => apply (respects_raise carries_refl)
    | |- respects _ (read _) => apply (respects_read carries_refl)
    | |- respects _ (of_result _) => apply (respects_of_result carries_refl)
    | |- respects _ (call _) => apply carries_call; assumption
    | |- respects _ (update _) => apply carries_update; intros; reflexivity
    | |- respects _ (if ?b then _ else _) => destruct b
    | |- respects _ (match ?o with Some _ => _ | None => _ end) => destruct o
    | |- respects _ _ => solve [auto with carry]
    end.

Lemma carries_translate_items items lang d n :
  (forall m c t, allowed (ChatCompletionsCreate m c t) = true) ->
  respects (carries I) (translate_items items lang d n).
Proof.
  intros Hchat. revert d n; induction items as [|[key value] items IH]; intros d n;
    cbn [Script.translate_items]; unfold Script.translate_text; carries_tac.
  apply carries_call, Hchat.
Qed.

Lemma carries_write_entries lang entries :
  respects (carries I) (write_entries (X:=X) lang entries).
Proof.
  induction entries as [|[[[k o] t] n] entries IH]; cbn [write_entries];
    unfold writerow; carries_tac.
Qed.

#[local] Hint Resolve carries_write_entries : carry.

Lemma carries_write_languages items :
  respects (carries I) (write_languages (X:=X) items).
Proof.
  induction items as [|[lang entries] rest IH]; cbn [write_languages]; carries_tac.
Qed.

#[local] Hint Resolve carries_write_languages : carry.

Lemma carries_html_languages items html :
  respects (carries I) (html_languages (X:=X) items html).
Proof.
  revert html; induction items as [|[lang entries] rest IH]; intros html;
    cbn [html_languages]; unfold times_rate; carries_tac.
Qed.

#[local] Hint Resolve carries_html_languages : carry.

Lemma carries_send_translation_email :
  (forall A (r : request A), is_smtp r = true -> allowed r = true) ->
  respects (carries I) send_translation_email.
Proof.
  intros Hsmtp.
  unfold Script.send_translation_email, Script.deliver, times_rate,
    write_csv_log, read_file, open_w, close, writerow, print.
  carries_tac; apply carries_call, Hsmtp; reflexivity.
Qed.

End RemoteInvariant.

(** *** What a run adds to the trace *)

Section Added.

Variable p : event -> bool.

Lemma adds_refl (w : World) : adds p w w.
Proof. exists []. rewrite app_nil_r. split; reflexivity. Qed.

Lemma adds_trans (a b c : World) : adds p a b -> adds p b c -> adds p a c.
Proof.
  intros (e1 & H1 & P1) (e2 & H2 & P2). exists (e1 ++ e2).
  rewrite H2, H1, app_assoc, forallb_app, P1, P2. split; reflexivity.
Qed.

Lemma adds_update (g : World -> World) :
  (forall w, adds p w (g w)) -> respects (adds p) (update g).
Proof. intros H w; apply H. Qed.

Lemma adds_call {B} (r : request B) :
  (forall o, p (Called r o) = true) -> respects (adds p) (call r).
Proof.
  intros Hr w. unfold Script.call. destruct (serve r (remote w)) as [o x'].
  exists [Called r o]. split; [reflexivity|]. simpl. rewrite Hr. reflexivity.
Qed.

Lemma adds_silent (g : World -> World) :
  (forall w, trace (g w) = trace w) -> respects (adds p) (update g).
Proof.
  intros H w. exists []. unfold update; simpl. rewrite H, app_nil_r.
  split; reflexivity.
Qed.

Lemma adds_event (ev : World -> event) (g : World -> World) :
  (forall w, trace (g w) = trace w) -> (forall w, p (ev w) = true) ->
  respects (adds p) (update (fun w => log_event (ev w) (g w))).
Proof.
  intros H Hp w. exists [ev w]. unfold update; simpl. rewrite H, Hp.
  split; reflexivity.
Qed.

End Added.

Lemma adds_weaken (p q : event -> bool) (w w' : World) :
  (forall ev, p ev = true -> q ev = true) -> adds p w w' -> adds q w w'.
Proof.
  intros Hpq (evs & H & Hp). exists evs. split; [exact H|].
  rewrite forallb_forall in *. auto.
Qed.

Lemma respects_adds_weaken (p q : event -> bool) {A} (m : M A) :
  (forall ev, p ev = true -> q ev = true) ->
  respects (adds p) m -> respects (adds q) m.
Proof. intros Hpq H w. eapply adds_weaken; [exact Hpq | apply H]. Qed.

Create HintDb added.

Ltac adds_tac :=
  repeat
    lazymatch goal with
    | |- respects _ (bind _ _) => apply (respects_bind (@adds_trans _)); [|intro]
    | |- respects _ (try_except _ _) =>
      apply (respects_try_except (@adds_trans _)); [|intro]
    | |- respects _ (with_ _ _ _) =>
      apply (respects_with (@adds_trans _)); [| |intro]
    | |- respects _ (ret _) => apply (respects_ret (@adds_refl _))
    | |- respects _ (raise _) => apply (respects_raise (@adds_refl _))
    | |- respects _ (read _) => apply (respects_read (@adds_refl _))
    | |- respects _ (of_result _) => apply (respects_of_result (@adds_refl _))
    | |- respects _ (call _) =>
      apply adds_call; intros;
      cbv beta iota delta [repo_event repo_call chat_event mail_event author_eqb];
      rewrite ?eqb_refl, ?Z.eqb_refl; reflexivity
    | |- respects _ (update (log_event ?ev)) =>
      apply (adds_event _ (fun _ => ev) (fun w => w)); intros;
      cbv beta iota delta [repo_event chat_event mail_event];
      rewrite ?eqb_refl; reflexivity
    | |- respects _ (update (fun w => log_event _ _)) =>
      apply adds_event; intros;
      cbv beta iota delta [repo_event chat_event mail_event];
      rewrite ?eqb_refl; reflexivity
    | |- respects _ (update _) => apply adds_silent; intros; reflexivity
    | |- respects _ (if ?b then _ else _) => destruct b
    | |- respects _ (match ?o with Some _ => _ | None => _ end) => destruct o
    | |- respects _ _ => solve [auto with added]
    end.

Lemma strs_eqb_refl (l : list pystr) : strs_eqb l l = true.
Proof. induction l as [|x l IH]; simpl; [reflexivity | rewrite eqb_refl, IH; reflexivity]. Qed.

Lemma output_of_in (langs : list pystr) (lang : pystr) :
  In lang langs -> output_of langs (py "locales/" ++ lang ++ py ".json") = true.
Proof.
  intros H. unfold output_of. apply existsb_exists. exists lang.
  split; [exact H | apply eqb_refl].
Qed.

Lemma adds_print (p : event -> bool) args :
  (forall line, p (Printed line) = true) -> respects (adds p) (print (X:=X) args).
Proof.
  intros Hp. unfold print. apply (adds_event p (fun _ => Printed _) (fun w => w));
    [reflexivity | intros; apply Hp].
Qed.

Lemma adds_translate_text text lang :
  respects (adds (chat_event cfg)) (translate_text text lang).
Proof. unfold Script.translate_text. adds_tac. Qed.

#[local] Hint Resolve adds_translate_text : added.

Lemma adds_translate_items items lang d n :
  respects (adds (chat_event cfg)) (translate_items items lang d n).
Proof.
  revert d n; induction items as [|[key value] items IH]; intros d n;
    cbn [Script.translate_items]; adds_tac.
Qed.

Lemma adds_create_or_update langs lang blob :
  In lang langs ->
  respects (adds (repo_event cfg langs))
    (create_or_update lang (py "locales/" ++ lang ++ py ".json") blob).
Proof.
  intros Hl. pose proof (output_of_in _ _ Hl) as Ho.
  unfold Script.create_or_update.
  apply (respects_try_except (@adds_trans _)); [|intro].
  - apply adds_call; intros. cbv beta iota delta [repo_event repo_call author_eqb].
    rewrite Ho, !eqb_refl. reflexivity.
  - apply (respects_bind (@adds_trans _)); [|intro].
    + apply adds_call; intros. cbv beta iota delta [repo_event repo_call].
      rewrite Ho, eqb_refl. apply orb_true_r.
    + apply adds_call; intros. cbv beta iota delta [repo_event repo_call author_eqb].
      rewrite Ho, !eqb_refl. reflexivity.
Qed.

Lemma adds_ensure_branch langs main :
  respects (adds (repo_event cfg langs)) (ensure_branch main).
Proof. unfold Script.ensure_branch, print. adds_tac. Qed.

Lemma adds_ensure_pull_request langs :
  respects (adds (repo_event cfg langs)) ensure_pull_request.
Proof. unfold Script.ensure_pull_request, pr_head_filter, print. adds_tac. Qed.

Lemma adds_write_entries (p : event -> bool) lang entries :
  respects (adds p) (write_entries (X:=X) lang entries).
Proof.
  induction entries as [|[[[k o] t] n] entries IH]; cbn [write_entries];
    unfold writerow; adds_tac.
Qed.

#[local] Hint Resolve adds_write_entries : added.

Lemma adds_write_languages (p : event -> bool) items :
  respects (adds p) (write_languages (X:=X) items).
Proof.
  induction items as [|[lang entries] rest IH]; cbn [write_languages]; adds_tac.
Qed.

#[local] Hint Resolve adds_write_languages : added.

Lemma adds_html_languages (p : event -> bool) items html :
  respects (adds p) (html_languages (X:=X) items html).
Proof.
  revert html; induction items as [|[lang entries] rest IH]; intros html;
    cbn [html_languages]; unfold times_rate; adds_tac.
Qed.

#[local] Hint Resolve adds_html_languages : added.

Lemma adds_deliver msg : respects (adds (mail_event cfg)) (deliver msg).
Proof.
  unfold Script.deliver, print.
  apply (respects_try_except (@adds_trans _)); [|intro; adds_tac].
  apply (respects_with (@adds_trans _)); [adds_tac | adds_tac | intro].
  do 2 (apply (respects_bind (@adds_trans _)); [adds_tac | intro]).
  apply (respects_bind (@adds_trans _)); [|intro; adds_tac].
  apply adds_call; intros. cbv beta iota delta [mail_event].
  rewrite eqb_refl. apply strs_eqb_refl.
Qed.

#[local] Hint Resolve adds_deliver : added.

Lemma adds_send_translation_email :
  respects (adds (mail_event cfg)) send_translation_email.
Proof.
  unfold Script.send_translation_email, times_rate,
    write_csv_log, read_file, open_w, close, writerow.
  adds_tac.
Qed.

Lemma repo_event_publish langs ev :
  repo_event cfg langs ev = true -> publish_event cfg langs ev = true.
Proof. unfold publish_event. intros ->. reflexivity. Qed.

Lemma chat_event_publish langs ev :
  chat_event cfg ev = true -> publish_event cfg langs ev = true.
Proof. unfold publish_event. intros ->. apply orb_true_r. Qed.

Lemma output_of_incl (a b : list pystr) path :
  incl a b -> output_of a path = true -> output_of b path = true.
Proof.
  unfold output_of. intros Hab H. apply existsb_exists in H.
  destruct H as (l & Hl & E). apply existsb_exists. exists l. auto.
Qed.

Lemma adds_publish_language langs src lang :
  In lang langs ->
  respects (adds (publish_event cfg langs)) (publish_language src lang).
Proof.
  intros Hl. unfold Script.publish_language, Script.translate_locale.
  apply (respects_bind (@adds_trans _)); [|intro].
  - apply adds_print. reflexivity.
  - apply (respects_bind (@adds_trans _)); [|intro].
    + eapply respects_adds_weaken; [apply chat_event_publish | apply adds_translate_items].
    + eapply respects_adds_weaken;
        [apply repo_event_publish | apply adds_create_or_update; exact Hl].
Qed.

Lemma adds_publish_languages langs src some :
  incl some langs ->
  respects (adds (publish_event cfg langs)) (publish_languages src some).
Proof.
  induction some as [|lang some IH]; intros Hi; cbn [Script.publish_languages].
  - apply (respects_ret (@adds_refl _)).
  - apply (respects_bind (@adds_trans _)); [|intro].
    + apply adds_publish_language. apply Hi. left; reflexivity.
    + apply IH. intros l H. apply Hi. right; exact H.
Qed.

(** *** The steps of a run *)

Lemma quiet_call {B} (r : request B) :
  repo_call cfg (TARGET_LANGS cfg) r = true -> quiet cfg (call r).
Proof.
  intros Hr. split; [|split; [|split]].
  - apply adds_call. intros o. exact Hr.
  - apply (keeps_call (@translation_log X)); reflexivity.
  - apply (keeps_call (@total_tokens_used X)); reflexivity.
  - apply (keeps_call (@disk X)); reflexivity.
Qed.

Lemma quiet_ensure_branch main : quiet cfg (ensure_branch main).
Proof.
  split; [apply adds_ensure_branch|]. split; [|split].
  - apply (keeps_ensure_branch (@translation_log X)); reflexivity.
  - apply (keeps_ensure_branch (@total_tokens_used X)); reflexivity.
  - apply (keeps_ensure_branch (@disk X)); reflexivity.
Qed.

Lemma quiet_ensure_pull_request : quiet cfg ensure_pull_request.
Proof.
  split; [apply adds_ensure_pull_request|]. split; [|split].
  - apply (keeps_ensure_pull_request (@translation_log X)); reflexivity.
  - apply (keeps_ensure_pull_request (@total_tokens_used X)); reflexivity.
  - apply (keeps_ensure_pull_request (@disk X)); reflexivity.
Qed.

Lemma quiet_decode bs : quiet cfg (decode (X:=X) bs).
Proof.
  unfold decode. repeat split; destruct (utf8_decode bs); intros w;
    first [apply adds_refl | reflexivity].
Qed.

Lemma quiet_of_result {A} (r : result A) : quiet cfg (of_result (X:=X) r).
Proof. repeat split; intros w; first [apply adds_refl | reflexivity]. Qed.

Lemma quiet_print args : quiet cfg (print (X:=X) args).
Proof.
  split; [apply adds_print; reflexivity|]. repeat split; intros w; reflexivity.
Qed.

Lemma quiet_create_or_update lang blob :
  In lang (TARGET_LANGS cfg) ->
  quiet cfg (create_or_update lang (py "locales/" ++ lang ++ py ".json") blob).
Proof.
  intros Hl. split; [apply adds_create_or_update; exact Hl|]. split; [|split].
  - apply (keeps_create_or_update (@translation_log X)); reflexivity.
  - apply (keeps_create_or_update (@total_tokens_used X)); reflexivity.
  - apply (keeps_create_or_update (@disk X)); reflexivity.
Qed.

(** What holds of the quiet statements and of [translate_locale], and
    is kept by sequencing, holds of the loop over the languages. *)
Lemma publish_languages_by_steps (S : forall A, M A -> Prop) :
  S unit (ret tt) ->
  (forall A B (m : M A) (k : A -> M B),
     S A m -> (forall a, S B (k a)) -> S B (bind m k)) ->
  (forall A (m : M A), quiet cfg m -> S A m) ->
  (forall src lang, S (dict pystr) (translate_locale src lang)) ->
  forall src some, incl some (TARGET_LANGS cfg) ->
    S unit (publish_languages src some).
Proof.
  intros S_ret S_bind S_quiet S_translate src some.
  induction some as [|lang some IH]; intros Hi; cbn [Script.publish_languages].
  - exact S_ret.
  - apply S_bind; [|intros _; apply IH; intros l H; apply Hi; right; exact H].
    unfold Script.publish_language.
    apply S_bind; [apply S_quiet, quiet_print | intros _].
    apply S_bind; [apply S_translate | intros translated].
    apply S_quiet, quiet_create_or_update. apply Hi. left; reflexivity.
Qed.

(** A run is the quiet steps and the loop over the languages, one after
    the other, then the report mailer. *)
Lemma push_translations_by_steps (S : forall A, M A -> Prop)
    (T : World -> result unit * World -> Prop) :
  (forall A (m : M A), quiet cfg m -> S A m) ->
  (forall src, S unit (publish_languages src (TARGET_LANGS cfg))) ->
  (forall A (m : M A) (k : A -> M unit),
     S A m -> (forall a w, T w (k a w)) -> forall w, T w (bind m k w)) ->
  (forall w, T w (send_translation_email w)) ->
  forall w, T w (push_translations w).
Proof.
  intros S_quiet S_publish T_step T_last.
  unfold Script.push_translations.
  apply T_step; [|intros _].
  { apply S_quiet, quiet_call. simpl. rewrite !eqb_refl. reflexivity. }
  apply T_step; [|intros main].
  { apply S_quiet, quiet_call. reflexivity. }
  apply T_step; [|intros _].
  { apply S_quiet, quiet_ensure_branch. }
  apply T_step; [|intros contents].
  { apply S_quiet, quiet_call. reflexivity. }
  apply T_step; [|intros text].
  { apply S_quiet, quiet_decode. }
  apply T_step; [|intros source_data].
  { apply S_quiet, quiet_of_result. }
  apply T_step; [|intros _].
  { apply S_publish. }
  apply T_step; [|intros _; exact T_last].
  apply S_quiet, quiet_ensure_pull_request.
Qed.

Lemma adds_publish_all src :
  respects (adds (publish_event cfg (TARGET_LANGS cfg)))
    (publish_languages src (TARGET_LANGS cfg)).
Proof.
  apply (publish_languages_by_steps
           (fun A m => respects (adds (publish_event cfg (TARGET_LANGS cfg))) m)).
  - apply (respects_ret (@adds_refl _)).
  - intros A B m k. apply (respects_bind (@adds_trans _)).
  - intros A m [Hm _]. eapply respects_adds_weaken; [apply repo_event_publish | exact Hm].
  - intros s lang. eapply respects_adds_weaken;
      [apply chat_event_publish | apply adds_translate_items].
  - intros l H; exact H.
Qed.

(** A run in two phases: the events of the publishing steps, then those
    of the report mailer. *)
Lemma push_translations_phases (T : World -> result unit * World -> Prop) :
  (forall A (m : M A) (k : A -> M unit),
     respects (adds (publish_event cfg (TARGET_LANGS cfg))) m ->
     (forall a w, T w (k a w)) -> forall w, T w (bind m k w)) ->
  (forall w, T w (send_translation_email w)) ->
  forall w, T w (push_translations w).
Proof.
  intros T_step T_last.
  apply (push_translations_by_steps
           (fun A m => respects (adds (publish_event cfg (TARGET_LANGS cfg))) m));
    try assumption.
  - intros A m [Hm _]. eapply respects_adds_weaken; [apply repo_event_publish | exact Hm].
  - apply adds_publish_all.
Qed.

Lemma adds_push_translations : respects (adds (script_event cfg)) push_translations.
Proof.
  unfold respects.
  apply (push_translations_phases (fun w r => adds (script_event cfg) w (snd r))).
  - intros A m k Hm Hk w. unfold bind. specialize (Hm w).
    assert (Hm' : adds (script_event cfg) w (snd (m w))).
    { eapply adds_weaken; [|exact Hm].
      intros ev Hev. unfold script_event. rewrite Hev. reflexivity. }
    destruct (m w) as [[a|e] w1]; cbn [snd] in *; [|exact Hm'].
    eapply adds_trans; [exact Hm' | apply Hk].
  - intros w. eapply adds_weaken; [|apply adds_send_translation_email].
    intros ev Hev. unfold script_event. rewrite Hev. apply orb_true_r.
Qed.

Lemma script_event_on_working_branch ev :
  script_event cfg ev = true ->
  implb (is_repo_write ev) (on_working_branch cfg ev) = true.
Proof.
  destruct ev as [A r o| | |]; [|reflexivity..].
  destruct r; try reflexivity;
    cbv beta iota delta [script_event publish_event repo_event repo_call chat_event
                           mail_event is_repo_write on_working_branch implb];
    rewrite ?orb_false_r; intros H; try exact H.
  apply andb_true_iff in H. destruct H as [H Hbase].
  apply andb_true_iff in H. destruct H as [_ Hhead].
  apply andb_true_iff. split; [exact Hhead | exact Hbase].
Qed.

Lemma script_event_as_configured ev :
  script_event cfg ev = true -> as_configured cfg ev = true.
Proof.
  destruct ev as [A r o| | |]; [|reflexivity | exact (fun H => H) ..].
  destruct r; try reflexivity;
    cbv beta iota delta [script_event publish_event repo_event repo_call chat_event
                           mail_event as_configured];
    rewrite ?orb_false_r; intros H; exact H.
Qed.

Lemma forallb_impl {A} (p q : A -> bool) (l : list A) :
  (forall x, p x = true -> q x = true) -> forallb p l = true -> forallb q l = true.
Proof. rewrite !forallb_forall. auto. Qed.

(** X3.  Whatever the services answer and wherever the run stops, every
    change [push_translations] makes to the repository is confined to
    the working branch: the only reference it creates is
    [refs/heads/translations-auto]; every file it creates or updates is
    [locales/<lang>.json] for a configured language, on branch
    [translations-auto], committed as Clinton; and the only pull request
    it opens goes from [translations-auto] into [main]. *)
Theorem repository_changes_stay_on_working_branch (w : World) :
  exists evs,
    trace (snd (push_translations w)) = trace w ++ evs
    /\ forallb (fun ev => implb (is_repo_write ev) (on_working_branch cfg ev)) evs
       = true.
Proof.
  destruct (adds_push_translations w) as (evs & Ht & Hp).
  exists evs. split; [exact Ht|].
  revert Hp. apply forallb_impl. exact script_event_on_working_branch.
Qed.

(** X4.  Whatever the services answer, every call of a run uses the
    parameters of the environment: a completion call names the
    configured model (default [gpt-4]) at temperature 0.3; the
    repository is resolved with GITHUB_TOKEN and GITHUB_REPO; the mail
    session connects to SMTP_SERVER (default [smtp.gmail.com]) on
    SMTP_PORT, logs in as EMAIL_FROM with EMAIL_PASSWORD and sends from
    EMAIL_FROM to the comma-separated addresses of EMAIL_TO; and the
    only local file opened or closed is [translation_report.csv]. *)
Theorem run_uses_configured_parameters (w : World) :
  exists evs,
    trace (snd (push_translations w)) = trace w ++ evs
    /\ forallb (as_configured cfg) evs = true.
Proof.
  destruct (adds_push_translations w) as (evs & Ht & Hp).
  exists evs. split; [exact Ht|].
  revert Hp. apply forallb_impl. exact script_event_as_configured.
Qed.

Lemma publish_event_not_mail langs ev :
  publish_event cfg langs ev = true -> is_mail_action ev = false.
Proof.
  destruct ev as [A r o| | |]; [|reflexivity | discriminate ..].
  destruct r; try reflexivity; intros H; discriminate H.
Qed.

Lemma publish_events_not_mail langs evs :
  forallb (publish_event cfg langs) evs = true -> existsb is_mail_action evs = false.
Proof.
  induction evs as [|ev evs IH]; [reflexivity|]. simpl.
  intros H. apply andb_true_iff in H. destruct H as [H1 H2].
  rewrite (publish_event_not_mail _ _ H1), (IH H2). reflexivity.
Qed.

(** X5.  The events of a run fall in two parts.  The first holds
    everything up to the pull request and contains no SMTP call and no
    access to a local file.  The second is the report mailer's: when the
    run returns normally it starts with the writing and the reading back
    of the report file, holding the rows of the final log, followed only
    by SMTP calls and console lines; when the run raises, the second
    part is empty: nothing was written to the report file and the mail
    server was never contacted. *)
Theorem report_is_mailed_only_after_publishing (w : World) :
  exists published mailed,
    trace (snd (push_translations w)) = trace w ++ published ++ mailed
    /\ existsb is_mail_action published = false
    /\ match fst (push_translations w) with
       | Raise _ => mailed = []
       | Ok _ =>
         exists session,
           mailed = report_file_events
                      (report_rows (translation_log (snd (push_translations w))))
                    ++ session
           /\ forallb session_event session = true
       end.
Proof.
  apply (push_translations_phases
           (fun w r =>
              exists published mailed,
                trace (snd r) = trace w ++ published ++ mailed
                /\ existsb is_mail_action published = false
                /\ match fst r with
                   | Raise _ => mailed = []
                   | Ok _ =>
                     exists session,
                       mailed = report_file_events
                                  (report_rows (translation_log (snd r)))
                                ++ session
                       /\ forallb session_event session = true
                   end)).
  - intros A m k Hm Hk w0. unfold bind. specialize (Hm w0).
    destruct (m w0) as [[a|e] w1]; cbn [snd] in Hm;
      destruct Hm as (evs & Ht & Hp); apply publish_events_not_mail in Hp.
    + destruct (Hk a w1) as (published & mailed & Ht' & Hn & Hm').
      exists (evs ++ published), mailed.
      rewrite Ht', Ht, existsb_app, Hp, Hn, <- !app_assoc.
      repeat split. exact Hm'.
    + exists evs, []. cbn [fst snd]. rewrite app_nil_r. repeat split; assumption.
  - intros w0. pose proof (send_translation_email_run w0) as H.
    destruct (report_html cfg (total_tokens_used w0) (translation_log w0))
      as [html|] eqn:Eh.
    + clear H. destruct (send_translation_email_delivered w0 Eh)
        as (d' & x' & session & Hs & _ & Hall & _).
      rewrite Hs. cbn [fst snd trace translation_log].
      exists [], (report_file_events (report_rows (translation_log w0)) ++ session).
      repeat split. exists session. split; [reflexivity | exact Hall].
    + rewrite H. exists [], []. cbn [fst snd]. rewrite app_nil_r. repeat split.
Qed.

(** *** Completion calls that raise *)

Lemma chat_failure_ends_bind {A B} (m : M A) (k : A -> M B) :
  obeys chat_failure_ends m -> (forall a, obeys chat_failure_ends (k a)) ->
  obeys chat_failure_ends (bind m k).
Proof.
  intros Hm Hk w. unfold bind. specialize (Hm w).
  destruct (m w) as [[a|e] w1]; cbn [fst snd exn_of] in *; [|exact Hm].
  destruct Hm as (evs1 & Ht1 & [H1 | (pre & mo & c & t & e & _ & _ & Habs)]);
    [|discriminate Habs].
  destruct (Hk a w1) as (evs2 & Ht2 & H2).
  exists (evs1 ++ evs2). split; [rewrite Ht2, Ht1, app_assoc; reflexivity|].
  destruct H2 as [H2 | (pre & mo & c & t & e & Hevs & Hpre & Ho)].
  - left. rewrite existsb_app, H1, H2. reflexivity.
  - right. exists (evs1 ++ pre), mo, c, t, e.
    rewrite Hevs, app_assoc, existsb_app, H1, Hpre. repeat split. exact Ho.
Qed.

Lemma repo_event_not_chat langs ev :
  repo_event cfg langs ev = true -> chat_call ev = false.
Proof.
  destruct ev as [A r o| | |]; [|reflexivity | discriminate ..].
  destruct r; try reflexivity; intros H; discriminate H.
Qed.

Lemma mail_event_not_chat ev : mail_event cfg ev = true -> chat_call ev = false.
Proof.
  destruct ev as [A r o| | |]; [|reflexivity..].
  destruct r; try reflexivity; intros H; discriminate H.
Qed.

Lemma chat_call_cases ev :
  chat_call ev = false -> chat_failure ev = false /\ chat_answer ev = false.
Proof.
  destruct ev as [A r [c|e]| | |]; simpl; auto.
Qed.

Lemma no_chat_calls (p : event -> bool) evs :
  (forall ev, p ev = true -> chat_call ev = false) -> forallb p evs = true ->
  existsb chat_failure evs = false /\ filter chat_answer evs = [].
Proof.
  intros Hp. induction evs as [|ev evs IH]; [split; reflexivity|]. simpl.
  intros H. apply andb_true_iff in H. destruct H as [H1 H2].
  destruct (chat_call_cases _ (Hp _ H1)) as [-> ->].
  exact (IH H2).
Qed.

Lemma chat_failure_ends_quiet {A} (m : M A) :
  quiet cfg m -> obeys chat_failure_ends m.
Proof.
  intros [Hm _] w. destruct (Hm w) as (evs & Ht & Hp).
  exists evs. split; [exact Ht|]. left.
  exact (proj1 (no_chat_calls _ _ (repo_event_not_chat _) Hp)).
Qed.

Lemma chat_failure_ends_translate_items items lang d n :
  obeys chat_failure_ends (translate_items items lang d n).
Proof.
  assert (G : forall w o w',
            translate_items items lang d n w = (o, w') ->
            chat_failure_ends w (exn_of o) w').
  { revert d n; induction items as [|[key value] items IH]; intros d n w o w' H.
    - apply pair_equal_spec in H. destruct H as [<- <-].
      exists []. rewrite app_nil_r. split; [reflexivity | left; reflexivity].
    - cbn [Script.translate_items] in H. unfold bind at 1 in H.
      rewrite translate_text_run in H.
      destruct (serve _ (remote w)) as [[c|e] x'].
      + unfold bind at 1, update at 1 in H. cbv beta iota in H.
        apply IH in H. destruct H as (evs & Ht & H).
        cbn [set_translation_log translation_log total_tokens_used
               disk remote trace] in Ht.
        eexists (_ :: evs). split; [rewrite Ht, <- app_assoc; reflexivity|].
        destruct H as [H | (pre & mo & c' & t & e & Hevs & Hpre & Ho)].
        * left. cbn [existsb chat_failure]. exact H.
        * right. eexists (_ :: pre), mo, c', t, e. rewrite Hevs.
          cbn [existsb chat_failure]. repeat split; assumption.
      + apply pair_equal_spec in H. destruct H as [<- <-].
        cbn [exn_of trace]. eexists [_]. split; [reflexivity|].
        right. exists [], (model cfg), (build_prompt value lang), (3 # 10), e.
        repeat split. }
  intros w. destruct (translate_items items lang d n w) as [o w'] eqn:E.
  exact (G _ _ _ E).
Qed.

Lemma chat_failure_ends_send : obeys chat_failure_ends send_translation_email.
Proof.
  intros w. destruct (adds_send_translation_email w) as (evs & Ht & Hp).
  exists evs. split; [exact Ht|]. left.
  exact (proj1 (no_chat_calls _ _ mail_event_not_chat Hp)).
Qed.

Lemma chat_failure_ends_push_translations : obeys chat_failure_ends push_translations.
Proof.
  unfold obeys.
  apply (push_translations_by_steps
           (fun A m => obeys chat_failure_ends m)
           (fun w r => chat_failure_ends w (exn_of (fst r)) (snd r))).
  - intros A m. apply chat_failure_ends_quiet.
  - intros src.
    apply (publish_languages_by_steps (fun A m => obeys chat_failure_ends m)).
    + intros w. exists []. cbn. rewrite app_nil_r. split; [reflexivity | left; reflexivity].
    + intros A B m k. apply chat_failure_ends_bind.
    + intros A m. apply chat_failure_ends_quiet.
    + intros s lang. apply chat_failure_ends_translate_items.
    + intros l H; exact H.
  - intros A m k Hm Hk. exact (@chat_failure_ends_bind _ _ m k Hm Hk).
  - exact chat_failure_ends_send.
Qed.

(** X6.  A completion call that raises is never retried and never
    caught.  In one call of [translate_text], of [translate_locale] or
    of [push_translations], started in any world: either no completion
    call raised, or exactly one did, it is the last thing the function
    did, and the function raised that call's exception. *)
Theorem completion_failure_ends_the_run (w : World) :
  (forall text target_lang,
     chat_failure_ends w (exn_of (fst (translate_text text target_lang w)))
       (snd (translate_text text target_lang w)))
  /\ (forall source_dict target_lang,
        chat_failure_ends w
          (exn_of (fst (translate_locale source_dict target_lang w)))
          (snd (translate_locale source_dict target_lang w)))
  /\ chat_failure_ends w (exn_of (fst (push_translations w)))
       (snd (push_translations w)).
Proof.
  split; [|split].
  - intros text lang. rewrite translate_text_run.
    destruct (serve _ (remote w)) as [[c|e] x']; cbn [fst snd exn_of trace];
      eexists [_]; (split; [reflexivity|]).
    + left. reflexivity.
    + right. exists [], (model cfg), (build_prompt text lang), (3 # 10), e.
      repeat split.
  - intros src lang. apply chat_failure_ends_translate_items.
  - apply chat_failure_ends_push_translations.
Qed.

(** *** One entry per answered completion call *)

Lemma entries_follow_answers_refl (w : World) : entries_follow_answers w w.
Proof. exists []. rewrite app_nil_r. split; [reflexivity | simpl; lia]. Qed.

Lemma entries_follow_answers_trans (a b c : World) :
  entries_follow_answers a b -> entries_follow_answers b c ->
  entries_follow_answers a c.
Proof.
  intros (e1 & H1 & N1) (e2 & H2 & N2). exists (e1 ++ e2).
  rewrite H2, H1, app_assoc, filter_app, length_app. split; [reflexivity | lia].
Qed.

Lemma entries_follow_answers_quiet {A} (m : M A) :
  quiet cfg m -> respects entries_follow_answers m.
Proof.
  intros (Hm & Hk & _) w. destruct (Hm w) as (evs & Ht & Hp).
  exists evs. split; [exact Ht|].
  rewrite (proj2 (no_chat_calls _ _ (repo_event_not_chat _) Hp)).
  rewrite (Hk w). simpl. lia.
Qed.

Lemma entries_follow_answers_translate_items items lang d n :
  respects entries_follow_answers (translate_items items lang d n).
Proof.
  assert (G : forall w o w',
            translate_items items lang d n w = (o, w') ->
            entries_follow_answers w w').
  { revert d n; induction items as [|[key value] items IH]; intros d n w o w' H.
    - apply pair_equal_spec in H. destruct H as [_ <-].
      apply entries_follow_answers_refl.
    - cbn [Script.translate_items] in H. unfold bind at 1 in H.
      rewrite translate_text_run in H.
      destruct (serve _ (remote w)) as [[c|e] x'].
      + unfold bind at 1, update at 1 in H. cbv beta iota in H.
        apply IH in H. destruct H as (evs & Ht & Hn).
        cbn [set_translation_log translation_log total_tokens_used
               disk remote trace] in Ht, Hn.
        rewrite total_entries_append in Hn.
        eexists (_ :: evs). split; [rewrite Ht, <- app_assoc; reflexivity|].
        rewrite Hn. cbn [filter chat_answer is_chat List.length]. lia.
      + apply pair_equal_spec in H. destruct H as [_ <-].
        cbn [trace translation_log]. eexists [_]. split; [reflexivity|].
        simpl. lia. }
  intros w. destruct (translate_items items lang d n w) as [o w'] eqn:E.
  exact (G _ _ _ E).
Qed.

Lemma entries_follow_answers_send :
  respects entries_follow_answers send_translation_email.
Proof.
  intros w. destruct (adds_send_translation_email w) as (evs & Ht & Hp).
  exists evs. split; [exact Ht|].
  rewrite (proj2 (no_chat_calls _ _ mail_event_not_chat Hp)).
  rewrite (keeps_send_translation_email (@translation_log X)
             (fun _ _ => eq_refl) (fun _ _ => eq_refl) (fun _ _ => eq_refl) w).
  simpl. lia.
Qed.

Lemma entries_follow_answers_push_translations :
  respects entries_follow_answers push_translations.
Proof.
  unfold respects.
  apply (push_translations_by_steps
           (fun A m => respects entries_follow_answers m)
           (fun w r => entries_follow_answers w (snd r))).
  - intros A m. apply entries_follow_answers_quiet.
  - intros src.
    apply (publish_languages_by_steps (fun A m => respects entries_follow_answers m)).
    + intros w. apply entries_follow_answers_refl.
    + intros A B m k. apply (respects_bind entries_follow_answers_trans).
    + intros A m. apply entries_follow_answers_quiet.
    + intros s lang. apply entries_follow_answers_translate_items.
    + intros l H; exact H.
  - intros A m k Hm Hk w. unfold bind. specialize (Hm w).
    destruct (m w) as [[a|e] w1]; cbn [snd] in *; [|exact Hm].
    eapply entries_follow_answers_trans; [exact Hm | apply Hk].
  - exact entries_follow_answers_send.
Qed.

(** The log of a run that completes from process start: N times L
    entries. *)
Lemma completed_run_total_entries files (x : X) (w' : World) :
  push_translations (initial_world files x) = (Ok tt, w') ->
  exists contents text source_data,
    In (Called (GetContents LOCALE_PATH (py "main")) (Ok contents)) (trace w')
    /\ utf8_decode (decoded_content contents) = Some text
    /\ json_loads text = Ok source_data
    /\ total_entries (translation_log w')
       = (List.length source_data * List.length (TARGET_LANGS cfg))%nat.
Proof.
  intros Hrun.
  destruct (push_translations_ok_inv _ Hrun)
    as (contents & text & src & w1 & w2 & w3 & Hin & Hdec & Hjson & Hlog1 & _ & Hp & Hq & Hs).
  exists contents, text, src.
  assert (E : extends w1 w').
  { pose proof (extends_publish_languages src (TARGET_LANGS cfg) w1) as E1.
    rewrite Hp in E1.
    pose proof (extends_ensure_pull_request w2) as E2. rewrite Hq in E2.
    pose proof (extends_send_translation_email w3) as E3. rewrite Hs in E3.
    eauto using extends_trans. }
  destruct (publish_languages_log _ _ _ Hp) as (rounds & Hm & Hf & Hlog2).
  pose proof (keeps_ensure_pull_request (@translation_log X)
                (fun _ _ => eq_refl) (fun _ _ => eq_refl) w2) as K2.
  unfold keeps in K2; rewrite Hq in K2; simpl in K2.
  pose proof (keeps_send_translation_email (@translation_log X)
                (fun _ _ => eq_refl) (fun _ _ => eq_refl) (fun _ _ => eq_refl) w3) as K3.
  unfold keeps in K3; rewrite Hs in K3; simpl in K3.
  repeat split; try assumption.
  - eapply extends_in; eassumption.
  - rewrite K3, K2, Hlog2, Hlog1.
    rewrite (total_entries_rounds_extended _ Hf). simpl.
    rewrite <- Hm, length_map. lia.
Qed.

Lemma filter_chat_call evs :
  existsb chat_failure evs = false -> filter chat_call evs = filter chat_answer evs.
Proof.
  induction evs as [|ev evs IH]; [reflexivity|]. simpl.
  intros H. apply orb_false_iff in H. destruct H as [H1 H2].
  rewrite (IH H2).
  destruct ev as [A r [c|e]| | |]; simpl in *; try reflexivity.
  rewrite H1. reflexivity.
Qed.

(** X7.  In every world and whatever the services answer, also when
    the run raises, the number of entries [push_translations] adds to
    the translation log equals the number of completion calls that
    were answered.  A run that completes from process start has made
    exactly N times L completion calls, N the number of keys of the
    loaded catalog and L the length of the target-language list; none
    of them raised, and each left one entry in the log. *)
Theorem one_completion_call_per_key_and_language :
  (forall w, entries_follow_answers w (snd (push_translations w)))
  /\ forall (files : dict csv) (x : X) (w' : World),
       push_translations (initial_world files x) = (Ok tt, w') ->
       exists contents text source_data,
         In (Called (GetContents LOCALE_PATH (py "main")) (Ok contents)) (trace w')
         /\ utf8_decode (decoded_content contents) = Some text
         /\ json_loads text = Ok source_data
         /\ List.length (filter chat_call (trace w'))
            = (List.length source_data * List.length (TARGET_LANGS cfg))%nat
         /\ existsb chat_failure (trace w') = false
         /\ total_entries (translation_log w')
            = List.length (filter chat_call (trace w')).
Proof.
  split; [exact entries_follow_answers_push_translations|].
  intros files x w' Hrun.
  destruct (completed_run_total_entries _ _ Hrun)
    as (contents & text & src & Hin & Hdec & Hjson & Htotal).
  exists contents, text, src.
  pose proof (entries_follow_answers_push_translations (initial_world files x)) as Hf.
  pose proof (chat_failure_ends_push_translations (initial_world files x)) as Hc.
  rewrite Hrun in Hf, Hc.
  destruct Hf as (evs & Ht & Hn). destruct Hc as (evs' & Ht' & Hc).
  cbn [fst snd exn_of initial_world trace translation_log app] in Ht, Hn, Ht', Hc.
  assert (E : evs' = evs) by congruence. subst evs'.
  rewrite Ht in *.
  destruct Hc as [Hc | (pre & mo & c & t & e & _ & _ & Habs)]; [|discriminate Habs].
  cbn [total_entries flat_map List.length] in Hn.
  change (total_entries (translation_log w')
          = (0 + List.length (filter chat_answer evs))%nat) in Hn.
  rewrite (filter_chat_call _ Hc).
  repeat split; try assumption; lia.
Qed.

(** *** The mail session *)

(** The session of [deliver], whatever the mail transport answers. *)
Lemma deliver_session (msg : Message) (w : World) :
  exists x' evs,
    deliver msg w
    = (Ok tt, mkWorld (translation_log w) (total_tokens_used w) (disk w) x'
                (trace w ++ evs))
    /\ session_in_order cfg evs = true
    /\ (forall ev m, In ev evs -> sent_message ev = Some m -> m = msg).
Proof.
  unfold Script.deliver, try_except, with_, bind, Script.call, print, update.
  repeat
    match goal with
    | |- context [serve ?r ?x] =>
      let e := fresh "e" in let x' := fresh "x" in
      destruct (serve r x) as [[[]|e] x']
    end;
    lazy beta iota delta [log_event set_remote translation_log
                            total_tokens_used disk remote trace];
    rewrite <- ?app_assoc; cbn [app];
    (eexists; eexists; split; [reflexivity|]);
    (split;
     [unfold session_in_order, sent_line, failed_line;
      cbn [session_run session_step after]; rewrite ?eqb_refl;
      cbn [session_run session_step after]; rewrite ?eqb_refl; reflexivity|]).
  all: intros ev m Hin Hev; simpl in Hin;
    repeat (destruct Hin as [<-|Hin];
            [simpl in Hev; try discriminate Hev; congruence|]);
    contradiction.
Qed.

Ltac session_cases H :=
  repeat match type of H with
         | match ?x with _ => _ end = _ => destruct x
         | (if ?b then _ else _) = _ => destruct b
         end;
  try discriminate H.

(** Every step of the protocol moves the session forward. *)
Lemma session_step_forward c s ev s' :
  session_step c s ev = Some s' -> (stage_rank s < stage_rank s')%nat.
Proof.
  clear. unfold session_step, after. intros H. session_cases H;
    injection H as <-;
    try match goal with o : result _ |- _ => destruct o end; simpl; lia.
Qed.

Lemma session_run_app c s a b :
  session_run c s (a ++ b)
  = match session_run c s a with
    | Some s' => session_run c s' b
    | None => None
    end.
Proof.
  revert s; induction a as [|ev a IH]; intros s; simpl; [reflexivity|].
  destruct (session_step c s ev); [apply IH | reflexivity].
Qed.

Lemma session_run_reached c pre s :
  session_run c Idle pre = Some s -> stage_reached s pre.
Proof.
  clear. revert s. induction pre as [|ev pre IH] using rev_ind; intros s H.
  - simpl in H. injection H as <-. reflexivity.
  - rewrite session_run_app in H.
    destruct (session_run c Idle pre) as [s0|] eqn:E0; [|discriminate H].
    specialize (IH _ eq_refl). cbn [session_run] in H.
    destruct (session_step c s0 ev) as [s1|] eqn:E1; [|discriminate H].
    injection H as <-. unfold session_step, after in E1.
    destruct ev as [A r o|line| |]; try discriminate E1.
    + destruct r; try discriminate E1; destruct s0; try discriminate E1;
        injection E1 as <-; destruct o; simpl; rewrite ?existsb_app; simpl;
        rewrite ?orb_false_r, ?orb_true_r; try exact I; try reflexivity.
      simpl in IH. split; [exact IH | reflexivity].
    + destruct s0; try discriminate E1; destruct (Str.eqb _ _);
        try discriminate E1; injection E1 as <-; exact I.
Qed.

Lemma session_sends_once c s evs s' :
  session_run c s evs = Some s' ->
  (List.length (filter is_sendmail evs)
   <= if (stage_rank s <=? 3)%nat then 1 else 0)%nat.
Proof.
  clear. revert s; induction evs as [|ev evs IH]; intros s H; simpl.
  - destruct (stage_rank s <=? 3)%nat; lia.
  - simpl in H. destruct (session_step c s ev) as [s1|] eqn:E1; [|discriminate H].
    pose proof (session_step_forward _ _ _ E1) as Hlt.
    specialize (IH _ H).
    destruct (is_sendmail ev) eqn:Es.
    + assert (Hs : s = LoggedIn /\ (4 <= stage_rank s1)%nat).
      { unfold session_step, after in E1.
        destruct ev as [A r o| | |]; try discriminate Es.
        destruct r; try discriminate Es.
        destruct s; try discriminate E1. injection E1 as <-.
        split; [reflexivity|]. destruct o; simpl; lia. }
      destruct Hs as [-> Hge]. simpl.
      destruct (stage_rank s1 <=? 3)%nat eqn:El;
        [apply Nat.leb_le in El; lia | lia].
    + destruct (stage_rank s1 <=? 3)%nat eqn:El; [|lia].
      apply Nat.leb_le in El.
      destruct (stage_rank s <=? 3)%nat eqn:El'; [lia|].
      apply Nat.leb_gt in El'. lia.
Qed.

(** In a session that follows the protocol, the password is sent only
    after STARTTLS succeeded, and a message only after the login
    succeeded too. *)
Lemma session_secured_before_login c pre ev post :
  session_in_order c (pre ++ ev :: post) = true ->
  (is_login ev = true -> existsb starttls_answered pre = true)
  /\ (is_sendmail ev = true ->
      existsb starttls_answered pre = true /\ existsb login_answered pre = true).
Proof.
  clear. unfold session_in_order. rewrite session_run_app.
  destruct (session_run c Idle pre) as [s0|] eqn:E0; [|discriminate].
  pose proof (session_run_reached _ _ E0) as Hr.
  cbn [session_run]. destruct (session_step c s0 ev) as [s1|] eqn:E1; [|discriminate].
  intros _. unfold session_step in E1. split; intros Hev.
  - destruct ev as [A r o| | |]; try discriminate Hev.
    destruct r; try discriminate Hev.
    destruct s0; try discriminate E1. exact Hr.
  - destruct ev as [A r o| | |]; try discriminate Hev.
    destruct r; try discriminate Hev.
    destruct s0; try discriminate E1. exact Hr.
Qed.

(** X8.  Whatever the mail transport answers, the report mailer either
    stops on an overflowing cost before doing anything, or returns
    normally after writing and reading back the report file and a mail
    session that follows the protocol: connect, STARTTLS, login, send,
    the success line, QUIT; with QUIT after any step that raised on an
    open connection, and then the failure line for the exception in
    flight.  In particular the password is sent only after STARTTLS
    succeeded, a message is sent only after the login succeeded too,
    and at most one message is sent. *)
Theorem mail_session_follows_protocol (w : World) :
  let rows := report_rows (translation_log w) in
  match report_html cfg (total_tokens_used w) (translation_log w) with
  | None => send_translation_email w = (Raise overflow_error, w)
  | Some _ =>
    exists session,
      fst (send_translation_email w) = Ok tt
      /\ trace (snd (send_translation_email w))
         = trace w ++ report_file_events rows ++ session
      /\ session_in_order cfg session = true
      /\ (List.length (filter is_sendmail session) <= 1)%nat
      /\ forall pre ev post, session = pre ++ ev :: post ->
           (is_login ev = true -> existsb starttls_answered pre = true)
           /\ (is_sendmail ev = true ->
               existsb starttls_answered pre = true
               /\ existsb login_answered pre = true)
  end.
Proof.
  intros rows. pose proof (send_translation_email_run w) as H.
  destruct (report_html cfg (total_tokens_used w) (translation_log w)) as [html|];
    [|exact H].
  destruct H as (d' & Hrun & _).
  match type of Hrun with _ = deliver ?m ?w2 =>
    destruct (deliver_session m w2) as (x' & session & Hd & Hs & _) end.
  cbn [translation_log total_tokens_used disk remote trace] in Hd.
  exists session. rewrite Hrun, Hd. cbn [fst snd trace].
  split; [reflexivity|]. split; [rewrite <- app_assoc; reflexivity|].
  split; [exact Hs|]. split.
  - unfold session_in_order in Hs.
    destruct (session_run cfg Idle session) as [s'|] eqn:E; [|discriminate Hs].
    exact (session_sends_once _ _ _ E).
  - intros pre ev post ->. exact (@session_secured_before_login cfg pre ev post Hs).
Qed.

(** X9.  Every message the report mailer hands to [sendmail] has the
    fixed subject, From and To set to EMAIL_FROM and EMAIL_TO, the
    report for the current counter and log as HTML body, and exactly
    one attachment, named [translation_report.csv], whose payload is the
    header and the rows of the log: what the report file on disk holds
    when the mailer returns. *)
Theorem report_message_headers_and_attachment (w : World) :
  exists evs,
    trace (snd (send_translation_email w)) = trace w ++ evs
    /\ forall ev msg, In ev evs -> sent_message ev = Some msg ->
         msg_subject msg = py "🌐 RingStone TMS MVP Translation Report"
         /\ msg_from msg = EMAIL_FROM cfg
         /\ msg_to msg = EMAIL_TO cfg
         /\ report_html cfg (total_tokens_used w) (translation_log w)
            = Some (msg_html msg)
         /\ msg_attachments msg
            = [ {| filename := py "translation_report.csv";
                   payload := report_rows (translation_log w) |} ]
         /\ dict_get (disk (snd (send_translation_email w)))
              (py "translation_report.csv")
            = Some (report_rows (translation_log w)).
Proof.
  pose proof (send_translation_email_run w) as H.
  destruct (report_html cfg (total_tokens_used w) (translation_log w)) as [html|].
  - destruct H as (d' & Hrun & Hget & _).
    match type of Hrun with _ = deliver ?m ?w2 =>
      destruct (deliver_session m w2) as (x' & session & Hd & _ & Hmsg) end.
    cbn [translation_log total_tokens_used disk remote trace] in Hd.
    exists (report_file_events (report_rows (translation_log w)) ++ session).
    rewrite Hrun, Hd. cbn [snd trace disk].
    split; [rewrite <- app_assoc; reflexivity|].
    intros ev msg Hin Hev. apply in_app_or in Hin. destruct Hin as [Hin|Hin].
    + unfold report_file_events in Hin. cbn [In] in Hin.
      repeat (destruct Hin as [<-|Hin]; [discriminate Hev|]). contradiction.
    + rewrite (Hmsg _ _ Hin Hev). cbn [report_message msg_subject msg_from msg_to
                                         msg_html msg_attachments].
      repeat split. exact Hget.
  - rewrite H. exists []. cbn [snd]. rewrite app_nil_r. split; [reflexivity|].
    intros ev msg [].
Qed.

(** *** Stripped translations *)

Lemma trimmed_strip (s : pystr) : trimmed (strip s) = true.
Proof. destruct (strip_cut s) as (a & b & _ & _ & _ & H); exact H. Qed.

Lemma dict_set_values {V} (P : V -> Prop) (d : dict V) k v :
  Forall P (map snd d) -> P v -> Forall P (map snd (dict_set d k v)).
Proof.
  induction d as [|[k' v'] d IH]; simpl; intros Hd Hv.
  - repeat constructor; assumption.
  - inversion Hd; subst. destruct (Str.eqb k' k); simpl; constructor; auto.
Qed.

Lemma dict_extended_values es d :
  Forall (fun v => trimmed v = true) (map snd d) ->
  Forall (fun e => trimmed (entry_translated e) = true) es ->
  Forall (fun v => trimmed v = true) (map snd (dict_extended es d)).
Proof.
  unfold dict_extended. intros Hd Hes; revert d Hd.
  induction Hes as [|e es He Hes IH]; intros d Hd; simpl; [exact Hd|].
  apply IH. apply dict_set_values; assumption.
Qed.

Lemma translate_items_stripped items lang d n w :
  match translate_items items lang d n w with
  | (Ok translations, w') =>
    exists es,
      translations = dict_extended es d
      /\ translation_log w' = log_extended lang es (translation_log w)
      /\ Forall (fun e => trimmed (entry_translated e) = true) es
  | (Raise _, _) => True
  end.
Proof.
  revert d n w; induction items as [|[key value] items IH]; intros d n w.
  - simpl. exists []. repeat split; constructor.
  - cbn [Script.translate_items]. unfold bind at 1. rewrite translate_text_run.
    destruct (serve _ (remote w)) as [[c|e] x']; [|exact I].
    unfold bind at 1, update at 1.
    match goal with |- context [translate_items items lang ?d' ?n' ?w'] =>
      specialize (IH d' n' w'); destruct (translate_items items lang d' n' w')
        as [[translations|e] w''] end; [|exact I].
    destruct IH as (es & Ht & Hl & Hs).
    exists ((key, value, strip (message_content c),
             n + (len (split value) + len (split (strip (message_content c))))) :: es).
    split; [exact Ht|]. split; [exact Hl|].
    constructor; [apply trimmed_strip | exact Hs].
Qed.

(** X10.  The text [translate_text] returns has no whitespace at either
    end and is unchanged by stripping again; so have all values of the
    mapping [translate_locale] returns and the translated texts of all
    entries it appends to the log.  Stripping removes whitespace only,
    from the two ends only, and leaves the word count as it was. *)
Theorem translations_are_stripped (w : World) :
  (forall text target_lang,
     match translate_text text target_lang w with
     | (Ok translated, _) =>
       trimmed translated = true /\ strip translated = translated
     | (Raise _, _) => True
     end)
  /\ (forall source_dict target_lang,
        match translate_locale source_dict target_lang w with
        | (Ok translations, w') =>
          Forall (fun v => trimmed v = true) (map snd translations)
          /\ exists es,
               entries_of (translation_log w') target_lang
               = entries_of (translation_log w) target_lang ++ es
               /\ Forall (fun e => trimmed (entry_translated e) = true) es
        | (Raise _, _) => True
        end)
  /\ (forall answer : pystr,
        exists before behind,
          answer = before ++ strip answer ++ behind
          /\ forallb isspace before = true /\ forallb isspace behind = true
          /\ word_count (strip answer) = word_count answer).
Proof.
  split; [|split].
  - intros text lang. rewrite translate_text_run.
    destruct (serve _ (remote w)) as [[c|e] x']; [|exact I].
    split; [apply trimmed_strip | apply strip_trimmed, trimmed_strip].
  - intros src lang. unfold Script.translate_locale.
    pose proof (translate_items_stripped src lang [] 0 w) as H.
    destruct (translate_items src lang [] 0 w) as [[tr|e] w']; [|exact I].
    destruct H as (es & Ht & Hl & Hs). split.
    + subst tr. apply dict_extended_values; [constructor | exact Hs].
    + exists es. rewrite Hl. split; [apply entries_of_log_extended | exact Hs].
  - intros answer. destruct (strip_cut answer) as (a & b & Hs & Ha & Hb & _).
    exists a, b. repeat split; try assumption.
    unfold word_count. rewrite split_strip. reflexivity.
Qed.

(** *** The translation log as a dict *)

Lemma dict_get_none_keys {V} (d : dict V) k :
  dict_get d k = None <-> ~ In k (keys d).
Proof.
  induction d as [|[k' v'] d IH]; simpl; [tauto|].
  destruct (Str.eqb k' k) eqn:E.
  - apply eqb_eq in E. split; [discriminate | tauto].
  - apply eqb_neq in E. rewrite IH. tauto.
Qed.

Lemma keys_setdefault_append {A} (d : dict (list A)) k x :
  keys (setdefault_append d k x)
  = match dict_get d k with Some _ => keys d | None => keys d ++ [k] end.
Proof.
  induction d as [|[k' xs] d IH]; simpl; [reflexivity|].
  destruct (Str.eqb k' k) eqn:E; simpl; [reflexivity|].
  rewrite IH. destruct (dict_get d k); reflexivity.
Qed.

Lemma setdefault_append_nonempty {A} (d : dict (list A)) k x :
  Forall (fun le => snd le <> []) d ->
  Forall (fun le => snd le <> []) (setdefault_append d k x).
Proof.
  induction d as [|[k' xs] d IH]; simpl; intros H.
  - constructor; [discriminate | constructor].
  - inversion H; subst. destruct (Str.eqb k' k); constructor; auto.
    simpl. destruct xs; discriminate.
Qed.

Lemma log_ok_append log lang e : log_ok log -> log_ok (setdefault_append log lang e).
Proof.
  intros [Hn Hf]. split; [|apply setdefault_append_nonempty; exact Hf].
  rewrite keys_setdefault_append.
  destruct (dict_get log lang) eqn:E; [exact Hn|].
  apply dict_get_none_keys in E.
  apply NoDup_app; [exact Hn | repeat constructor; intros [] |].
  intros k Hk [<-|[]]. contradiction.
Qed.

Lemma log_ok_log_extended lang es log : log_ok log -> log_ok (log_extended lang es log).
Proof.
  unfold log_extended. revert log; induction es as [|e es IH]; intros log H; simpl.
  - exact H.
  - apply IH, log_ok_append, H.
Qed.

Lemma log_stays_ok_refl (w : World) : log_stays_ok w w.
Proof. intros H; exact H. Qed.

Lemma log_stays_ok_trans (a b c : World) :
  log_stays_ok a b -> log_stays_ok b c -> log_stays_ok a c.
Proof. unfold log_stays_ok; auto. Qed.

Lemma log_stays_ok_translate_items items lang d n :
  respects log_stays_ok (translate_items items lang d n).
Proof.
  intros w Hok.
  destruct (translate_items items lang d n w) as [[tr|e] w'] eqn:E; cbn [snd].
  - pose proof (translate_items_run items lang d n w) as H. rewrite E in H.
    destruct H as (es & _ & _ & _ & _ & Hl & _). rewrite Hl.
    apply log_ok_log_extended, Hok.
  - destruct (translate_items_raise _ _ _ _ _ E) as (es & rest & _ & _ & Hl).
    rewrite Hl. apply log_ok_log_extended, Hok.
Qed.

Lemma log_stays_ok_keeps {A} (m : M A) :
  respects (keeps (@translation_log X)) m -> respects log_stays_ok m.
Proof. intros Hk w Hok. rewrite (Hk w). exact Hok. Qed.

Lemma log_stays_ok_push_translations : respects log_stays_ok push_translations.
Proof.
  unfold respects.
  apply (push_translations_by_steps
           (fun A m => respects log_stays_ok m)
           (fun w r => log_stays_ok w (snd r))).
  - intros A m (_ & Hk & _). apply log_stays_ok_keeps, Hk.
  - intros src.
    apply (publish_languages_by_steps (fun A m => respects log_stays_ok m)).
    + intros w. apply log_stays_ok_refl.
    + intros A B m k. apply (respects_bind log_stays_ok_trans).
    + intros A m (_ & Hk & _). apply log_stays_ok_keeps, Hk.
    + intros s lang. apply log_stays_ok_translate_items.
    + intros l H; exact H.
  - intros A m k Hm Hk w. unfold bind. specialize (Hm w).
    destruct (m w) as [[a|e] w1]; cbn [snd] in *; [|exact Hm].
    eapply log_stays_ok_trans; [exact Hm | apply Hk].
  - apply log_stays_ok_keeps.
    apply (keeps_send_translation_email (@translation_log X)); reflexivity.
Qed.

(** X11.  The translation log stays a well-formed dict of non-empty
    lists: if no language occurs twice and every language has at least
    one entry, the same holds after [translate_locale] and after
    [push_translations], whatever their outcome; it holds at process
    start.  Hence for every language of the log after a run, the count
    shown in the report is the fourth component of the language's last
    entry: the [else 0] of [send_translation_email] is never taken. *)
Theorem translation_log_stays_well_formed (w : World)
    (H : log_ok (translation_log w)) :
  (forall source_dict target_lang,
     log_ok (translation_log (snd (translate_locale source_dict target_lang w))))
  /\ log_ok (translation_log (snd (push_translations w)))
  /\ (forall lang entries,
        In (lang, entries) (translation_log (snd (push_translations w))) ->
        entries <> []
        /\ lang_total_tokens entries = entry_tokens (last entries ([], [], [], 0)))
  /\ (forall files (x : X), log_ok (translation_log (initial_world files x))).
Proof.
  pose proof (log_stays_ok_push_translations w H) as Hp.
  split; [|split; [|split]].
  - intros src lang. apply (log_stays_ok_translate_items src lang [] 0 w H).
  - exact Hp.
  - intros lang entries Hin. destruct Hp as [_ Hf].
    rewrite Forall_forall in Hf. specialize (Hf _ Hin). simpl in Hf.
    split; [exact Hf|]. rewrite lang_total_tokens_final. unfold final_count.
    destruct entries; [congruence | reflexivity].
  - intros files x. split; constructor.
Qed.

(** *** The log of a completed run *)

Lemma setdefault_append_fresh {A} (d : dict (list A)) k x :
  ~ In k (keys d) -> setdefault_append d k x = d ++ [(k, [x])].
Proof.
  induction d as [|[k' xs] d IH]; simpl; intros H; [reflexivity|].
  destruct (Str.eqb k' k) eqn:E.
  - apply eqb_eq in E. tauto.
  - rewrite IH by tauto. reflexivity.
Qed.

Lemma setdefault_append_last {A} (d : dict (list A)) k xs x :
  ~ In k (keys d) ->
  setdefault_append (d ++ [(k, xs)]) k x = d ++ [(k, xs ++ [x])].
Proof.
  induction d as [|[k' ys] d IH]; simpl; intros H.
  - rewrite eqb_refl. reflexivity.
  - destruct (Str.eqb k' k) eqn:E.
    + apply eqb_eq in E. tauto.
    + rewrite IH by tauto. reflexivity.
Qed.

Lemma log_extended_last lang es log xs :
  ~ In lang (keys log) ->
  log_extended lang es (log ++ [(lang, xs)]) = log ++ [(lang, xs ++ es)].
Proof.
  intros H. unfold log_extended. revert xs; induction es as [|e es IH]; intros xs; simpl.
  - rewrite app_nil_r. reflexivity.
  - rewrite setdefault_append_last by exact H. rewrite IH, <- app_assoc. reflexivity.
Qed.

Lemma log_extended_fresh lang es log :
  ~ In lang (keys log) -> es <> [] ->
  log_extended lang es log = log ++ [(lang, es)].
Proof.
  intros H Hes. destruct es as [|e es]; [congruence|].
  unfold log_extended. simpl. rewrite setdefault_append_fresh by exact H.
  apply (log_extended_last lang es log [e] H).
Qed.

Lemma rounds_extended_fresh rounds log :
  NoDup (keys log ++ map fst rounds) ->
  Forall (fun r : pystr * list entry => snd r <> []) rounds ->
  rounds_extended rounds log = log ++ rounds.
Proof.
  unfold rounds_extended. intros Hn Hf; revert log Hn.
  induction Hf as [|[lang es] rounds Hes Hf IH]; intros log Hn; simpl.
  - rewrite app_nil_r. reflexivity.
  - simpl in Hes, Hn.
    assert (Hfresh : ~ In lang (keys log)).
    { intros Hin. apply NoDup_remove_2 in Hn. apply Hn. apply in_or_app; auto. }
    rewrite log_extended_fresh by assumption.
    rewrite IH.
    + rewrite <- app_assoc. reflexivity.
    + unfold keys. rewrite map_app. simpl. rewrite <- app_assoc. exact Hn.
Qed.

Lemma rounds_extended_empty rounds log :
  Forall (fun r : pystr * list entry => snd r = []) rounds ->
  rounds_extended rounds log = log.
Proof.
  unfold rounds_extended. intros Hf; revert log.
  induction Hf as [|[lang es] rounds Hes Hf IH]; intros log; simpl; [reflexivity|].
  simpl in Hes. subst es. apply IH.
Qed.

Lemma running_final n es :
  running n es -> es <> [] -> final_count es = n + sum_words es.
Proof.
  intros Hr Hne. unfold final_count. destruct es as [|e es]; [congruence|].
  pose proof (@running_cumulative (e :: es) n (List.length es) Hr) as H.
  rewrite firstn_all2 in H by (simpl; lia).
  rewrite <- H by (simpl; lia).
  f_equal. clear. revert e; induction es as [|e' es IH]; intros e; [reflexivity|].
  change (last (e :: e' :: es) ([], [], [], 0)) with (last (e' :: es) ([], [], [], 0)).
  rewrite IH. reflexivity.
Qed.

(** A run that completes from process start went through one round per
    target language. *)
Lemma completed_run_rounds files (x : X) (w' : World) :
  push_translations (initial_world files x) = (Ok tt, w') ->
  exists contents text source_data rounds,
    In (Called (GetContents LOCALE_PATH (py "main")) (Ok contents)) (trace w')
    /\ utf8_decode (decoded_content contents) = Some text
    /\ json_loads text = Ok source_data
    /\ map fst rounds = TARGET_LANGS cfg
    /\ Forall (round_of source_data) rounds
    /\ translation_log w' = rounds_extended rounds [].
Proof.
  intros Hrun.
  destruct (push_translations_ok_inv _ Hrun)
    as (contents & text & src & w1 & w2 & w3 & Hin & Hdec & Hjson & Hlog1 & _ & Hp & Hq & Hs).
  assert (E : extends w1 w').
  { pose proof (extends_publish_languages src (TARGET_LANGS cfg) w1) as E1.
    rewrite Hp in E1.
    pose proof (extends_ensure_pull_request w2) as E2. rewrite Hq in E2.
    pose proof (extends_send_translation_email w3) as E3. rewrite Hs in E3.
    eauto using extends_trans. }
  destruct (publish_languages_log _ _ _ Hp) as (rounds & Hm & Hf & Hlog2).
  pose proof (keeps_ensure_pull_request (@translation_log X)
                (fun _ _ => eq_refl) (fun _ _ => eq_refl) w2) as K2.
  unfold keeps in K2; rewrite Hq in K2; simpl in K2.
  pose proof (keeps_send_translation_email (@translation_log X)
                (fun _ _ => eq_refl) (fun _ _ => eq_refl) (fun _ _ => eq_refl) w3) as K3.
  unfold keeps in K3; rewrite Hs in K3; simpl in K3.
  exists contents, text, src, rounds.
  repeat split; try assumption.
  - eapply extends_in; eassumption.
  - rewrite K3, K2, Hlog2, Hlog1. reflexivity.
Qed.

Lemma round_of_length src (r : pystr * list entry) :
  round_of src r -> List.length (snd r) = List.length src.
Proof.
  intros (Hk & _ & _). apply (f_equal (@List.length _)) in Hk.
  unfold keys in Hk. rewrite !length_map in Hk. exact Hk.
Qed.

(** X12.  After a run that completes from process start with a
    target-language list without repeated codes, the translation log
    lists exactly the target languages, in the configured order, each
    with one entry per catalog item, in the catalog's order, carrying
    running totals from zero; the count the report shows for a language
    (the fourth component of its last entry) is the sum of the word
    counts of all its entries.  With an empty catalog the log stays
    empty: the report then names no language at all. *)
Theorem log_lists_languages_in_configured_order
    (files : dict csv) (x : X) (w' : World)
    (Hnd : NoDup (TARGET_LANGS cfg))
    (Hrun : push_translations (initial_world files x) = (Ok tt, w')) :
  exists contents text source_data,
    In (Called (GetContents LOCALE_PATH (py "main")) (Ok contents)) (trace w')
    /\ utf8_decode (decoded_content contents) = Some text
    /\ json_loads text = Ok source_data
    /\ match source_data with
       | [] => translation_log w' = []
       | _ :: _ =>
         keys (translation_log w') = TARGET_LANGS cfg
         /\ Forall (fun le => round_of source_data le
                              /\ lang_total_tokens (snd le) = sum_words (snd le))
                   (translation_log w')
       end.
Proof.
  destruct (completed_run_rounds _ _ Hrun)
    as (contents & text & src & rounds & Hin & Hdec & Hjson & Hm & Hf & Hlog).
  exists contents, text, src. repeat split; try assumption.
  destruct src as [|kv src].
  - rewrite Hlog. apply rounds_extended_empty.
    revert Hf. apply Forall_impl. intros r Hr.
    apply round_of_length in Hr. destruct (snd r); [reflexivity | discriminate Hr].
  - assert (Hne : Forall (fun r : pystr * list entry => snd r <> []) rounds).
    { revert Hf. apply Forall_impl. intros r Hr.
      apply round_of_length in Hr. destruct (snd r); [discriminate Hr | discriminate]. }
    rewrite Hlog, rounds_extended_fresh; [|simpl; rewrite Hm; exact Hnd | exact Hne].
    simpl. split; [exact Hm|].
    rewrite Forall_forall in *. intros r Hr. split; [apply Hf, Hr|].
    rewrite lang_total_tokens_final.
    destruct (Hf _ Hr) as (_ & _ & Hrun0).
    rewrite (running_final _ Hrun0 (Hne _ Hr)). lia.
Qed.

(** *** The published files *)

Lemma call_event {B} (r : request B) (w : World) o w' :
  call r w = (o, w') -> trace w' = trace w ++ [Called r o].
Proof.
  unfold Script.call. destruct (serve r (remote w)) as [o' x'].
  intros H. apply pair_equal_spec in H. destruct H as [<- <-]. reflexivity.
Qed.

Lemma wrote_created lang msg blob :
  wrote lang blob
    (Called (CreateFile (py "locales/" ++ lang ++ py ".json") msg blob
               BRANCH_NAME clinton) (Ok tt)) = true.
Proof. unfold wrote, output_path. rewrite !eqb_refl. reflexivity. Qed.

Lemma wrote_updated lang msg blob marker :
  wrote lang blob
    (Called (UpdateFile (py "locales/" ++ lang ++ py ".json") msg blob marker
               BRANCH_NAME clinton) (Ok tt)) = true.
Proof. unfold wrote, output_path. rewrite !eqb_refl. reflexivity. Qed.

Lemma create_or_update_wrote lang blob (w w' : World) :
  create_or_update lang (py "locales/" ++ lang ++ py ".json") blob w = (Ok tt, w') ->
  exists ev, In ev (trace w') /\ wrote lang blob ev = true.
Proof.
  intros H.
  pose proof (create_or_update_run lang (py "locales/" ++ lang ++ py ".json") blob w) as R.
  match type of R with context [call ?r w] =>
    destruct (call r w) as [[[]|e1] w1] eqn:E1 end.
  - rewrite R in H. apply pair_equal_spec in H. destruct H as [_ <-].
    apply call_event in E1. rewrite E1. eexists. split.
    + apply in_or_app. right. left. reflexivity.
    + apply wrote_created.
  - match type of R with context [call ?r w1] =>
      destruct (call r w1) as [[current|e2] w2] eqn:E2 end.
    + rewrite R in H. apply call_event in H. rewrite H. eexists. split.
      * apply in_or_app. right. left. reflexivity.
      * apply wrote_updated.
    + rewrite R in H. discriminate H.
Qed.

Lemma publish_language_file src lang w :
  match publish_language src lang w with
  | (Ok _, w') =>
    exists es,
      round_of src (lang, es)
      /\ translation_log w' = log_extended lang es (translation_log w)
      /\ exists ev, In ev (trace w')
                    /\ wrote lang (Json.dumps (dict_extended es [])) ev = true
  | (Raise _, _) => True
  end.
Proof.
  unfold Script.publish_language, Script.translate_locale.
  unfold bind at 1, print at 1, update at 1. unfold bind at 1.
  match goal with |- context [translate_items src lang [] 0 ?w1] =>
    pose proof (translate_items_run src lang [] 0 w1) as Hrun;
    destruct (translate_items src lang [] 0 w1) as [[translated|e] w2] end;
    [|exact I].
  destruct Hrun as (es & Hk & Ho & Hr & Ht & Hl & _).
  match goal with |- match ?m w2 with _ => _ end =>
    pose proof (keeps_create_or_update (@translation_log X)
                  (fun _ _ => eq_refl) (fun _ _ => eq_refl) lang
                  (py "locales/" ++ lang ++ py ".json")
                  (Json.dumps translated) w2) as Hkeep;
    destruct (m w2) as [[[]|e] w3] eqn:E end; [|exact I].
  unfold keeps in Hkeep; simpl in Hkeep.
  exists es. split; [repeat split; assumption|].
  split; [rewrite Hkeep, Hl; reflexivity|].
  subst translated. exact (create_or_update_wrote _ _ _ E).
Qed.

Lemma publish_languages_files src langs w w' :
  publish_languages src langs w = (Ok tt, w') ->
  exists rounds,
    map fst rounds = langs /\ Forall (round_of src) rounds
    /\ translation_log w' = rounds_extended rounds (translation_log w)
    /\ Forall (fun r => exists ev,
                 In ev (trace w')
                 /\ wrote (fst r) (Json.dumps (dict_extended (snd r) [])) ev = true)
              rounds.
Proof.
  revert w; induction langs as [|lang langs IH]; intros w H.
  - apply pair_equal_spec in H. destruct H as [_ <-].
    exists []. repeat split; constructor.
  - cbn [Script.publish_languages] in H. apply bind_ok_inv in H.
    destruct H as (u & w1 & H1 & H).
    pose proof (publish_language_file src lang w) as Hl. rewrite H1 in Hl.
    destruct Hl as (es & Hround & Hlog & ev & Hin & Hev).
    destruct (IH _ H) as (rounds & Hm & Hf & Hlog' & Hfiles).
    exists ((lang, es) :: rounds). simpl. rewrite Hm. repeat split; auto.
    + rewrite Hlog', Hlog. reflexivity.
    + constructor; [|exact Hfiles]. exists ev. split; [|exact Hev].
      pose proof (extends_publish_languages src langs w1) as E.
      rewrite H in E. simpl in E. eapply extends_in; eassumption.
Qed.

Lemma dict_extended_fresh es d :
  NoDup (keys d ++ map entry_key es) ->
  dict_extended es d = d ++ map entry_item es.
Proof.
  unfold dict_extended. revert d; induction es as [|e es IH]; intros d H; simpl.
  - rewrite app_nil_r; reflexivity.
  - simpl in H. assert (Hk : ~ In (entry_key e) (keys d)).
    { intros Hin. apply NoDup_remove_2 in H. apply H. apply in_or_app; auto. }
    rewrite keys_dict_set_new by assumption. rewrite IH.
    + rewrite <- app_assoc. reflexivity.
    + unfold keys. rewrite map_app. simpl. rewrite <- app_assoc. exact H.
Qed.

Lemma entries_for_fresh lang rounds :
  ~ In lang (map fst rounds) -> entries_for lang rounds = [].
Proof.
  induction rounds as [|[l es] rounds IH]; simpl; intros H; [reflexivity|].
  destruct (Str.eqb l lang) eqn:E.
  - apply eqb_eq in E. tauto.
  - apply IH. tauto.
Qed.

Lemma entries_for_own lang es rounds :
  NoDup (map fst rounds) -> In (lang, es) rounds -> entries_for lang rounds = es.
Proof.
  induction rounds as [|[l es'] rounds IH]; simpl; intros Hn Hin; [contradiction|].
  inversion Hn as [|? ? Hnotin Hn']; subst.
  destruct Hin as [Heq|Hin].
  - apply pair_equal_spec in Heq. destruct Heq as [-> ->].
    rewrite eqb_refl, (entries_for_fresh _ _ Hnotin). apply app_nil_r.
  - destruct (Str.eqb l lang) eqn:E.
    + apply eqb_eq in E. subst l. exfalso. apply Hnotin.
      apply (in_map fst) in Hin. exact Hin.
    + apply IH; assumption.
Qed.

(** X13.  After a run that completes from process start, with a catalog
    of distinct keys and a target-language list without repeated codes:
    for every target language the run has created or updated
    [locales/<lang>.json] on the working branch, and the content it
    wrote is the JSON text of the mapping from each key to the
    translated text of that key's entry in the log, in the log's order.
    The published files and the report say the same. *)
Theorem published_files_hold_the_logged_translations
    (files : dict csv) (x : X) (w' : World) (lang : pystr)
    (Hwf : forall text d, json_loads text = Ok d -> NoDup (keys d))
    (Hnd : NoDup (TARGET_LANGS cfg))
    (Hrun : push_translations (initial_world files x) = (Ok tt, w'))
    (Hlang : In lang (TARGET_LANGS cfg)) :
  exists ev,
    In ev (trace w')
    /\ wrote lang
         (Json.dumps (map entry_item (entries_of (translation_log w') lang))) ev
       = true.
Proof.
  destruct (push_translations_ok_inv _ Hrun)
    as (contents & text & src & w1 & w2 & w3 & _ & _ & Hjson & Hlog1 & _ & Hp & Hq & Hs).
  destruct (publish_languages_files _ _ _ Hp) as (rounds & Hm & Hf & Hlog2 & Hfiles).
  pose proof (keeps_ensure_pull_request (@translation_log X)
                (fun _ _ => eq_refl) (fun _ _ => eq_refl) w2) as K2.
  unfold keeps in K2; rewrite Hq in K2; simpl in K2.
  pose proof (keeps_send_translation_email (@translation_log X)
                (fun _ _ => eq_refl) (fun _ _ => eq_refl) (fun _ _ => eq_refl) w3) as K3.
  unfold keeps in K3; rewrite Hs in K3; simpl in K3.
  assert (E : extends w2 w').
  { pose proof (extends_ensure_pull_request w2) as E2. rewrite Hq in E2.
    pose proof (extends_send_translation_email w3) as E3. rewrite Hs in E3.
    eauto using extends_trans. }
  rewrite <- Hm in Hlang, Hnd. apply in_map_iff in Hlang.
  destruct Hlang as ([l es] & Hl & Hr). simpl in Hl. subst l.
  rewrite Forall_forall in Hfiles, Hf.
  destruct (Hfiles _ Hr) as (ev & Hin & Hev). simpl in Hev.
  destruct (Hf _ Hr) as (Hk & _ & _). simpl in Hk.
  exists ev. split; [eapply extends_in; eassumption|].
  rewrite K3, K2, Hlog2, Hlog1, entries_of_rounds_extended. simpl.
  rewrite entries_for_own with (es := es); [|exact Hnd | exact Hr].
  rewrite dict_extended_fresh in Hev; [exact Hev|].
  simpl. rewrite Hk. exact (Hwf _ _ Hjson).
Qed.

(** *** The total the report shows *)

Lemma tokens_reported_no_chat (p : event -> bool) evs :
  (forall ev, p ev = true -> chat_call ev = false) -> forallb p evs = true ->
  tokens_reported evs = 0.
Proof.
  intros Hp. induction evs as [|ev evs IH]; [reflexivity|]. simpl.
  intros H. apply andb_true_iff in H. destruct H as [H1 H2].
  rewrite (IH H2). specialize (Hp _ H1).
  destruct ev as [A r o| | |]; try reflexivity.
  destruct r; try reflexivity. discriminate Hp.
Qed.

Lemma session_event_not_chat ev : session_event ev = true -> chat_call ev = false.
Proof.
  destruct ev as [A r o| | |]; try reflexivity.
  destruct r; try reflexivity. discriminate.
Qed.

Lemma not_mail_not_sent ev : is_mail_action ev = false -> sent_html ev = None.
Proof.
  destruct ev as [A r o| | |]; try reflexivity.
  destruct r; try reflexivity. discriminate.
Qed.

Lemma nothing_sent_app (tr evs : list event) :
  nothing_sent tr -> existsb is_mail_action evs = false -> nothing_sent (tr ++ evs).
Proof.
  intros Ht He ev Hin. apply in_app_or in Hin. destruct Hin as [Hin|Hin]; [auto|].
  apply not_mail_not_sent.
  destruct (is_mail_action ev) eqn:E; [|reflexivity].
  assert (existsb is_mail_action evs = true)
    by (apply existsb_exists; exists ev; auto).
  congruence.
Qed.

Lemma counter_step_quiet {A} (m : M A) : quiet cfg m -> respects counter_step m.
Proof.
  intros (Hm & _ & Hk & _) w. destruct (Hm w) as (evs & Ht & Hp).
  unfold counter_step, counter_ok. rewrite (Hk w), Ht, tokens_reported_app.
  rewrite (tokens_reported_no_chat _ _ (repo_event_not_chat _) Hp).
  split; intros; lia.
Qed.

(** What a call of the report mailer hands to [sendmail] is the report
    for the counter and the log of the world it starts in. *)
Lemma sent_html_is_report (w w' : World) o evs ev html :
  send_translation_email w = (o, w') -> trace w' = trace w ++ evs ->
  In ev evs -> sent_html ev = Some html ->
  o = Ok tt
  /\ translation_log w' = translation_log w
  /\ tokens_reported evs = 0
  /\ report_html cfg (total_tokens_used w) (translation_log w) = Some html.
Proof.
  intros Hrun Htrace Hin Hsent.
  pose proof (send_translation_email_run w) as H.
  destruct (report_html cfg (total_tokens_used w) (translation_log w)) as [h|] eqn:Eh.
  - clear H. destruct (send_translation_email_delivered w Eh)
      as (d' & x' & session & Hs & _ & Hall & _ & _ & Hmsg).
    rewrite Hs in Hrun. apply pair_equal_spec in Hrun. destruct Hrun as [<- <-].
    cbn [trace translation_log] in Htrace |- *.
    apply app_inv_head in Htrace. subst evs.
    split; [reflexivity|]. split; [reflexivity|]. split.
    + rewrite tokens_reported_app.
      rewrite (tokens_reported_no_chat _ _ session_event_not_chat Hall).
      reflexivity.
    + apply in_app_or in Hin. destruct Hin as [Hin|Hin].
      * unfold report_file_events in Hin. cbn [In] in Hin.
        repeat (destruct Hin as [<-|Hin]; [discriminate Hsent|]). contradiction.
      * rewrite (Hmsg _ _ Hin Hsent). reflexivity.
  - rewrite H in Hrun. apply pair_equal_spec in Hrun. destruct Hrun as [_ <-].
    rewrite <- (app_nil_r (trace w)) in Htrace at 1.
    apply app_inv_head in Htrace. subst evs. contradiction.
Qed.

Lemma mailed_report_of_run (w : World) :
  counter_ok w -> nothing_sent (trace w) ->
  forall ev h, In ev (trace (snd (push_translations w))) -> sent_html ev = Some h ->
    fst (push_translations w) = Ok tt
    /\ counter_ok (snd (push_translations w))
    /\ report_html cfg (tokens_reported (trace (snd (push_translations w))))
         (translation_log (snd (push_translations w))) = Some h.
Proof.
  revert w.
  apply (push_translations_by_steps
           (fun A m => respects (adds (publish_event cfg (TARGET_LANGS cfg))) m
                       /\ respects counter_step m)
           (fun w r =>
              counter_ok w -> nothing_sent (trace w) ->
              forall ev h, In ev (trace (snd r)) -> sent_html ev = Some h ->
                fst r = Ok tt
                /\ counter_ok (snd r)
                /\ report_html cfg (tokens_reported (trace (snd r)))
                     (translation_log (snd r)) = Some h)).
  - intros A m Hq. split; [|apply counter_step_quiet, Hq].
    destruct Hq as [Hm _].
    eapply respects_adds_weaken; [apply repo_event_publish | exact Hm].
  - intros src. split; [apply adds_publish_all | apply counter_step_publish_languages].
  - intros A m k [Hm Hc] Hk w Hok Hns. unfold bind.
    specialize (Hm w). specialize (Hc w).
    destruct (m w) as [[a|e] w1]; cbn [snd] in Hm, Hc;
      destruct Hm as (evs & Ht & Hp); apply publish_events_not_mail in Hp;
      pose proof (@nothing_sent_app _ _ Hns Hp) as Hns1; rewrite <- Ht in Hns1.
    + apply Hk; [apply Hc, Hok | exact Hns1].
    + intros ev h Hin Hsent. cbn [snd] in Hin. rewrite (Hns1 _ Hin) in Hsent.
      discriminate Hsent.
  - intros w Hok Hns ev h Hin Hsent.
    destruct (send_translation_email w) as [o w'] eqn:Hrun. cbn [fst snd] in *.
    destruct (extends_send_translation_email w) as (evs & Ht).
    rewrite Hrun in Ht. cbn [snd] in Ht.
    assert (Hin' : In ev evs).
    { rewrite Ht in Hin. apply in_app_or in Hin. destruct Hin as [Hin|Hin]; [|exact Hin].
      rewrite (Hns _ Hin) in Hsent. discriminate Hsent. }
    destruct (@sent_html_is_report w w' o evs ev h Hrun Ht Hin' Hsent)
      as (Ho & Hl & Hz & Hh).
    pose proof (keeps_send_translation_email (@total_tokens_used X)
                  (fun _ _ => eq_refl) (fun _ _ => eq_refl) (fun _ _ => eq_refl) w) as Kt.
    unfold keeps in Kt. rewrite Hrun in Kt. cbn [snd] in Kt.
    assert (Hok' : counter_ok w').
    { unfold counter_ok in *. rewrite Kt, Ht, tokens_reported_app, Hz, Hok. lia. }
    split; [exact Ho|]. split; [exact Hok'|].
    rewrite <- Hok', Kt, Hl. exact Hh.
Qed.

(** X14.  In a run from process start, every message handed to
    [sendmail] carries the report for the final state: its total is the
    sum of the token costs that the completion calls of this run
    reported, and its log is the final translation log.  A run in which
    a message was sent returned normally. *)
Theorem mailed_total_is_the_sum_of_reported_costs
    (files : dict csv) (x : X) (o : result unit) (w' : World)
    (ev : event) (html : pystr)
    (Hrun : push_translations (initial_world files x) = (o, w'))
    (Hin : In ev (trace w'))
    (Hsent : sent_html ev = Some html) :
  o = Ok tt
  /\ total_tokens_used w' = tokens_reported (trace w')
  /\ report_html cfg (tokens_reported (trace w')) (translation_log w') = Some html.
Proof.
  assert (Hok : counter_ok (initial_world files x)) by reflexivity.
  assert (Hns : nothing_sent (trace (initial_world files x))) by (intros ? []).
  pose proof (@mailed_report_of_run (initial_world files x) Hok Hns) as H.
  rewrite Hrun in H. cbn [fst snd] in H. exact (H ev html Hin Hsent).
Qed.

(** *** The local disk *)

Lemma keeps_disk_translate_items items lang d n :
  respects (keeps (@disk X)) (translate_items items lang d n).
Proof.
  assert (G : forall w o w',
            translate_items items lang d n w = (o, w') -> disk w' = disk w).
  { revert d n; induction items as [|[key value] items IH]; intros d n w o w' H.
    - apply pair_equal_spec in H. destruct H as [_ <-]. reflexivity.
    - cbn [Script.translate_items] in H. unfold bind at 1 in H.
      rewrite translate_text_run in H.
      destruct (serve _ (remote w)) as [[c|e] x'].
      + unfold bind at 1, update at 1 in H. cbv beta iota in H.
        apply IH in H. exact H.
      + apply pair_equal_spec in H. destruct H as [_ <-]. reflexivity. }
  intros w. destruct (translate_items items lang d n w) as [o w'] eqn:E.
  exact (G _ _ _ E).
Qed.

Lemma disk_of_run (w : World) :
  (forall p, p <> CSV_LOG_FILE ->
     dict_get (disk (snd (push_translations w))) p = dict_get (disk w) p)
  /\ match fst (push_translations w) with
     | Raise _ => disk (snd (push_translations w)) = disk w
     | Ok _ =>
       dict_get (disk (snd (push_translations w))) CSV_LOG_FILE
       = Some (report_rows (translation_log (snd (push_translations w))))
     end.
Proof.
  revert w.
  apply (push_translations_by_steps
           (fun A m => respects (keeps (@disk X)) m)
           (fun w r =>
              (forall p, p <> CSV_LOG_FILE ->
                 dict_get (disk (snd r)) p = dict_get (disk w) p)
              /\ match fst r with
                 | Raise _ => disk (snd r) = disk w
                 | Ok _ =>
                   dict_get (disk (snd r)) CSV_LOG_FILE
                   = Some (report_rows (translation_log (snd r)))
                 end)).
  - intros A m (_ & _ & _ & Hd). exact Hd.
  - intros src.
    apply (publish_languages_by_steps (fun A m => respects (keeps (@disk X)) m)).
    + intros w. reflexivity.
    + intros A B m k. apply (respects_bind (keeps_trans (@disk X))).
    + intros A m (_ & _ & _ & Hd). exact Hd.
    + intros s lang. apply keeps_disk_translate_items.
    + intros l H; exact H.
  - intros A m k Hm Hk w. unfold bind. specialize (Hm w). unfold keeps in Hm.
    destruct (m w) as [[a|e] w1]; cbn [fst snd] in *.
    + rewrite <- Hm. apply Hk.
    + split; [intros p _; rewrite Hm; reflexivity | exact Hm].
  - intros w. pose proof (send_translation_email_run w) as H.
    destruct (report_html cfg (total_tokens_used w) (translation_log w)) as [html|].
    + destruct H as (d' & Hrun & Hget & Hother).
      match type of Hrun with _ = deliver ?m ?w2 =>
        destruct (deliver_session m w2) as (x' & session & Hd & _) end.
      cbn [translation_log total_tokens_used disk remote trace] in Hd.
      rewrite Hrun, Hd. cbn [fst snd disk translation_log].
      split; [exact Hother | exact Hget].
    + rewrite H. cbn [fst snd]. split; reflexivity.
Qed.

(** X15.  A run changes no local file other than the report: every
    other path holds after the run what it held before, whatever the
    outcome.  When the run raises, the disk is exactly as it was, the
    report file included; when it returns normally, the report file
    holds the header and the rows of the final log. *)
Theorem run_touches_only_the_report_file (w : World) (p : pystr)
    (Hp : p <> py "translation_report.csv") :
  dict_get (disk (snd (push_translations w))) p = dict_get (disk w) p
  /\ match fst (push_translations w) with
     | Raise _ => disk (snd (push_translations w)) = disk w
     | Ok _ =>
       dict_get (disk (snd (push_translations w))) (py "translation_report.csv")
       = Some (report_rows (translation_log (snd (push_translations w))))
     end.
Proof.
  destruct (disk_of_run w) as [H1 H2]. split; [apply H1, Hp | exact H2].
Qed.

(** *** The rows of the HTML report *)

Lemma concat_rows_in (entries : list entry) e :
  In e entries ->
  exists before behind,
    List.concat (map html_row entries) = before ++ html_row e ++ behind.
Proof.
  intros H. apply in_split in H. destruct H as (l1 & l2 & ->).
  exists (List.concat (map html_row l1)), (List.concat (map html_row l2)).
  rewrite map_app, concat_app. reflexivity.
Qed.

(** X16.  Whenever the report mailer hands a message to [sendmail], its
    HTML body holds, for every language of the log, the language's
    sub-header followed by a table with exactly one row per entry, in
    the log's order, each row holding key, original text and translated
    text verbatim (nothing is escaped); so every entry of the log is a
    row of its language's table. *)
Theorem report_lists_every_entry
    (w w' : World) (o : result unit) (evs : list event) (ev : event) (html : pystr)
    (lang : pystr) (entries : list entry)
    (Hrun : send_translation_email w = (o, w'))
    (Htrace : trace w' = trace w ++ evs)
    (Hin : In ev evs)
    (Hsent : sent_html ev = Some html)
    (Hlang : In (lang, entries) (translation_log w)) :
  (exists cost pre post,
     html = pre ++ html_lang_header lang (lang_total_tokens entries) cost
                ++ table_open ++ table_head
                ++ List.concat (map html_row entries)
                ++ py "</table><br>" ++ post)
  /\ forall key original translated tokens,
       In (key, original, translated, tokens) entries ->
       exists pre post,
         html = pre ++ py "<tr><td>" ++ key ++ py "</td><td>" ++ original
                    ++ py "</td><td>" ++ translated ++ py "</td></tr>" ++ post.
Proof.
  destruct (@sent_html_is_report w w' o evs ev html Hrun Htrace Hin Hsent)
    as (_ & _ & _ & Eh).
  unfold report_html in Eh.
  destruct (estimated_cost (total_tokens_used w)) as [cost|]; [|discriminate].
  destruct (language_blocks (translation_log w)) as [blocks|] eqn:Eb; [|discriminate].
  assert (Eh' : html_head cfg (total_tokens_used w) cost ++ blocks
                ++ py "</body></html>" = html) by congruence.
  clear Eh. destruct (@language_blocks_in lang entries _ _ Eb Hlang)
    as (lc & pre & post & _ & ->).
  assert (Hblock : html = (html_head cfg (total_tokens_used w) cost ++ pre)
                          ++ html_lang_header lang (lang_total_tokens entries) lc
                          ++ table_open ++ table_head
                          ++ List.concat (map html_row entries)
                          ++ py "</table><br>" ++ post ++ py "</body></html>").
  { rewrite <- Eh'. unfold language_block. rewrite lang_total_tokens_final.
    rewrite <- !app_assoc. reflexivity. }
  split.
  - exists lc, (html_head cfg (total_tokens_used w) cost ++ pre),
           (post ++ py "</body></html>"). exact Hblock.
  - intros key original translated tokens He.
    destruct (@concat_rows_in entries _ He) as (before & behind & Hrows).
    exists ((html_head cfg (total_tokens_used w) cost ++ pre)
              ++ html_lang_header lang (lang_total_tokens entries) lc
              ++ table_open ++ table_head ++ before),
           (behind ++ py "</table><br>" ++ post ++ py "</body></html>").
    rewrite Hblock, Hrows. cbn [html_row]. rewrite <- !app_assoc. reflexivity.
Qed.

(** *** The pull-request step *)

Lemma not_pr_events (p : event -> bool) evs :
  (forall ev, p ev = true -> not_pr_call ev = true) -> forallb p evs = true ->
  existsb is_pr_call evs = false.
Proof.
  intros Hp. induction evs as [|ev evs IH]; [reflexivity|]. simpl.
  intros H. apply andb_true_iff in H. destruct H as [H1 H2].
  rewrite (IH H2). specialize (Hp _ H1). unfold not_pr_call in Hp.
  apply negb_true_iff in Hp. rewrite Hp. reflexivity.
Qed.

Lemma chat_event_not_pr ev : chat_event cfg ev = true -> not_pr_call ev = true.
Proof.
  destruct ev as [A r o| | |]; try discriminate.
  destruct r; try discriminate. reflexivity.
Qed.

Lemma mail_event_not_pr ev : mail_event cfg ev = true -> not_pr_call ev = true.
Proof.
  destruct ev as [A r o| | |]; try reflexivity.
  destruct r; try discriminate; reflexivity.
Qed.

Lemma not_pr_translate_items items lang d n :
  respects (adds not_pr_call) (translate_items items lang d n).
Proof.
  eapply respects_adds_weaken; [apply chat_event_not_pr | apply adds_translate_items].
Qed.

#[local] Hint Resolve not_pr_translate_items : added.

Lemma not_pr_publish_languages src langs :
  respects (adds not_pr_call) (publish_languages src langs).
Proof.
  induction langs as [|lang langs IH]; cbn [Script.publish_languages];
    unfold Script.publish_language, Script.translate_locale,
      Script.create_or_update, print;
    adds_tac.
Qed.

Lemma no_pull_creation evs :
  existsb is_pr_call evs = false -> filter is_pull_creation evs = [].
Proof.
  induction evs as [|ev evs IH]; [reflexivity|]. simpl.
  intros H. apply orb_false_iff in H. destruct H as [H1 H2].
  rewrite (IH H2). destruct ev as [A r o| | |]; try reflexivity.
  destruct r; try reflexivity. discriminate H1.
Qed.

Lemma quiet_adds_publish {A} (m : M A) :
  quiet cfg m -> respects (adds (publish_event cfg (TARGET_LANGS cfg))) m.
Proof.
  intros [Hm _]. eapply respects_adds_weaken; [apply repo_event_publish | exact Hm].
Qed.

(** Where the pull-request step lies in what a statement [r] did from
    the world [w]. *)
Local Abbreviation pr_step_placed w r :=
  (exists before step behind : list event,
     trace (snd r) = trace w ++ before ++ step ++ behind
     /\ forallb (publish_event cfg (TARGET_LANGS cfg)) before = true
     /\ existsb is_pr_call before = false
     /\ forallb (mail_event cfg) behind = true
     /\ existsb is_pr_call behind = false
     /\ ((step = [] /\ behind = [] /\ exists e, fst r = Raise e)
         \/ (exists (source_data : dict pystr) (w1 w2 w3 : World) (ended : option exn),
               publish_languages source_data (TARGET_LANGS cfg) w1 = (Ok tt, w2)
               /\ trace w2 = trace w ++ before
               /\ exn_of (fst (ensure_pull_request w2)) = ended
               /\ snd (ensure_pull_request w2) = w3
               /\ trace w3 = trace w2 ++ step
               /\ pr_step step ended
               /\ match ended with
                  | Some e => behind = [] /\ fst r = Raise e
                  | None => r = send_translation_email w3
                  end))).

Lemma pr_step_placed_after {A} (m : M A) (k : A -> M unit) :
  respects (adds (publish_event cfg (TARGET_LANGS cfg))) m ->
  respects (adds not_pr_call) m ->
  (forall a w, pr_step_placed w (k a w)) ->
  forall w, pr_step_placed w (bind m k w).
Proof.
  intros Hm Hn Hk w. unfold bind. specialize (Hm w). specialize (Hn w).
  destruct (m w) as [[a|e] w1]; cbn [snd] in Hm, Hn;
    destruct Hm as (evs & Ht & Hp); destruct Hn as (evs' & Ht' & Hq);
    assert (E : evs' = evs)
      by (rewrite Ht in Ht'; apply app_inv_head in Ht'; symmetry; exact Ht');
    subst evs'; apply (not_pr_events _ _ (fun ev H => H)) in Hq.
  - destruct (Hk a w1)
      as (before & step & behind & Hr & Hb & Hnb & Ha & Hna & Hcases).
    exists (evs ++ before), step, behind.
    rewrite Hr, Ht, forallb_app, existsb_app, Hp, Hb, Hq, Hnb, <- !app_assoc.
    repeat split; try assumption.
    destruct Hcases as [Hend | (src & wa & wb & wc & ended & H1 & H2 & H3 & H4 & H5 & H6 & H7)];
      [left; exact Hend | right].
    exists src, wa, wb, wc, ended. split; [exact H1|].
    split; [rewrite H2, Ht, <- app_assoc; reflexivity|].
    repeat split; assumption.
  - exists evs, [], []. cbn [fst snd]. rewrite Ht, !app_nil_r.
    repeat split; try assumption. left. repeat split. exists e. reflexivity.
Qed.

Lemma pr_step_placed_tail (source_data : dict pystr) (w : World) :
  pr_step_placed w ((publish_languages source_data (TARGET_LANGS cfg) ;;
                     ensure_pull_request ;; send_translation_email) w).
Proof.
  assert (Hsend : forall w0 : World,
            exists behind, trace (snd (send_translation_email w0)) = trace w0 ++ behind
                           /\ forallb (mail_event cfg) behind = true
                           /\ existsb is_pr_call behind = false).
  { intros w0. destruct (adds_send_translation_email w0) as (evs & Ht & Hp).
    exists evs. split; [exact Ht|]. split; [exact Hp|].
    exact (not_pr_events _ _ mail_event_not_pr Hp). }
  pose proof (adds_publish_all source_data w) as Hm.
  pose proof (not_pr_publish_languages source_data (TARGET_LANGS cfg) w) as Hn.
  unfold bind.
  destruct (publish_languages source_data (TARGET_LANGS cfg) w) as [[[]|e0] w2] eqn:Ep;
    cbn [snd] in Hm, Hn;
    destruct Hm as (evs & Ht & Hp); destruct Hn as (evs' & Ht' & Hq);
    assert (E : evs' = evs)
      by (rewrite Ht in Ht'; apply app_inv_head in Ht'; symmetry; exact Ht');
    subst evs'; apply (not_pr_events _ _ (fun ev H => H)) in Hq.
  2:{ exists evs, [], []. cbn [fst snd]. rewrite Ht, !app_nil_r.
      repeat split; try assumption. left. repeat split. exists e0. reflexivity. }
  pose proof (ensure_pull_request_run w2) as R.
  change (py "ClintUK:" ++ BRANCH_NAME) with (py "ClintUK:translations-auto") in R.
  fold pr_query in R.
  destruct (call pr_query w2) as [[n|e] w3] eqn:E1.
  - apply call_event in E1. destruct (n =? 0) eqn:En.
    + apply N.eqb_eq in En. subst n.
      change (CreatePull pr_title pr_body BRANCH_NAME (py "main")) with pr_creation in R.
      destruct (call pr_creation w3) as [[[]|e2] w4] eqn:E2;
        pose proof (call_event _ _ E2) as E2'; rewrite R.
      * destruct (Hsend w4) as (behind & Hs & Ha & Hna).
        exists evs, [Called pr_query (Ok 0); Called pr_creation (Ok tt)], behind.
        rewrite Hs, E2', E1, Ht, <- !app_assoc. repeat split; try assumption.
        right. exists source_data, w, w2, w4, None. rewrite R.
        repeat split; try assumption.
        -- rewrite E2', E1, <- app_assoc. reflexivity.
        -- constructor.
      * exists evs, [Called pr_query (Ok 0); Called pr_creation (Raise e2)], [].
        cbn [fst snd]. rewrite E2', E1, Ht, <- !app_assoc. repeat split; try assumption.
        right. exists source_data, w, w2, w4, (Some e2). rewrite R.
        repeat split; try assumption.
        -- rewrite E2', E1, <- app_assoc. reflexivity.
        -- constructor.
    + rewrite R. apply N.eqb_neq in En.
      destruct (Hsend (log_event (Printed pr_exists_line) w3))
        as (behind & Hs & Ha & Hna).
      cbn [log_event trace] in Hs.
      exists evs, [Called pr_query (Ok n); Printed pr_exists_line], behind.
      rewrite Hs, E1, Ht, <- !app_assoc. repeat split; try assumption.
      right. exists source_data, w, w2, (log_event (Printed pr_exists_line) w3), None.
      rewrite R. repeat split; try assumption.
      * cbn [log_event trace]. rewrite E1, <- app_assoc. reflexivity.
      * constructor. exact En.
  - rewrite R. apply call_event in E1.
    exists evs, [Called pr_query (Raise e)], []. cbn [fst snd].
    rewrite E1, Ht, <- !app_assoc. repeat split; try assumption.
    right. exists source_data, w, w2, w3, (Some e). rewrite R.
    repeat split; try assumption. constructor.
Qed.

(** X19.  Whatever the services answer, the events of a run are those
    of the steps up to the end of the loop over the languages, then
    those of one pull-request step, then those of the report mailer,
    and only the pull-request step makes calls about pull requests.
    Either the run raised before the loop over the languages returned,
    and then there is no pull-request step and no mailer; or the loop
    returned and [ensure_pull_request] ran right there: one query for
    open pull requests with head [ClintUK:translations-auto] and base
    [main]; a pull request is created, with the fixed title and body,
    from [translations-auto] into [main], only right after that query
    answered 0; when it answered another number the skip line is
    printed and nothing is created.  When the query or the creation
    raised, the run ends there with that exception and nothing follows;
    otherwise the rest of the run is [send_translation_email], started
    in the world the step left.  So a run makes at most one attempt to
    create a pull request. *)
Theorem at_most_one_pull_request_per_run (w : World) :
  exists before step behind,
    trace (snd (push_translations w)) = trace w ++ before ++ step ++ behind
    /\ forallb (publish_event cfg (TARGET_LANGS cfg)) before = true
    /\ existsb is_pr_call before = false
    /\ forallb (mail_event cfg) behind = true
    /\ existsb is_pr_call behind = false
    /\ (List.length (filter is_pull_creation (before ++ step ++ behind)) <= 1)%nat
    /\ ((step = [] /\ behind = []
         /\ exists e, fst (push_translations w) = Raise e)
        \/ (exists (source_data : dict pystr) (w1 w2 w3 : World) (ended : option exn),
              publish_languages source_data (TARGET_LANGS cfg) w1 = (Ok tt, w2)
              /\ trace w2 = trace w ++ before
              /\ exn_of (fst (ensure_pull_request w2)) = ended
              /\ snd (ensure_pull_request w2) = w3
              /\ trace w3 = trace w2 ++ step
              /\ pr_step step ended
              /\ match ended with
                 | Some e => behind = [] /\ fst (push_translations w) = Raise e
                 | None => push_translations w = send_translation_email w3
                 end)).
Proof.
  assert (H : pr_step_placed w (push_translations w)).
  { revert w. unfold Script.push_translations.
    apply pr_step_placed_after; [| adds_tac | intros _].
    { apply quiet_adds_publish, quiet_call. simpl. rewrite !eqb_refl. reflexivity. }
    apply pr_step_placed_after; [| adds_tac | intros main].
    { apply quiet_adds_publish, quiet_call. reflexivity. }
    apply pr_step_placed_after;
      [| unfold Script.ensure_branch, print; adds_tac | intros _].
    { apply quiet_adds_publish, quiet_ensure_branch. }
    apply pr_step_placed_after; [| adds_tac | intros contents].
    { apply quiet_adds_publish, quiet_call. reflexivity. }
    apply pr_step_placed_after; [| unfold decode; adds_tac | intros text].
    { apply quiet_adds_publish, quiet_decode. }
    apply pr_step_placed_after; [| adds_tac | intros source_data].
    { apply quiet_adds_publish, quiet_of_result. }
    apply pr_step_placed_tail. }
  destruct H as (before & step & behind & Ht & Hb & Hnb & Ha & Hna & Hcases).
  exists before, step, behind. repeat split; try assumption.
  rewrite !filter_app, !length_app.
  rewrite (no_pull_creation _ Hnb), (no_pull_creation _ Hna). cbn [List.length].
  destruct Hcases as [(-> & _) | (src & wa & wb & wc & ended & _ & _ & _ & _ & _ & Hs & _)];
    [simpl; lia|].
  destruct Hs; simpl; lia.
Qed.

End Properties.

(** * Running again on a repository that is already published *)

Section Republish.

Variable c : Config.
Variable json_loads : pystr -> result (dict pystr).
Variable s0 : Sim.State.
Hypothesis Hpub : already_published c json_loads s0.

Lemma serve_no_fault {A} (r : request A) (s : Sim.State) :
  Sim.faults s = [] -> Sim.serve r s = Sim.behave r s.
Proof. intros H. unfold Sim.serve, Sim.fault_of. rewrite H. reflexivity. Qed.

Lemma same_repository_refl : same_repository s0 s0.
Proof. repeat split. Qed.

(** The completion API and the mail server leave the repository alone. *)
Lemma same_repository_serve {A} (r : request A) (s : Sim.State) :
  (is_chat r || is_smtp r) = true ->
  same_repository s0 s -> same_repository s0 (snd (Sim.serve r s)).
Proof.
  intros Hr Hs. unfold Sim.serve. destruct (Sim.fault_of _ s); [exact Hs|].
  destruct r; try discriminate Hr; simpl; try exact Hs.
  destruct (Sim.answers s); exact Hs.
Qed.

Lemma find_file_of_key b p (s : Sim.State) :
  In (b, p) (map file_key (Sim.files s)) ->
  exists f, Sim.find_file b p s = Some f.
Proof.
  unfold Sim.find_file. induction (Sim.files s) as [|g fs IH]; simpl; [tauto|].
  intros [H|H].
  - unfold file_key in H. injection H as Hb Hp.
    unfold Sim.is_file. rewrite Hb, Hp, !eqb_refl. simpl. eauto.
  - destruct (Sim.is_file b p g); eauto.
Qed.

Lemma file_keys_after_update b p text sha_ fs :
  map file_key
    (map (fun g => if Sim.is_file b p g
                   then {| Sim.file_branch := b; Sim.file_path := p;
                           Sim.file_text := text; Sim.file_sha := sha_ |}
                   else g) fs)
  = map file_key fs.
Proof.
  induction fs as [|g fs IH]; simpl; [reflexivity|]. rewrite IH. f_equal.
  unfold Sim.is_file. destruct (Str.eqb (Sim.file_branch g) b) eqn:Eb; [|reflexivity].
  destruct (Str.eqb (Sim.file_path g) p) eqn:Ep; [|reflexivity].
  apply eqb_eq in Eb, Ep. unfold file_key. simpl. congruence.
Qed.

Lemma len_filter_positive {A} (f : A -> bool) (l : list A) :
  existsb f l = true -> (len (filter f l) =? 0) = false.
Proof.
  intros H. apply N.eqb_neq. unfold len.
  induction l as [|a l IH]; simpl in *; [discriminate|].
  destruct (f a); simpl; [lia | auto].
Qed.

(** On such a repository the creation of an output file fails, and the
    fallback fetches the file and updates it. *)
Lemma republish_create_or_update lang blob (w : World Sim.State) :
  same_repository s0 (remote w) -> In lang (TARGET_LANGS c) ->
  exists w1,
    create_or_update Sim.serve lang (output_path lang) blob w = (Ok tt, w1)
    /\ same_repository s0 (remote w1)
    /\ exists evs, trace w1 = trace w ++ evs /\ existsb (updated lang) evs = true.
Proof.
  intros (Hf & Ho & Hb & Hp & Hk) Hlang.
  destruct Hpub as (Hf0 & _ & _ & (commit & Hbranch) & Hfiles & _).
  assert (Hfault : Sim.faults (remote w) = []) by congruence.
  destruct (find_file_of_key BRANCH_NAME (output_path lang) (remote w)) as (f & Hfind).
  { rewrite Hk. apply Hfiles, Hlang. }
  destruct w as [l t d s tr]. cbn [remote] in *.
  unfold create_or_update, try_except, bind, call. cbn [remote].
  rewrite (@serve_no_fault _ _ _ Hfault). cbn [Sim.behave].
  rewrite Hb, Hbranch, Hfind.
  lazy beta iota delta [log_event set_remote translation_log
                          total_tokens_used disk remote trace fst snd].
  rewrite (@serve_no_fault _ _ _ Hfault). cbn [Sim.behave]. rewrite Hfind.
  lazy beta iota delta [log_event set_remote translation_log
                          total_tokens_used disk remote trace fst snd sha].
  rewrite (@serve_no_fault _ _ _ Hfault). cbn [Sim.behave]. rewrite Hfind, eqb_refl.
  lazy beta iota delta [log_event set_remote translation_log
                          total_tokens_used disk remote trace fst snd].
  eexists. split; [reflexivity|]. cbn [remote trace]. split.
  - unfold same_repository, Sim.with_files.
    cbn [Sim.faults Sim.owner Sim.branches Sim.pulls Sim.files].
    rewrite file_keys_after_update. repeat split; assumption.
  - eexists. rewrite <- !app_assoc. split; [reflexivity|].
    cbn [app existsb updated]. rewrite !eqb_refl. cbn [andb].
    rewrite !orb_true_r. reflexivity.
Qed.

Lemma republish_translate_locale src lang (w : World Sim.State) :
  same_repository s0 (remote w) ->
  same_repository s0 (remote (snd (translate_locale Sim.serve c src lang w))).
Proof.
  intros H.
  exact (carries_translate_items Sim.serve c (same_repository s0)
           (fun A r => is_chat r || is_smtp r)
           (fun A r x Hr Hx => same_repository_serve r Hr Hx)
           src lang [] 0 (fun _ _ _ => eq_refl) w H).
Qed.

Lemma republish_publish_language src lang (w : World Sim.State) :
  same_repository s0 (remote w) -> In lang (TARGET_LANGS c) ->
  match publish_language Sim.serve c src lang w with
  | (Ok _, w1) =>
    same_repository s0 (remote w1)
    /\ exists evs, trace w1 = trace w ++ evs /\ existsb (updated lang) evs = true
  | (Raise e, w1) => same_repository s0 (remote w1) /\ stopped_by_chat e w1
  end.
Proof.
  intros Hs Hlang. unfold publish_language.
  unfold bind at 1, print at 1, update at 1. unfold bind at 1.
  match goal with |- context [translate_locale Sim.serve c src lang ?w0] =>
    pose proof (republish_translate_locale src lang w0 Hs) as Hrepo;
    pose proof (translate_locale_run Sim.serve c src lang w0) as Hrun;
    pose proof (extends_translate_items Sim.serve c src lang [] 0 w0) as Hext;
    fold (translate_locale Sim.serve c src lang w0) in Hext;
    destruct (translate_locale Sim.serve c src lang w0) as [[translated|e] w1]
  end; cbn [snd] in *.
  - fold (output_path lang).
    destruct (republish_create_or_update lang (Json.dumps translated) w1 Hrepo Hlang)
      as (w2 & -> & Hrepo2 & evs & Ht & Hup).
    split; [assumption|]. destruct Hext as [evs1 He]. cbn [trace log_event] in He.
    exists ([Printed (join (py " ") [py "Translating to " ++ lang ++ py "..."])]
              ++ evs1 ++ evs).
    rewrite Ht, He, <- !app_assoc. split; [reflexivity|].
    rewrite !existsb_app, Hup, !orb_true_r. reflexivity.
  - split; assumption.
Qed.

Lemma republish_publish_languages src langs (w : World Sim.State) :
  same_repository s0 (remote w) -> incl langs (TARGET_LANGS c) ->
  match publish_languages Sim.serve c src langs w with
  | (Ok _, w1) =>
    same_repository s0 (remote w1)
    /\ exists evs, trace w1 = trace w ++ evs
                   /\ forall lang, In lang langs -> existsb (updated lang) evs = true
  | (Raise e, w1) => same_repository s0 (remote w1) /\ stopped_by_chat e w1
  end.
Proof.
  revert w; induction langs as [|lang langs IH]; intros w Hs Hincl.
  - simpl. split; [assumption|]. exists []. rewrite app_nil_r. split; [reflexivity|].
    intros lang [].
  - cbn [publish_languages]. unfold bind.
    pose proof (republish_publish_language src lang w Hs (Hincl lang (or_introl eq_refl))) as H.
    destruct (publish_language Sim.serve c src lang w) as [[u|e] w1]; [|exact H].
    destruct H as (Hs1 & evs1 & Ht1 & Hup1).
    specialize (IH w1 Hs1 (fun l Hl => Hincl l (or_intror Hl))).
    destruct (publish_languages Sim.serve c src langs w1) as [[u2|e] w2]; [|exact IH].
    destruct IH as (Hs2 & evs2 & Ht2 & Hup2). split; [assumption|].
    exists (evs1 ++ evs2). rewrite Ht2, Ht1, <- app_assoc. split; [reflexivity|].
    intros l [<-|Hl]; rewrite existsb_app.
    + rewrite Hup1. reflexivity.
    + rewrite (Hup2 l Hl). apply orb_true_r.
Qed.

(** The query finds the open pull request, so none is created. *)
Lemma republish_ensure_pull_request (w : World Sim.State) :
  same_repository s0 (remote w) ->
  exists n,
    n <> 0
    /\ ensure_pull_request Sim.serve w
       = (Ok tt,
          mkWorld (translation_log w) (total_tokens_used w) (disk w) (remote w)
            (trace w ++
             [Called (GetPullsTotalCount (py "open") (py "ClintUK:" ++ BRANCH_NAME)
                        (py "main")) (Ok n);
              Printed pr_exists_line])).
Proof.
  intros (Hf & Ho & Hb & Hp & Hk).
  destruct Hpub as (Hf0 & _ & _ & _ & _ & Hpull).
  assert (Hfault : Sim.faults (remote w) = []) by congruence.
  pose proof (ensure_pull_request_run Sim.serve w) as H.
  unfold call in H. rewrite (@serve_no_fault _ _ _ Hfault) in H. cbn [Sim.behave] in H.
  rewrite Hp in H. rewrite (len_filter_positive _ _ Hpull) in H.
  eexists. split; [|rewrite H; unfold log_event, set_remote;
                    cbn [translation_log total_tokens_used disk remote trace];
                    rewrite <- app_assoc; destruct w; reflexivity].
  apply N.eqb_neq. apply len_filter_positive. exact Hpull.
Qed.

Lemma republish_send_translation_email (w : World Sim.State) :
  same_repository s0 (remote w) ->
  same_repository s0 (remote (snd (send_translation_email Sim.serve c w))).
Proof.
  intros H.
  refine (carries_send_translation_email Sim.serve c (same_repository s0)
            (fun A r => is_chat r || is_smtp r)
            (fun A r x Hr Hx => same_repository_serve r Hr Hx) _ w H).
  intros A r Hr. rewrite Hr. apply orb_true_r.
Qed.

(** The whole run on such a repository. *)
Lemma republish_run (files : dict csv) :
  let '(o, w') := push_translations Sim.serve json_loads c (initial_world files s0) in
   same_repository s0 (remote w')
   /\ ((exists e, o = Raise e /\ stopped_by_chat e w')
       \/ (exists w2 w3 n,
             (forall lang, In lang (TARGET_LANGS c) ->
                existsb (updated lang) (trace w2) = true)
             /\ n <> 0
             /\ w3 = mkWorld (translation_log w2) (total_tokens_used w2) (disk w2)
                       (remote w2)
                       (trace w2 ++
                        [Called (GetPullsTotalCount (py "open")
                                   (py "ClintUK:" ++ BRANCH_NAME) (py "main")) (Ok n);
                         Printed pr_exists_line])
             /\ (o, w') = send_translation_email Sim.serve c w3)).
Proof.
  destruct Hpub as (Hf0 & (cmain & Hmain) & (f & text & src & Hfind & Hdec & Hjson)
                    & (cwork & Hwork) & Hfiles & Hpull).
  set (w0 := initial_world files s0).
  pose proof (push_translations_steps Sim.serve json_loads c w0) as H.
  unfold call at 1 in H. cbn [remote w0 initial_world] in H.
  rewrite (@serve_no_fault _ _ _ Hf0) in H. cbn [Sim.behave] in H.
  unfold call at 1 in H. cbn [remote log_event set_remote] in H.
  rewrite (@serve_no_fault _ _ _ Hf0) in H. cbn [Sim.behave] in H. rewrite Hmain in H.
  destruct H as (w3 & E3 & _ & H).
  match type of E3 with ensure_branch _ ?m ?w2 = _ =>
    destruct (ensure_branch_run Sim.serve m w2) as (w3' & E3' & Hr3 & _) end.
  rewrite E3 in E3'. injection E3' as <-.
  cbn [remote log_event set_remote] in Hr3.
  rewrite (@serve_no_fault _ _ _ Hf0) in Hr3. cbn [Sim.behave] in Hr3.
  change (Sim.branch_of_ref (py "refs/heads/" ++ BRANCH_NAME)) with BRANCH_NAME in Hr3.
  rewrite Hwork in Hr3. cbn [snd] in Hr3.
  unfold call at 1 in H. rewrite Hr3 in H.
  rewrite (@serve_no_fault _ _ _ Hf0) in H. cbn [Sim.behave] in H. rewrite Hfind in H.
  cbn [decoded_content] in H. rewrite Hdec, Hjson in H.
  rewrite H. clear H.
  match goal with |- context [bind _ _ ?w] => set (w4 := w) end.
  assert (Hs4 : same_repository s0 (remote w4)) by apply same_repository_refl.
  pose proof (@republish_publish_languages src (TARGET_LANGS c) w4 Hs4 (incl_refl _)) as Hp.
  unfold bind at 1.
  destruct (publish_languages Sim.serve c src (TARGET_LANGS c) w4) as [[u|e] w5].
  - destruct Hp as (Hs5 & evs & Ht5 & Hup).
    destruct (@republish_ensure_pull_request w5 Hs5) as (n & Hn & Hq).
    unfold bind at 1. rewrite Hq.
    match goal with |- context [send_translation_email Sim.serve c ?w] =>
      set (w6 := w) end.
    pose proof (@republish_send_translation_email w6 Hs5) as Hs7.
    destruct (send_translation_email Sim.serve c w6) as [o w'] eqn:Es.
    split; [exact Hs7|]. right. exists w5, w6, n. repeat split; try assumption.
    + intros lang Hl. rewrite Ht5, existsb_app, (Hup lang Hl). apply orb_true_r.
    + symmetry; exact Es.
  - destruct Hp as (Hs5 & Hstop). split; [exact Hs5|]. left. eauto.
Qed.


End Republish.

(** * The published files read back *)

Section ReadBack.

Import JsonRead.

Lemma hex_value_digit (n : N) : n < 16 -> hex_value (Json.hex_digit n) = Some n.
Proof.
  intros H. destruct n as [|p]; [reflexivity|].
  do 4 (destruct p as [p|p|]; try reflexivity); exfalso; lia.
Qed.

(** Reading an escaped character gives the character back. *)
Lemma run_escape_char (c : N) (k : bool) (acc key : pystr) (d : dict pystr)
    (rest : pystr) :
  run (InStr k acc) key d (Json.escape_char c ++ rest)
  = run (InStr k (c :: acc)) key d rest.
Proof.
  destruct (c <? 0x20) eqn:Hlt.
  - apply N.ltb_lt in Hlt. destruct c as [|p]; [reflexivity|].
    do 5 (destruct p as [p|p|]; try reflexivity); exfalso; lia.
  - destruct (c =? 0x22) eqn:E1; [apply N.eqb_eq in E1; subst c; reflexivity|].
    destruct (c =? 0x5C) eqn:E2; [apply N.eqb_eq in E2; subst c; reflexivity|].
    assert (E : Json.escape_char c = [c]).
    { unfold Json.escape_char. rewrite E1, E2, Hlt. apply N.ltb_ge in Hlt.
      repeat match goal with
             | |- context [c =? ?v] =>
               let F := fresh "F" in
               assert (F : (c =? v) = false) by (apply N.eqb_neq; lia); rewrite F
             end.
      reflexivity. }
    rewrite E. cbn [app run]. rewrite E1, E2, Hlt. reflexivity.
Qed.

(** Reading an encoded string, up to its closing quote. *)
Lemma run_encoded (s : pystr) (k : bool) (acc key : pystr) (d : dict pystr)
    (rest : pystr) :
  run (InStr k acc) key d (flat_map Json.escape_char s ++ 0x22 :: rest)
  = if k then run Colon (rev acc ++ s) d rest
    else run CommaOrClose key (dict_set d key (rev acc ++ s)) rest.
Proof.
  revert acc; induction s as [|c s IH]; intros acc.
  - cbn [flat_map app run]. rewrite app_nil_r. reflexivity.
  - cbn [flat_map]. rewrite <- app_assoc, run_escape_char, IH.
    cbn [rev]. rewrite <- app_assoc. reflexivity.
Qed.

(** Reading one item of the object, where an item may start. *)
Lemma run_item (m : mode) (kv : pystr * pystr) (key : pystr) (d : dict pystr)
    (rest : pystr) :
  m = KeyOrClose \/ m = Key ->
  run m key d (Json.item kv ++ rest)
  = run CommaOrClose (fst kv) (dict_set d (fst kv) (snd kv)) rest.
Proof.
  intros Hm. destruct kv as [k v]. unfold Json.item, Json.encode_str, quote.
  cbn [fst snd]. rewrite <- !app_assoc.
  change (py "  ") with [0x20; 0x20]. change (py ": ") with [0x3A; 0x20].
  cbn [app].
  assert (E : run m key d
                (0x20 :: 0x20 :: 0x22
                   :: flat_map Json.escape_char k
                   ++ 0x22 :: 0x3A :: 0x20 :: 0x22
                   :: flat_map Json.escape_char v ++ 0x22 :: rest)
              = run (InStr true []) key d
                  (flat_map Json.escape_char k
                   ++ 0x22 :: 0x3A :: 0x20 :: 0x22
                   :: flat_map Json.escape_char v ++ 0x22 :: rest))
    by (destruct Hm as [-> | ->]; reflexivity).
  rewrite E, run_encoded. cbn [rev app run].
  change (ws 0x3A) with false. change (0x3A =? 0x3A) with true.
  change (ws 0x20) with true. change (ws 0x22) with false.
  change (0x22 =? 0x22) with true. cbv beta iota.
  rewrite run_encoded. reflexivity.
Qed.

Lemma run_items (l : dict pystr) (m : mode) (key : pystr) (d : dict pystr) :
  l <> [] -> m = KeyOrClose \/ m = Key ->
  run m key d (join (py "," ++ nl) (map Json.item l) ++ nl ++ py "}")
  = Some (items_set l d).
Proof.
  revert m key d; induction l as [|kv l IH]; intros m key d Hne Hm; [congruence|].
  destruct l as [|kv' l].
  - cbn [map join]. rewrite run_item by exact Hm. reflexivity.
  - change (map Json.item (kv :: kv' :: l))
      with (Json.item kv :: map Json.item (kv' :: l)).
    rewrite join_cons by discriminate.
    rewrite <- !app_assoc, run_item by exact Hm.
    change (py "," ++ nl) with [0x2C; 0x0A]. cbn [app run].
    change (ws 0x2C) with false. change (0x2C =? 0x2C) with true.
    change (ws 0x0A) with true. cbv beta iota.
    apply IH; [discriminate | right; reflexivity].
Qed.

Lemma items_set_fresh (l d : dict pystr) :
  NoDup (keys d ++ keys l) -> items_set l d = d ++ l.
Proof.
  unfold items_set. revert d; induction l as [|[k v] l IH]; intros d H; simpl.
  - rewrite app_nil_r. reflexivity.
  - simpl in H. assert (Hk : ~ In k (keys d)).
    { intros Hin. apply NoDup_remove_2 in H. apply H. apply in_or_app; auto. }
    rewrite keys_dict_set_new by exact Hk. rewrite IH.
    + rewrite <- app_assoc. reflexivity.
    + unfold keys. rewrite map_app. simpl. rewrite <- app_assoc. exact H.
Qed.

Lemma loads_dumps (d : dict pystr) : loads (Json.dumps d) = Ok (items_set d []).
Proof.
  unfold loads, Json.dumps. destruct d as [|kv d]; [reflexivity|].
  change (py "{") with [0x7B]. unfold nl at 1. cbn [app run].
  change (ws 0x7B) with false. change (0x7B =? 0x7B) with true.
  change (ws 0x0A) with true. cbv beta iota.
  unfold nl. rewrite run_items; [reflexivity | discriminate | left; reflexivity].
Qed.

End ReadBack.

(** X17.  The JSON text the publisher writes for a mapping (indent 2,
    characters kept except quote, backslash and control characters) is
    read back by the reader [JsonRead.loads] as the same mapping, keys in the same
    order, whenever the keys are distinct, as those of a Python dict
    are; so two different mappings never give the same file, and a
    published file can serve as a catalog. *)
Theorem published_json_reads_back (d : dict pystr) (H : NoDup (keys d)) :
  JsonRead.loads (Json.dumps d) = Ok d
  /\ forall d' : dict pystr,
       NoDup (keys d') -> Json.dumps d' = Json.dumps d -> d' = d.
Proof.
  assert (R : forall d0 : dict pystr,
            NoDup (keys d0) -> JsonRead.loads (Json.dumps d0) = Ok d0).
  { intros d0 H0. rewrite loads_dumps, items_set_fresh; [reflexivity | exact H0]. }
  split; [apply R, H|].
  intros d' H' E. pose proof (R d' H') as R'. rewrite E, (R d H) in R'.
  congruence.
Qed.

(** * The script at work on the simulated services *)

Import Scenario.

Lemma dict_set_nodup {V} (d : dict V) k v : NoDup (keys d) -> NoDup (keys (dict_set d k v)).
Proof.
  induction d as [|[k' v'] d IH]; simpl; intros H.
  - constructor; [tauto | constructor].
  - destruct (Str.eqb k' k) eqn:E; [exact H|].
    inversion H as [|? ? Hnotin Hrest]; subst. simpl. constructor; [|auto].
    intros Hin. apply Hnotin. clear - Hin E.
    induction d as [|[k0 v0] d IH]; simpl in *.
    + destruct Hin as [Hin|[]]. subst k. rewrite eqb_refl in E. discriminate.
    + destruct (Str.eqb k0 k) eqn:E0; simpl in Hin; destruct Hin as [Hin|Hin]; auto.
Qed.

(** The reader returns dicts, that is, distinct keys. *)
Lemma json_read_nodup (text : pystr) (d : dict pystr) :
  JsonRead.loads text = Ok d -> NoDup (keys d).
Proof.
  unfold JsonRead.loads.
  assert (G : forall s m key d0 d1,
            NoDup (keys d0) -> JsonRead.run m key d0 s = Some d1 -> NoDup (keys d1)).
  { induction s as [|ch s IH]; intros m key d0 d1 H0 H.
    - destruct m; simpl in H; try discriminate. congruence.
    - destruct m; cbn [JsonRead.run] in H;
        repeat match type of H with
               | (if ?b then _ else _) = _ => destruct b
               | match ?o with Some _ => _ | None => _ end = _ => destruct o
               | match ?n with O => _ | S _ => _ end = _ => destruct n
               end;
        try discriminate; eauto using dict_set_nodup. }
  destruct (JsonRead.run JsonRead.Start [] [] text) as [d1|] eqn:E; [|discriminate].
  intros H. assert (d1 = d) by congruence. subst d1.
  eapply G; [|exact E]. constructor.
Qed.

Example py_ascii : py "es" = [0x65; 0x73].
Proof. reflexivity. Qed.

Example py_non_ascii : py "≈ 🌐" = [0x2248; 0x20; 0x1F310].
Proof. reflexivity. Qed.

Example utf8_rejects_overlong : utf8_decode [0xC0; 0x80] = None.
Proof. reflexivity. Qed.

Example split_words :
  split (py "  Sign   in" ++ nl ++ py "now ") = [py "Sign"; py "in"; py "now"].
Proof. reflexivity. Qed.

Example split_ideographic_space : len (split [0x3053; 0x3000; 0x3093]) = 2.
Proof. reflexivity. Qed.

Example split_on_keeps_empty :
  split_on 0x2C (py "es,,fr") = [py "es"; []; py "fr"].
Proof. reflexivity. Qed.

Example strip_both : strip (py "  Hola mundo" ++ nl) = py "Hola mundo".
Proof. reflexivity. Qed.

Example grouped_digits : of_N_grouped 1234567 = py "1,234,567".
Proof. reflexivity. Qed.

Example grouped_small : of_N_grouped 0 = py "0" /\ of_N_grouped 999 = py "999".
Proof. split; reflexivity. Qed.

Example default_languages :
  TARGET_LANGS (Build_Config [] [] None [] [] [] None 587 None)
  = [py "es"; py "fr"; py "ja"].
Proof. reflexivity. Qed.

Example json_round_trip : JsonRead.loads (Json.dumps catalog) = Ok catalog.
Proof. vm_compute. reflexivity. Qed.

Example json_dumps_text :
  Json.dumps [(py "a", py "x" ++ quote)]
  = py "{" ++ nl ++ py "  " ++ quote ++ py "a" ++ quote ++ py ": "
       ++ quote ++ py "x\" ++ quote ++ quote ++ nl ++ py "}".
Proof. reflexivity. Qed.

(** The literal [0.00001] is the double 0x1.4f8b588e368f1p-17. *)
Example rate_literal_value :
  Float64.rate_literal = S754_finite false 5902958103587057 (-69).
Proof. vm_compute. reflexivity. Qed.

Example cost_of_1234_tokens :
  option_map Float64.format_4f (estimated_cost 1234) = Some (py "0.0123").
Proof. vm_compute. reflexivity. Qed.

Example cost_of_123456789_tokens :
  option_map Float64.format_4f (estimated_cost 123456789) = Some (py "1234.5679").
Proof. vm_compute. reflexivity. Qed.

Example cost_of_nothing :
  option_map Float64.format_4f (estimated_cost 0) = Some (py "0.0000").
Proof. vm_compute. reflexivity. Qed.

(** A first run on a fresh repository. *)
Example first_run_outline :
  fst (run cfg fresh_repo) = Ok tt
  /\ outline (snd (run cfg fresh_repo))
     = ["get_repo ClintUK/ringstone-locale-test: ok";
        "get_branch main: ok";
        "create_git_ref refs/heads/translations-auto: ok";
        "get_contents locales/en.json @main: ok";
        "print Translating to es...";
        "chat.completions.create: ok";
        "chat.completions.create: ok";
        "create_file locales/es.json @translations-auto: ok";
        "print Translating to fr...";
        "chat.completions.create: ok";
        "chat.completions.create: ok";
        "create_file locales/fr.json @translations-auto: ok";
        "get_pulls ClintUK:translations-auto -> main: ok";
        "create_pull translations-auto -> main: ok";
        "open translation_report.csv w";
        "close translation_report.csv";
        "open translation_report.csv rb";
        "close translation_report.csv";
        "smtp connect: ok";
        "smtp starttls: ok";
        "smtp login: ok";
        "smtp sendmail: ok";
        "print ✅ Email sent to: ops@ringstone.ai,qa@ringstone.ai";
        "smtp quit: ok"]%string
  /\ total_tokens_used (snd (run cfg fresh_repo)) = 180.
Proof. vm_compute. repeat split. Qed.


(** ** The theorems at concrete inputs *)

Abbreviation first_run :=
  (push_translations Sim.serve JsonRead.loads cfg (initial_world [] fresh_repo)).
Abbreviation twice_run :=
  (push_translations Sim.serve JsonRead.loads cfg_twice (initial_world [] fresh_repo)).

Lemma nodup_two_languages : NoDup (TARGET_LANGS cfg).
Proof.
  change (TARGET_LANGS cfg) with [py "es"; py "fr"].
  repeat constructor; simpl; intuition discriminate.
Qed.

Lemma first_run_completes : first_run = (Ok tt, snd first_run).
Proof. vm_compute. reflexivity. Qed.

Lemma catalog_keys_translated_once_witness :
  NoDup (TARGET_LANGS cfg)
  /\ first_run = (Ok tt, snd first_run)
  /\ exists contents text source_data,
       In (Called (GetContents LOCALE_PATH (py "main")) (Ok contents))
          (trace (snd first_run))
       /\ utf8_decode (decoded_content contents) = Some text
       /\ JsonRead.loads text = Ok source_data
       /\ forall lang, In lang (TARGET_LANGS cfg) ->
            map entry_key (entries_of (translation_log (snd first_run)) lang)
            = keys source_data
            /\ forall key, In key (keys source_data) ->
                 occurrences key (entries_of (translation_log (snd first_run)) lang)
                 = 1%nat.
Proof.
  split; [exact nodup_two_languages|]. split; [exact first_run_completes|].
  exact (proj2 (catalog_keys_translated_once Sim.serve JsonRead.loads cfg)
           [] fresh_repo _ json_read_nodup nodup_two_languages first_run_completes).
Defined.

(** A language listed twice gets every key twice, in a run that
    completes: the key [greeting] of the catalog occurs twice, not once,
    in the Spanish sequence. *)
Lemma repeated_code_counterexample :
  TARGET_LANGS cfg_twice = [py "es"; py "es"]
  /\ fst twice_run = Ok tt
  /\ In (py "greeting") (keys catalog)
  /\ occurrences (py "greeting")
       (entries_of (translation_log (snd twice_run)) (py "es"))
     <> 1%nat.
Proof.
  split; [reflexivity|]. split; [vm_compute; reflexivity|].
  split; [left; reflexivity|]. vm_compute. discriminate.
Qed.

Lemma usage_counter_sums_reported_costs_witness :
  counter_ok (initial_world [] fresh_repo)
  /\ counter_ok (snd first_run)
  /\ total_tokens_used (initial_world [] fresh_repo) <= total_tokens_used (snd first_run).
Proof.
  assert (H0 : counter_ok (initial_world [] fresh_repo)) by reflexivity.
  split; [exact H0|].
  exact (proj1 (proj2 (proj2 (proj2 (proj2
           (usage_counter_sums_reported_costs Sim.serve JsonRead.loads cfg H0)))))).
Defined.

Abbreviation failed_mail :=
  (send_translation_email Sim.serve cfg (translated_world bad_password_repo)).
Abbreviation failed_mail_events :=
  (skipn (List.length (trace (translated_world bad_password_repo)))
     (trace (snd failed_mail))).

Lemma failed_mail_run : failed_mail = (fst failed_mail, snd failed_mail).
Proof. apply surjective_pairing. Qed.

Lemma failed_mail_trace :
  trace (snd failed_mail)
  = trace (translated_world bad_password_repo) ++ failed_mail_events.
Proof. vm_compute. reflexivity. Qed.

Lemma failed_mail_failure : existsb smtp_failure failed_mail_events = true.
Proof. vm_compute. reflexivity. Qed.

Lemma email_failure_is_not_fatal_witness :
  failed_mail = (fst failed_mail, snd failed_mail)
  /\ trace (snd failed_mail)
     = trace (translated_world bad_password_repo) ++ failed_mail_events
  /\ existsb smtp_failure failed_mail_events = true
  /\ fst failed_mail = Ok tt
  /\ dict_get (disk (snd failed_mail)) CSV_LOG_FILE
     = Some (report_rows (translation_log (translated_world bad_password_repo)))
  /\ exists e session,
       failed_mail_events
       = report_file_events
           (report_rows (translation_log (translated_world bad_password_repo)))
         ++ session ++ [Printed (failed_line e)]
       /\ forallb session_event session = true
       /\ In (Some e) (map raised session).
Proof.
  split; [exact failed_mail_run|]. split; [exact failed_mail_trace|].
  split; [exact failed_mail_failure|].
  exact (email_failure_is_not_fatal Sim.serve cfg _ _
           failed_mail_run failed_mail_trace failed_mail_failure).
Defined.

Example failed_mail_outline :
  map outline_event failed_mail_events
  = ["open translation_report.csv w"; "close translation_report.csv";
     "open translation_report.csv rb"; "close translation_report.csv";
     "smtp connect: ok"; "smtp starttls: ok";
     "smtp login: raised SMTPAuthenticationError (535, b'5.7.8 Username and Password not accepted')";
     "smtp quit: ok";
     "print ❌ Email failed: (535, b'5.7.8 Username and Password not accepted')"]%string.
Proof. vm_compute. reflexivity. Qed.

Abbreviation sent_mail :=
  (send_translation_email Sim.serve cfg (translated_world fresh_repo)).
Abbreviation sent_mail_events :=
  (skipn (List.length (trace (translated_world fresh_repo))) (trace (snd sent_mail))).
Abbreviation sent_mail_event := (nth 7 sent_mail_events (Printed [])).
Abbreviation sent_mail_html :=
  (match sent_html sent_mail_event with Some h => h | None => [] end).

Lemma sent_mail_run : sent_mail = (fst sent_mail, snd sent_mail).
Proof. apply surjective_pairing. Qed.

Lemma sent_mail_trace :
  trace (snd sent_mail) = trace (translated_world fresh_repo) ++ sent_mail_events.
Proof. vm_compute. reflexivity. Qed.

Lemma sent_mail_in : In sent_mail_event sent_mail_events.
Proof. apply nth_In. vm_compute. lia. Qed.

Lemma sent_mail_is_sendmail : sent_html sent_mail_event = Some sent_mail_html.
Proof. vm_compute. reflexivity. Qed.

Lemma report_shows_estimated_costs_witness :
  sent_mail = (fst sent_mail, snd sent_mail)
  /\ trace (snd sent_mail) = trace (translated_world fresh_repo) ++ sent_mail_events
  /\ In sent_mail_event sent_mail_events
  /\ sent_html sent_mail_event = Some sent_mail_html
  /\ report_html cfg (total_tokens_used (translated_world fresh_repo))
       (translation_log (translated_world fresh_repo))
     = Some sent_mail_html.
Proof.
  split; [exact sent_mail_run|]. split; [exact sent_mail_trace|].
  split; [exact sent_mail_in|]. split; [exact sent_mail_is_sendmail|].
  exact (proj1 (report_shows_estimated_costs Sim.serve cfg _ _ _
                  sent_mail_run sent_mail_trace sent_mail_in sent_mail_is_sendmail)).
Defined.

(** The numbers of that report: 88 tokens used, shown as $0.0009; the
    Spanish entries end at 7 words, shown as $0.0001. *)
Example sent_mail_numbers :
  total_tokens_used (translated_world fresh_repo) = 88
  /\ option_map Float64.format_4f (estimated_cost 88) = Some (py "0.0009")
  /\ map (fun le => final_count (snd le)) (translation_log (translated_world fresh_repo))
     = [7]
  /\ option_map Float64.format_4f (estimated_cost 7) = Some (py "0.0001").
Proof. vm_compute. repeat split. Qed.

Abbreviation spanish_once :=
  (translate_locale Sim.serve cfg catalog (py "es") (initial_world [] fresh_repo)).
Abbreviation spanish_twice :=
  (translate_locale Sim.serve cfg catalog (py "es") (snd spanish_once)).

Lemma spanish_once_returns :
  spanish_once
  = (Ok [(py "greeting", py "Hola"); (py "farewell", py "Hasta pronto")],
     snd spanish_once).
Proof. vm_compute. reflexivity. Qed.

Lemma spanish_twice_returns :
  spanish_twice
  = (Ok [(py "greeting", py "Bonjour"); (py "farewell", py "À bientôt")],
     snd spanish_twice).
Proof. vm_compute. reflexivity. Qed.

Lemma some_text_has_a_word : Exists (fun kv => 0 < word_count (snd kv)) catalog.
Proof. left. vm_compute. reflexivity. Qed.

Lemma repeated_language_restarts_count_witness :
  spanish_once
  = (Ok [(py "greeting", py "Hola"); (py "farewell", py "Hasta pronto")],
     snd spanish_once)
  /\ spanish_twice
     = (Ok [(py "greeting", py "Bonjour"); (py "farewell", py "À bientôt")],
        snd spanish_twice)
  /\ ~ cumulative (entries_of (translation_log (snd spanish_twice)) (py "es"))
  /\ TARGET_LANGS cfg_twice = [py "es"; py "es"].
Proof.
  split; [exact spanish_once_returns|]. split; [exact spanish_twice_returns|].
  pose proof (repeated_language_restarts_count Sim.serve cfg catalog (py "es")
                (initial_world [] fresh_repo) (snd spanish_once)
                spanish_once_returns eq_refl spanish_twice_returns)
    as (_ & _ & Hnot & Hlangs).
  split.
  - exact (Hnot some_text_has_a_word).
  - apply (Hlangs cfg_twice (py "es")); [|reflexivity].
    vm_compute. intuition discriminate.
Defined.

Example spanish_twice_tokens :
  map entry_tokens (entries_of (translation_log (snd spanish_twice)) (py "es"))
  = [2; 7; 2; 7].
Proof. vm_compute. reflexivity. Qed.

(** A token that may neither create nor update files, on a repository
    where the output files exist: the creation of the Spanish file
    raises, the fallback fetches the file, the update raises too, the
    run ends with that exception, and French is never processed. *)
Lemma failed_update_counterexample :
  TARGET_LANGS cfg = [py "es"; py "fr"]
  /\ fst (push_translations Sim.serve JsonRead.loads cfg
            (initial_world [] read_only_repo))
     = Raise forbidden
  /\ outline (snd (push_translations Sim.serve JsonRead.loads cfg
                     (initial_world [] read_only_repo)))
     = ["get_repo ClintUK/ringstone-locale-test: ok";
        "get_branch main: ok";
        "create_git_ref refs/heads/translations-auto: raised GithubException 422 Reference already exists";
        "print Branch translations-auto already exists";
        "get_contents locales/en.json @main: ok";
        "print Translating to es...";
        "chat.completions.create: ok";
        "chat.completions.create: ok";
        "create_file locales/es.json @translations-auto: raised GithubException 403 Resource not accessible by integration";
        "get_contents locales/es.json @translations-auto: ok";
        "update_file locales/es.json @translations-auto: raised GithubException 403 Resource not accessible by integration"]%string.
Proof. vm_compute. repeat split. Qed.

(** Creating the reference fails with a server error although the
    working branch does not exist; the error is caught all the same and
    the run goes on to load the catalog and to translate. *)
Lemma branch_error_counterexample :
  dict_get (Sim.branches no_refs_repo) BRANCH_NAME = None
  /\ firstn 7 (outline (snd (push_translations Sim.serve JsonRead.loads cfg
                               (initial_world [] no_refs_repo))))
     = ["get_repo ClintUK/ringstone-locale-test: ok";
        "get_branch main: ok";
        "create_git_ref refs/heads/translations-auto: raised GithubException 503 Service Unavailable";
        "print Branch translations-auto already exists";
        "get_contents locales/en.json @main: ok";
        "print Translating to es...";
        "chat.completions.create: ok"]%string.
Proof. vm_compute. repeat split. Qed.

Lemma published_repo_is_published :
  already_published cfg JsonRead.loads published_repo.
Proof.
  unfold already_published. split; [vm_compute; reflexivity|].
  split; [eexists; vm_compute; reflexivity|].
  split.
  { exists {| Sim.file_branch := py "main"; Sim.file_path := LOCALE_PATH;
              Sim.file_text := Json.dumps catalog; Sim.file_sha := py "sha0" |},
           (Json.dumps catalog), catalog.
    repeat split; vm_compute; reflexivity. }
  split; [eexists; vm_compute; reflexivity|].
  split; [|vm_compute; reflexivity].
  intros lang Hl. change (TARGET_LANGS cfg) with [py "es"; py "fr"] in Hl.
  destruct Hl as [<-|[<-|[]]]; vm_compute; tauto.
Qed.

Abbreviation second_run :=
  (push_translations Sim.serve JsonRead.loads cfg (initial_world [] published_repo)).

Lemma second_run_pair : second_run = (fst second_run, snd second_run).
Proof. apply surjective_pairing. Qed.


(** The second run, event by event. *)
Example second_run_outline :
  fst (push_translations Sim.serve JsonRead.loads cfg (initial_world [] published_repo))
  = Ok tt
  /\ outline (snd (push_translations Sim.serve JsonRead.loads cfg
                     (initial_world [] published_repo)))
     = ["get_repo ClintUK/ringstone-locale-test: ok";
        "get_branch main: ok";
        "create_git_ref refs/heads/translations-auto: raised GithubException 422 Reference already exists";
        "print Branch translations-auto already exists";
        "get_contents locales/en.json @main: ok";
        "print Translating to es...";
        "chat.completions.create: ok";
        "chat.completions.create: ok";
        "create_file locales/es.json @translations-auto: raised GithubException 422 sha was not supplied";
        "get_contents locales/es.json @translations-auto: ok";
        "update_file locales/es.json @translations-auto: ok";
        "print Translating to fr...";
        "chat.completions.create: ok";
        "chat.completions.create: ok";
        "create_file locales/fr.json @translations-auto: raised GithubException 422 sha was not supplied";
        "get_contents locales/fr.json @translations-auto: ok";
        "update_file locales/fr.json @translations-auto: ok";
        "get_pulls ClintUK:translations-auto -> main: ok";
        "print ⚠️ PR already exists. Skipping PR creation.";
        "open translation_report.csv w";
        "close translation_report.csv";
        "open translation_report.csv rb";
        "close translation_report.csv";
        "smtp connect: ok";
        "smtp starttls: ok";
        "smtp login: ok";
        "smtp sendmail: ok";
        "print ✅ Email sent to: ops@ringstone.ai,qa@ringstone.ai";
        "smtp quit: ok"]%string
  /\ List.length (Sim.pulls (remote (snd (push_translations Sim.serve JsonRead.loads cfg
                                           (initial_world [] published_repo)))))
     = 1%nat
  /\ List.length (Sim.outbox (remote (snd (push_translations Sim.serve JsonRead.loads cfg
                                            (initial_world [] published_repo)))))
     = 2%nat.
Proof. vm_compute. repeat split. Qed.

Lemma report_has_header_and_one_row_per_entry_witness :
  first_run = (Ok tt, snd first_run)
  /\ exists contents text source_data,
       In (Called (GetContents LOCALE_PATH (py "main")) (Ok contents))
          (trace (snd first_run))
       /\ utf8_decode (decoded_content contents) = Some text
       /\ JsonRead.loads text = Ok source_data
       /\ dict_get (disk (snd first_run)) CSV_LOG_FILE
          = Some (csv_header :: csv_rows (translation_log (snd first_run)))
       /\ List.length (csv_rows (translation_log (snd first_run)))
          = (List.length source_data * List.length (TARGET_LANGS cfg))%nat.
Proof.
  split; [exact first_run_completes|].
  exact (proj2 (report_has_header_and_one_row_per_entry Sim.serve JsonRead.loads cfg)
           [] fresh_repo _ first_run_completes).
Defined.

(** The report file of the first run: the header and 2 x 2 rows. *)
Example first_run_report :
  dict_get (disk (snd first_run)) CSV_LOG_FILE
  = Some [[py "Language"; py "Key"; py "Original Text"; py "Translated Text"];
          [py "es"; py "greeting"; py "Hello"; py "Hola"];
          [py "es"; py "farewell"; py "See you soon"; py "Hasta pronto"];
          [py "fr"; py "greeting"; py "Hello"; py "Bonjour"];
          [py "fr"; py "farewell"; py "See you soon"; py "À bientôt"]].
Proof. vm_compute. reflexivity. Qed.

(** The Spanish entries of the first run and their running totals. *)
Example first_run_spanish_entries :
  entries_of (translation_log (snd first_run)) (py "es")
  = [(py "greeting", py "Hello", py "Hola", 2);
     (py "farewell", py "See you soon", py "Hasta pronto", 7)].
Proof. vm_compute. reflexivity. Qed.

(** ** Further properties at concrete inputs *)

Lemma two_codes_without_comma :
  Forall (fun lang : pystr => ~ In comma lang) [py "es"; py "fr"].
Proof. repeat constructor; vm_compute; intuition discriminate. Qed.

Lemma target_langs_cut_at_commas_witness :
  [py "es"; py "fr"] <> []
  /\ Forall (fun lang : pystr => ~ In comma lang) [py "es"; py "fr"]
  /\ TRANSLATE_LANGS cfg = Some (join [comma] [py "es"; py "fr"])
  /\ TARGET_LANGS cfg = [py "es"; py "fr"].
Proof.
  assert (H1 : [py "es"; py "fr"] <> []) by discriminate.
  assert (H3 : TRANSLATE_LANGS cfg = Some (join [comma] [py "es"; py "fr"]))
    by reflexivity.
  split; [exact H1|]. split; [exact two_codes_without_comma|]. split; [exact H3|].
  exact (proj2 (proj2 (proj2 (proj2 (proj2 (target_langs_cut_at_commas cfg)))))
           _ H1 two_codes_without_comma H3).
Defined.

Lemma build_prompt_inserts_verbatim_witness :
  build_prompt (py "Hello") (py "es") = build_prompt (py "Hello") (py "es")
  /\ py "Hello" = py "Hello".
Proof.
  split; [reflexivity|].
  exact (proj1 build_prompt_inserts_verbatim (py "Hello") (py "Hello") (py "es") eq_refl).
Defined.

(** The prompt for [Hello] into Spanish. *)
Example build_prompt_text :
  build_prompt (py "Hello") (py "es")
  = nl ++ py "Translate the following UI string from English to es." ++ nl
       ++ py "Keep it concise, clear, and maintain a friendly and modern tone."
       ++ nl ++ nl ++ quote ++ py "Hello" ++ quote ++ nl ++ nl
       ++ py "Only return the translated text, no commentary." ++ nl.
Proof. reflexivity. Qed.

Lemma one_completion_call_per_key_and_language_witness :
  first_run = (Ok tt, snd first_run)
  /\ exists contents text source_data,
       In (Called (GetContents LOCALE_PATH (py "main")) (Ok contents))
          (trace (snd first_run))
       /\ utf8_decode (decoded_content contents) = Some text
       /\ JsonRead.loads text = Ok source_data
       /\ List.length (filter chat_call (trace (snd first_run)))
          = (List.length source_data * List.length (TARGET_LANGS cfg))%nat
       /\ existsb chat_failure (trace (snd first_run)) = false
       /\ total_entries (translation_log (snd first_run))
          = List.length (filter chat_call (trace (snd first_run))).
Proof.
  split; [exact first_run_completes|].
  exact (proj2 (@one_completion_call_per_key_and_language _ Sim.serve JsonRead.loads
                  cfg) [] fresh_repo _ first_run_completes).
Defined.

(** The first run: two keys, two languages, four completion calls. *)
Example first_run_completion_calls :
  List.length (filter chat_call (trace (snd first_run))) = 4%nat.
Proof. vm_compute. reflexivity. Qed.

(** The raw answer [ Hola ] is logged and published stripped. *)
Example first_run_strips_answers :
  map entry_translated (entries_of (translation_log (snd first_run)) (py "es"))
  = [py "Hola"; py "Hasta pronto"]
  /\ message_content {| message_content := py " Hola "; usage_total_tokens := 41 |}
     = [0x20] ++ strip (py " Hola ") ++ [0x20].
Proof. vm_compute. split; reflexivity. Qed.

Lemma start_log_ok :
  log_ok (translation_log (initial_world (X:=Sim.State) [] fresh_repo)).
Proof. split; constructor. Qed.

Lemma translation_log_stays_well_formed_witness :
  log_ok (translation_log (initial_world (X:=Sim.State) [] fresh_repo))
  /\ log_ok (translation_log (snd first_run)).
Proof.
  split; [exact start_log_ok|].
  exact (proj1 (proj2 (translation_log_stays_well_formed Sim.serve JsonRead.loads cfg
                         (initial_world [] fresh_repo) start_log_ok))).
Defined.

Lemma log_lists_languages_in_configured_order_witness :
  NoDup (TARGET_LANGS cfg)
  /\ first_run = (Ok tt, snd first_run)
  /\ exists contents text source_data,
       In (Called (GetContents LOCALE_PATH (py "main")) (Ok contents))
          (trace (snd first_run))
       /\ utf8_decode (decoded_content contents) = Some text
       /\ JsonRead.loads text = Ok source_data
       /\ match source_data with
          | [] => translation_log (snd first_run) = []
          | _ :: _ =>
            keys (translation_log (snd first_run)) = TARGET_LANGS cfg
            /\ Forall (fun le => round_of source_data le
                                 /\ lang_total_tokens (snd le) = sum_words (snd le))
                      (translation_log (snd first_run))
          end.
Proof.
  split; [exact nodup_two_languages|]. split; [exact first_run_completes|].
  exact (log_lists_languages_in_configured_order Sim.serve JsonRead.loads cfg
           [] fresh_repo nodup_two_languages first_run_completes).
Defined.

(** The log of the first run: Spanish, then French, 7 words each. *)
Example first_run_log_order :
  keys (translation_log (snd first_run)) = [py "es"; py "fr"]
  /\ map (fun le => lang_total_tokens (snd le)) (translation_log (snd first_run))
     = [7; 7].
Proof. vm_compute. split; reflexivity. Qed.

Lemma spanish_is_a_target : In (py "es") (TARGET_LANGS cfg).
Proof. change (TARGET_LANGS cfg) with [py "es"; py "fr"]. left. reflexivity. Qed.

Lemma published_files_hold_the_logged_translations_witness :
  NoDup (TARGET_LANGS cfg)
  /\ first_run = (Ok tt, snd first_run)
  /\ In (py "es") (TARGET_LANGS cfg)
  /\ exists ev,
       In ev (trace (snd first_run))
       /\ wrote (py "es")
            (Json.dumps
               (map entry_item (entries_of (translation_log (snd first_run)) (py "es"))))
            ev
          = true.
Proof.
  split; [exact nodup_two_languages|]. split; [exact first_run_completes|].
  split; [exact spanish_is_a_target|].
  exact (published_files_hold_the_logged_translations Sim.serve JsonRead.loads cfg
           [] fresh_repo (py "es") json_read_nodup nodup_two_languages
           first_run_completes spanish_is_a_target).
Defined.

(** The Spanish file of the first run, as the repository holds it. *)
Example first_run_spanish_file :
  option_map Sim.file_text
    (Sim.find_file BRANCH_NAME (py "locales/es.json") (remote (snd first_run)))
  = Some (py "{" ++ nl
            ++ py "  " ++ quote ++ py "greeting" ++ quote ++ py ": "
            ++ quote ++ py "Hola" ++ quote ++ py "," ++ nl
            ++ py "  " ++ quote ++ py "farewell" ++ quote ++ py ": "
            ++ quote ++ py "Hasta pronto" ++ quote ++ nl ++ py "}").
Proof. vm_compute. reflexivity. Qed.

Abbreviation first_run_mail := (nth 21 (trace (snd first_run)) (Printed [])).
Abbreviation first_run_html :=
  (match sent_html first_run_mail with Some h => h | None => [] end).

Lemma first_run_mail_in : In first_run_mail (trace (snd first_run)).
Proof. apply nth_In. vm_compute. lia. Qed.

Lemma first_run_mail_sent : sent_html first_run_mail = Some first_run_html.
Proof. vm_compute. reflexivity. Qed.

Lemma mailed_total_is_the_sum_of_reported_costs_witness :
  first_run = (Ok tt, snd first_run)
  /\ In first_run_mail (trace (snd first_run))
  /\ sent_html first_run_mail = Some first_run_html
  /\ total_tokens_used (snd first_run) = tokens_reported (trace (snd first_run))
  /\ report_html cfg (tokens_reported (trace (snd first_run)))
       (translation_log (snd first_run))
     = Some first_run_html.
Proof.
  split; [exact first_run_completes|]. split; [exact first_run_mail_in|].
  split; [exact first_run_mail_sent|].
  exact (proj2 (mailed_total_is_the_sum_of_reported_costs Sim.serve JsonRead.loads cfg
                  [] fresh_repo first_run_mail
                  first_run_completes first_run_mail_in first_run_mail_sent)).
Defined.

Abbreviation noted_world :=
  (initial_world [(py "notes.txt", [[py "keep"]])] fresh_repo).
Abbreviation noted_run := (push_translations Sim.serve JsonRead.loads cfg noted_world).

Lemma notes_is_not_the_report : py "notes.txt" <> py "translation_report.csv".
Proof. intros H. vm_compute in H. discriminate H. Qed.

Lemma run_touches_only_the_report_file_witness :
  py "notes.txt" <> py "translation_report.csv"
  /\ dict_get (disk (snd noted_run)) (py "notes.txt")
     = dict_get (disk noted_world) (py "notes.txt").
Proof.
  split; [exact notes_is_not_the_report|].
  exact (proj1 (run_touches_only_the_report_file Sim.serve JsonRead.loads cfg
                  noted_world notes_is_not_the_report)).
Defined.

(** The disk after that run: the note as it was, then the report. *)
Example noted_run_disk :
  keys (disk (snd noted_run)) = [py "notes.txt"; py "translation_report.csv"]
  /\ dict_get (disk (snd noted_run)) (py "notes.txt") = Some [[py "keep"]].
Proof. vm_compute. split; reflexivity. Qed.

Abbreviation spanish_entries :=
  (entries_of (translation_log (translated_world fresh_repo)) (py "es")).

Lemma spanish_logged :
  In (py "es", spanish_entries) (translation_log (translated_world fresh_repo)).
Proof. vm_compute. left. reflexivity. Qed.

Lemma report_lists_every_entry_witness :
  sent_mail = (fst sent_mail, snd sent_mail)
  /\ trace (snd sent_mail) = trace (translated_world fresh_repo) ++ sent_mail_events
  /\ In sent_mail_event sent_mail_events
  /\ sent_html sent_mail_event = Some sent_mail_html
  /\ In (py "es", spanish_entries) (translation_log (translated_world fresh_repo))
  /\ forall key original translated tokens,
       In (key, original, translated, tokens) spanish_entries ->
       exists pre post,
         sent_mail_html
         = pre ++ py "<tr><td>" ++ key ++ py "</td><td>" ++ original
               ++ py "</td><td>" ++ translated ++ py "</td></tr>" ++ post.
Proof.
  split; [exact sent_mail_run|]. split; [exact sent_mail_trace|].
  split; [exact sent_mail_in|]. split; [exact sent_mail_is_sendmail|].
  split; [exact spanish_logged|].
  exact (proj2 (report_lists_every_entry Sim.serve cfg (translated_world fresh_repo)
                  sent_mail_events sent_mail_event (py "es") spanish_entries
                  sent_mail_run sent_mail_trace sent_mail_in sent_mail_is_sendmail
                  spanish_logged)).
Defined.

(** The first run's mail session, and one where the login is refused. *)
Example mail_sessions_in_order :
  session_in_order cfg (skipn 18 (trace (snd first_run))) = true
  /\ session_in_order cfg (skipn 4 failed_mail_events) = true
  /\ session_in_order cfg (skipn 19 (trace (snd first_run))) = false.
Proof. vm_compute. repeat split. Qed.

Lemma catalog_keys_distinct : NoDup (keys catalog).
Proof. repeat constructor; vm_compute; intuition discriminate. Qed.

Lemma published_json_reads_back_witness :
  NoDup (keys catalog) /\ JsonRead.loads (Json.dumps catalog) = Ok catalog.
Proof.
  split; [exact catalog_keys_distinct|].
  exact (proj1 (@published_json_reads_back catalog catalog_keys_distinct)).
Defined.

(** A text with a quote, a backslash, a line break and a control
    character, written and read back. *)
Example json_escapes_round_trip :
  Json.dumps [(py "k", quote ++ py "\" ++ nl ++ [0x01] ++ py "é")]
  = py "{" ++ nl ++ py "  " ++ quote ++ py "k" ++ quote ++ py ": " ++ quote
       ++ py "\" ++ quote ++ py "\\" ++ py "\n" ++ py "\u0001" ++ py "é"
       ++ quote ++ nl ++ py "}"
  /\ JsonRead.loads (Json.dumps [(py "k", quote ++ py "\" ++ nl ++ [0x01] ++ py "é")])
     = Ok [(py "k", quote ++ py "\" ++ nl ++ [0x01] ++ py "é")].
Proof. vm_compute. split; reflexivity. Qed.


(** ** Upper-cased language codes *)

Example upper_language_codes :
  upper (py "es") = py "ES"
  /\ upper (py "pt-br") = py "PT-BR"
  /\ upper (py "español") = py "ESPAÑOL"
  /\ upper (py "straße") = py "STRASSE".
Proof. vm_compute. repeat split. Qed.

(** ** Runs outside the amended statements *)


Abbreviation blank_once :=
  (translate_locale Sim.serve cfg blank_catalog (py "es") (initial_world [] blank_repo)).
Abbreviation blank_twice :=
  (translate_locale Sim.serve cfg blank_catalog (py "es") (snd blank_once)).

(** A catalog whose only text is empty, translated twice into the same
    language by a model that answers with blank text: the key is logged
    twice, both counts are 0, and the fourth components are still
    running totals of the whole sequence. *)
Lemma blank_catalog_counterexample :
  fst blank_once = Ok [(py "divider", [])]
  /\ fst blank_twice = Ok [(py "divider", [])]
  /\ entries_of (translation_log (snd blank_twice)) (py "es")
     = [(py "divider", [], [], 0); (py "divider", [], [], 0)]
  /\ occurrences (py "divider")
       (entries_of (translation_log (snd blank_twice)) (py "es")) = 2%nat
  /\ cumulative (entries_of (translation_log (snd blank_twice)) (py "es")).
Proof.
  assert (E : entries_of (translation_log (snd blank_twice)) (py "es")
              = [(py "divider", [], [], 0); (py "divider", [], [], 0)])
    by (vm_compute; reflexivity).
  split; [vm_compute; reflexivity|]. split; [vm_compute; reflexivity|].
  split; [exact E|]. split; [vm_compute; reflexivity|].
  rewrite E. intros i Hi.
  destruct i as [|[|i]]; [vm_compute; reflexivity | vm_compute; reflexivity|].
  simpl in Hi. lia.
Qed.
